(** * BuildQ coordination core: job queue, storage layer, event channels,
      runner registry.

    A shallow embedding of the server-side TypeScript sources
    ([packages/shared/src/types.ts], [packages/server/src/lib/queue.ts],
    the storage module, [lib/sse.ts], [routes/runners.ts], [routes/jobs.ts])
    followed by the properties established about them.

    Conventions of the embedding:
    - a JavaScript [Map] is an insertion-ordered association list ([JsMap]);
      mutation of an object held in a map is an in-place replacement of the
      entry's value;
    - [Date.now()] and [nanoid()] are inputs of the operations that call them;
    - a thrown [Error] is a value of a small error type together with the
      function that renders its message;
    - the file system is a finite map from absolute paths to file contents. *)

From Stdlib Require Import ZArith List Ascii String Lia Bool DecimalString Sorted.
From stdpp Require Import gmap strings.
Import ListNotations.

Local Open Scope Z_scope.

(* ===================================================================== *)
(** * Part I: the embedding                                               *)
(* ===================================================================== *)

(** ** Results of fallible code *)

Inductive Result (E A : Type) : Type :=
| Ok (a : A)
| Throw (e : E).
Arguments Ok {E A} a.
Arguments Throw {E A} e.

(** ** JavaScript [Map<string, V>]

    Iteration follows insertion order; [set] on a key already present keeps
    the entry's position and replaces its value.  A map built from the
    empty one by [set] and [delete] holds every key at most once; [get]
    reads, and [set] writes, the first entry of a key, [delete] leaves no
    entry of it. *)

Module JsMap.
Section Ops.
Context {V : Type}.

Fixpoint get (k : string) (m : list (string * V)) : option V :=
  match m with
  | [] => None
  | (k', v) :: m' => if String.eqb k k' then Some v else get k m'
  end.

Fixpoint set (k : string) (v : V) (m : list (string * V)) : list (string * V) :=
  match m with
  | [] => [(k, v)]
  | (k', v') :: m' =>
      if String.eqb k k' then (k', v) :: m' else (k', v') :: set k v m'
  end.

Fixpoint delete (k : string) (m : list (string * V)) : list (string * V) :=
  match m with
  | [] => []
  | (k', v') :: m' =>
      if String.eqb k k' then delete k m' else (k', v') :: delete k m'
  end.

Definition has (k : string) (m : list (string * V)) : bool :=
  match get k m with Some _ => true | None => false end.

Definition values (m : list (string * V)) : list V := map snd m.

Definition size (m : list (string * V)) : Z := Z.of_nat (length m).

(** Assignment to a field of the object stored at position [i]: the entry
    keeps its key and its place. *)
Fixpoint replace_at (i : nat) (v : V) (m : list (string * V)) : list (string * V) :=
  match m, i with
  | [], _ => []
  | (k, _) :: m', O => (k, v) :: m'
  | e :: m', S i' => e :: replace_at i' v m'
  end.
End Ops.
End JsMap.

Abbreviation JsMap V := (list (string * V)).

(** ** [packages/shared/src/types.ts] *)

Inductive JobStatus := queued | claimed | building | success | error | cancelled.
Inductive Platform := ios | android.

Global Instance JobStatus_eq_dec : EqDecision JobStatus.
Proof. solve_decision. Defined.
Global Instance Platform_eq_dec : EqDecision Platform.
Proof. solve_decision. Defined.

(** The string a status is written as in the source (template literals). *)
Definition JobStatus_to_string (s : JobStatus) : string :=
  match s with
  | queued => "queued"
  | claimed => "claimed"
  | building => "building"
  | success => "success"
  | error => "error"
  | cancelled => "cancelled"
  end.

Definition Platform_to_string (p : Platform) : string :=
  match p with ios => "ios" | android => "android" end.

Module Job.
Record Job := mk {
  id : string;
  status : JobStatus;
  platform : Platform;
  profile : string;
  flags : list string;
  submittedBy : string;
  claimedBy : option string;
  createdAt : Z;
  updatedAt : Z;
  error : option string;
  exitCode : option Z;
  tarballFilename : option string;
  artifactFilename : option string;
}.

(** Field assignments [job.f = v]. *)
Definition set_status (v : JobStatus) (j : Job) : Job :=
  mk (id j) v (platform j) (profile j) (flags j) (submittedBy j) (claimedBy j)
     (createdAt j) (updatedAt j) (error j) (exitCode j) (tarballFilename j)
     (artifactFilename j).
Definition set_claimedBy (v : string) (j : Job) : Job :=
  mk (id j) (status j) (platform j) (profile j) (flags j) (submittedBy j) (Some v)
     (createdAt j) (updatedAt j) (error j) (exitCode j) (tarballFilename j)
     (artifactFilename j).
Definition set_updatedAt (v : Z) (j : Job) : Job :=
  mk (id j) (status j) (platform j) (profile j) (flags j) (submittedBy j) (claimedBy j)
     (createdAt j) v (error j) (exitCode j) (tarballFilename j)
     (artifactFilename j).
Definition set_error (v : string) (j : Job) : Job :=
  mk (id j) (status j) (platform j) (profile j) (flags j) (submittedBy j) (claimedBy j)
     (createdAt j) (updatedAt j) (Some v) (exitCode j) (tarballFilename j)
     (artifactFilename j).
Definition set_exitCode (v : Z) (j : Job) : Job :=
  mk (id j) (status j) (platform j) (profile j) (flags j) (submittedBy j) (claimedBy j)
     (createdAt j) (updatedAt j) (error j) (Some v) (tarballFilename j)
     (artifactFilename j).
Definition set_artifactFilename (v : string) (j : Job) : Job :=
  mk (id j) (status j) (platform j) (profile j) (flags j) (submittedBy j) (claimedBy j)
     (createdAt j) (updatedAt j) (error j) (exitCode j) (tarballFilename j)
     (Some v).
End Job.
Abbreviation Job := Job.Job.

Module Runner.
Record Runner := mk {
  id : string;
  hostname : string;
  platforms : list Platform;
  lastHeartbeat : Z;
}.
End Runner.
Abbreviation Runner := Runner.Runner.

Definition VALID_TRANSITIONS (s : JobStatus) : list JobStatus :=
  match s with
  | queued => [claimed; cancelled]
  | claimed => [building; cancelled; error]
  | building => [success; error; cancelled]
  | success => []
  | error => []
  | cancelled => []
  end.

(** [Array.prototype.includes] on a list of statuses. *)
Definition includes (l : list JobStatus) (x : JobStatus) : bool :=
  existsb (fun y => bool_decide (y = x)) l.

(** The transition table as the specification words it: queued to claimed or
    cancelled; claimed to building, cancelled or error; building to success,
    error or cancelled; nothing out of success, error, cancelled. *)
Definition transition_table (current requested : JobStatus) : bool :=
  match current, requested with
  | queued, claimed | queued, cancelled => true
  | claimed, building | claimed, cancelled | claimed, error => true
  | building, success | building, error | building, cancelled => true
  | _, _ => false
  end.

(** The summary returned by [getQueueStats]. *)
Module QueueStats.
Record QueueStats := mk {
  total : Z;
  queued : Z;
  claimed : Z;
  building : Z;
  success : Z;
  error : Z;
  cancelled : Z;
}.
End QueueStats.
Abbreviation QueueStats := QueueStats.QueueStats.

(** [stats.total++; stats[status]++]. *)
Definition QueueStats_count (stats : QueueStats) (status : JobStatus) : QueueStats :=
  let total := QueueStats.total stats + 1 in
  let q := QueueStats.queued stats in
  let c := QueueStats.claimed stats in
  let b := QueueStats.building stats in
  let s := QueueStats.success stats in
  let e := QueueStats.error stats in
  let x := QueueStats.cancelled stats in
  match status with
  | queued => QueueStats.mk total (q + 1) c b s e x
  | claimed => QueueStats.mk total q (c + 1) b s e x
  | building => QueueStats.mk total q c (b + 1) s e x
  | success => QueueStats.mk total q c b (s + 1) e x
  | error => QueueStats.mk total q c b s (e + 1) x
  | cancelled => QueueStats.mk total q c b s e (x + 1)
  end.

(** ** [packages/server/src/lib/queue.ts] *)

Module Queue.

Record CreateJobParams := {
  platform : Platform;
  profile : string;
  flags : option (list string);
  submittedBy : string;
  tarballFilename : option string;
}.

Record UpdateExtra := {
  error : option string;
  exitCode : option Z;
  artifactFilename : option string;
}.

(** The two errors [updateJobStatus] throws, and their messages. *)
Inductive Error :=
| JobNotFound (id : string)
| InvalidTransition (current requested : JobStatus) (id : string).

Definition message (e : Error) : string :=
  match e with
  | JobNotFound id => "Job not found: " +:+ id
  | InvalidTransition cur new id =>
      "Invalid transition: " +:+ JobStatus_to_string cur +:+ " -> "
        +:+ JobStatus_to_string new +:+ " for job " +:+ id
  end.

(** [createJob]: [nanoid] is the identifier drawn by [nanoid(12)], [now]
    the value of [Date.now()]. *)
Definition createJob (nanoid : string) (now : Z) (params : CreateJobParams)
    (jobs : JsMap Job) : Job * JsMap Job :=
  let job :=
    {| Job.id := nanoid;
       Job.status := queued;
       Job.platform := platform params;
       Job.profile := profile params;
       Job.flags := match flags params with Some f => f | None => [] end;
       Job.submittedBy := submittedBy params;
       Job.claimedBy := None;
       Job.createdAt := now;
       Job.updatedAt := now;
       Job.error := None;
       Job.exitCode := None;
       Job.tarballFilename := tarballFilename params;
       Job.artifactFilename := None |} in
  (job, JsMap.set (Job.id job) job jobs).

Definition getJob (id : string) (jobs : JsMap Job) : option Job :=
  JsMap.get id jobs.

(** The scan of [claimNextJob]: [i] is the position of the next entry,
    [oldest] the position and value of the candidate held so far. *)
Fixpoint scan (platform : Platform) (i : nat) (entries : JsMap Job)
    (oldest : option (nat * Job)) : option (nat * Job) :=
  match entries with
  | [] => oldest
  | (_, job) :: rest =>
      if negb (bool_decide (Job.status job = queued))
         || negb (bool_decide (Job.platform job = platform))
      then scan platform (S i) rest oldest
      else
        match oldest with
        | None => scan platform (S i) rest (Some (i, job))
        | Some (_, o) =>
            if Job.createdAt job <? Job.createdAt o
            then scan platform (S i) rest (Some (i, job))
            else scan platform (S i) rest oldest
        end
  end.

Definition claimNextJob (platform : Platform) (runnerId _runnerHostname : string)
    (now : Z) (jobs : JsMap Job) : option Job * JsMap Job :=
  match scan platform 0 jobs None with
  | None => (None, jobs)
  | Some (i, oldest) =>
      let oldest := Job.set_status claimed oldest in
      let oldest := Job.set_claimedBy runnerId oldest in
      let oldest := Job.set_updatedAt now oldest in
      (Some oldest, JsMap.replace_at i oldest jobs)
  end.

Definition no_extra : UpdateExtra :=
  {| error := None; exitCode := None; artifactFilename := None |}.

(** [updateJobStatus]; an omitted [extra] is [None]. *)
Definition updateJobStatus (id : string) (newStatus : JobStatus)
    (extra : option UpdateExtra) (now : Z) (jobs : JsMap Job)
    : Result Error Job * JsMap Job :=
  match JsMap.get id jobs with
  | None => (Throw (JobNotFound id), jobs)
  | Some job =>
      let allowed := VALID_TRANSITIONS (Job.status job) in
      if negb (includes allowed newStatus)
      then (Throw (InvalidTransition (Job.status job) newStatus id), jobs)
      else
        let job := Job.set_status newStatus job in
        let job := Job.set_updatedAt now job in
        let job := match extra ≫= error with
                   | Some e => Job.set_error e job | None => job end in
        let job := match extra ≫= exitCode with
                   | Some c => Job.set_exitCode c job | None => job end in
        let job := match extra ≫= artifactFilename with
                   | Some a => Job.set_artifactFilename a job | None => job end in
        (Ok job, JsMap.set id job jobs)
  end.

Definition deleteJob (id : string) (jobs : JsMap Job) : bool * JsMap Job :=
  (JsMap.has id jobs, JsMap.delete id jobs).

(** A job [claimNextJob] may pick for [platform]. *)
Definition eligible (platform : Platform) (job : Job) : Prop :=
  Job.status job = queued /\ Job.platform job = platform.

(** A queue operation together with the identifier it draws, if any. *)
Inductive Op :=
| OpCreate (nanoid : string) (params : CreateJobParams)
| OpClaim (platform : Platform) (runnerId runnerHostname : string)
| OpUpdate (id : string) (newStatus : JobStatus) (extra : option UpdateExtra)
| OpDelete (id : string).

(** One operation executed at clock value [now]. *)
Definition step (now : Z) (o : Op) (jobs : JsMap Job) : JsMap Job :=
  match o with
  | OpCreate nanoid params => snd (createJob nanoid now params jobs)
  | OpClaim platform runnerId host => snd (claimNextJob platform runnerId host now jobs)
  | OpUpdate id newStatus extra => snd (updateJobStatus id newStatus extra now jobs)
  | OpDelete id => snd (deleteJob id jobs)
  end.

(** A history: operations with the clock value each one reads, oldest
    first, run from a given store. *)
Fixpoint run (history : list (Z * Op)) (jobs : JsMap Job) : JsMap Job :=
  match history with
  | [] => jobs
  | (now, o) :: rest => run rest (step now o jobs)
  end.

(** The clock never goes back: every reading is at least [from] and at
    least the one before it. *)
Fixpoint clock_monotone (from : Z) (history : list (Z * Op)) : Prop :=
  match history with
  | [] => True
  | (now, _) :: rest => from <= now /\ clock_monotone now rest
  end.

(** *** The read-only views of the store *)

(** [Array.prototype.sort] with the comparator [b.createdAt - a.createdAt]:
    the sort is stable, so its result is the one of inserting each job, from
    the last to the first, in front of the first job that is not newer. *)
Fixpoint insert_newest_first (job : Job) (sorted : list Job) : list Job :=
  match sorted with
  | [] => [job]
  | x :: rest =>
      if Job.createdAt x <=? Job.createdAt job then job :: x :: rest
      else x :: insert_newest_first job rest
  end.

Definition sort_newest_first (l : list Job) : list Job :=
  fold_right insert_newest_first [] l.

Definition getAllJobs (jobs : JsMap Job) : list Job :=
  sort_newest_first (JsMap.values jobs).

Definition getQueueStats (jobs : JsMap Job) : QueueStats :=
  fold_left (fun stats job => QueueStats_count stats (Job.status job))
    (JsMap.values jobs) (QueueStats.mk 0 0 0 0 0 0 0).

(** [getJobsOlderThan]; [now] is [Date.now()]. *)
Definition getJobsOlderThan (ageMs now : Z) (jobs : JsMap Job) : list Job :=
  let cutoff := now - ageMs in
  List.filter (fun job => Job.createdAt job <? cutoff) (JsMap.values jobs).

(** The number of stored jobs in a given status, and of those a claim for
    [platform] may pick. *)
Definition count_status (s : JobStatus) (jobs : JsMap Job) : Z :=
  Z.of_nat (length (List.filter (fun job => bool_decide (Job.status job = s))
                      (JsMap.values jobs))).

Definition count_eligible (platform : Platform) (jobs : JsMap Job) : Z :=
  Z.of_nat (length (List.filter
                      (fun job => bool_decide (Job.status job = queued)
                                  && bool_decide (Job.platform job = platform))
                      (JsMap.values jobs))).

(** How far a status is along the life of a job. *)
Definition rank (s : JobStatus) : Z :=
  match s with
  | queued => 0
  | claimed => 1
  | building => 2
  | _ => 3
  end.

(** What a claim or a status update may do to an entry of the store: the
    key and the fields fixed at creation stay, the status does not move
    back. *)
Definition job_advances (e e' : string * Job) : Prop :=
  e'.1 = e.1 /\
  Job.id e'.2 = Job.id e.2 /\
  Job.platform e'.2 = Job.platform e.2 /\
  Job.profile e'.2 = Job.profile e.2 /\
  Job.flags e'.2 = Job.flags e.2 /\
  Job.submittedBy e'.2 = Job.submittedBy e.2 /\
  Job.createdAt e'.2 = Job.createdAt e.2 /\
  Job.tarballFilename e'.2 = Job.tarballFilename e.2 /\
  rank (Job.status e.2) <= rank (Job.status e'.2).

Definition is_claim_or_update (o : Op) : bool :=
  match o with
  | OpClaim _ _ _ | OpUpdate _ _ _ => true
  | OpCreate _ _ | OpDelete _ => false
  end.

(** Every job is stored under its own id, and no id is stored twice. *)
Definition keyed_by_id (jobs : JsMap Job) : Prop :=
  NoDup (map fst jobs) /\ forall k j, In (k, j) jobs -> k = Job.id j.

End Queue.

(** *** Invariants of the queue used in the proofs *)

(** What the scan knows after having read the entries [seen]. *)
Definition scan_state (p : Platform) (seen : JsMap Job) (oldest : option (nat * Job)) : Prop :=
  match oldest with
  | None => Forall (fun e => ~ Queue.eligible p e.2) seen
  | Some (i, o) =>
      exists before k after,
        seen = before ++ (k, o) :: after /\ length before = i /\
        Queue.eligible p o /\
        Forall (fun e => Queue.eligible p e.2 ->
                         Job.createdAt o < Job.createdAt e.2) before /\
        Forall (fun e => Queue.eligible p e.2 ->
                         Job.createdAt o <= Job.createdAt e.2) after
  end.

(** A queued job has no [claimedBy]. *)
Definition queued_unclaimed (j : Job) : Prop :=
  Job.status j = queued -> Job.claimedBy j = None.

(** Timestamps are in order and not ahead of the clock [t]. *)
Definition timestamps_ordered (t : Z) (j : Job) : Prop :=
  Job.createdAt j <= Job.updatedAt j /\ Job.updatedAt j <= t.

(** ** [node:path], POSIX flavour

    The library functions the storage layer calls.  They are not part of the
    repository; the definitions follow the documented behaviour of Node's
    [path.posix]: a path is cut at every '/', empty and '.' segments are
    dropped, a '..' segment removes the segment before it. *)

Module Path.

(** The segments between the '/' characters; never an empty list. *)
Fixpoint split (path : string) : list string :=
  match path with
  | EmptyString => [EmptyString]
  | String c rest =>
      if Ascii.eqb c "/" then EmptyString :: split rest
      else match split rest with
           | seg :: segs => String c seg :: segs
           | [] => [String c EmptyString]
           end
  end.

(** One step of [normalizeString]: [res] holds the segments kept so far. *)
Definition push_segment (allowAboveRoot : bool) (res : list string)
    (seg : string) : list string :=
  if String.eqb seg EmptyString || String.eqb seg "." then res
  else if String.eqb seg ".." then
    match last res with
    | Some l =>
        if String.eqb l ".."
        then (if allowAboveRoot then res ++ [".."] else res)
        else removelast res
    | None => if allowAboveRoot then res ++ [".."] else res
    end
  else res ++ [seg].

Definition normalizeString (path : string) (allowAboveRoot : bool) : string :=
  String.concat "/" (fold_left (push_segment allowAboveRoot) (split path) []).

Definition isAbsolute (path : string) : bool :=
  match path with
  | String c _ => Ascii.eqb c "/"
  | EmptyString => false
  end.

Fixpoint endsWithSlash (path : string) : bool :=
  match path with
  | EmptyString => false
  | String c EmptyString => Ascii.eqb c "/"
  | String _ rest => endsWithSlash rest
  end.

(** The loop of [resolve], from the last argument towards the first and
    then the working directory, until the path built is absolute. *)
Fixpoint resolve_loop (paths : list string) (resolvedPath : string)
    : string * bool :=
  match paths with
  | [] => (resolvedPath, false)
  | path :: rest =>
      if String.eqb path EmptyString then resolve_loop rest resolvedPath
      else
        let resolvedPath := path +:+ "/" +:+ resolvedPath in
        if isAbsolute path then (resolvedPath, true)
        else resolve_loop rest resolvedPath
  end.

(** [path.resolve(...args)]; [cwd] is [process.cwd()]. *)
Definition resolve (cwd : string) (args : list string) : string :=
  let '(resolvedPath, resolvedAbsolute) :=
    resolve_loop (rev args ++ [cwd]) EmptyString in
  let resolvedPath := normalizeString resolvedPath (negb resolvedAbsolute) in
  if resolvedAbsolute then "/" +:+ resolvedPath
  else if String.eqb resolvedPath EmptyString then "." else resolvedPath.

(** [path.normalize(path)]. *)
Definition normalize (path : string) : string :=
  if String.eqb path EmptyString then "."
  else
    let absolute := isAbsolute path in
    let trailingSeparator := endsWithSlash path in
    let path := normalizeString path (negb absolute) in
    if String.eqb path EmptyString then
      (if absolute then "/" else if trailingSeparator then "./" else ".")
    else
      let path := if trailingSeparator then path +:+ "/" else path in
      if absolute then "/" +:+ path else path.

(** [path.join(...args)]. *)
Definition join (args : list string) : string :=
  match List.filter (fun a => negb (String.eqb a EmptyString)) args with
  | [] => "."
  | parts => normalize (String.concat "/" parts)
  end.

(** [path.basename(path)]: the last non-empty segment, trailing separators
    ignored; empty when there is none. *)
Definition basename (path : string) : string :=
  List.last
    (List.filter (fun seg => negb (String.eqb seg EmptyString)) (split path))
    EmptyString.

End Path.

(** ** The storage module of the server

    Imported by the routes as [lib/storage.js]; its text is the second
    module held by [packages/server/src/lib/auth.ts], after the
    authentication middleware. *)

(** The file system: regular files by absolute path.  Directories are not
    tracked ([mkdir] leaves the files as they are). *)
Abbreviation FS := (gmap string (list Byte.byte)).

Module Storage.

Definition MAX_TARBALL_BYTES : Z := 500 * 1024 * 1024.
Definition MAX_ARTIFACT_BYTES : Z := 2 * 1024 * 1024 * 1024.

(** What the module reads from the process: [process.cwd()] and
    [process.env['STORAGE_DIR']]. *)
Record Env := {
  cwd : string;
  STORAGE_DIR : option string;
}.

(** The module-level variables. *)
Record State := {
  storageDir : string;
  tarballsDir : string;
  artifactsDir : string;
  initialised : bool;
}.

(** Before [init()]: the directories are not assigned yet. *)
Definition initial : State :=
  {| storageDir := EmptyString; tarballsDir := EmptyString;
     artifactsDir := EmptyString; initialised := false |}.

Inductive Error :=
| NotInitialised
| PathTraversal
| SizeLimit (maxBytes : Z) (got : option Z).

(** Decimal rendering of an integer inside a template literal. *)
Definition show (n : Z) : string := NilZero.string_of_int (Z.to_int n).

Definition message (e : Error) : string :=
  match e with
  | NotInitialised => "Storage not initialised — call init() first"
  | PathTraversal => "Path traversal detected"
  | SizeLimit maxBytes (Some got) =>
      "Payload exceeds size limit of " +:+ show maxBytes +:+ " bytes (got "
        +:+ show got +:+ ")"
  | SizeLimit maxBytes None =>
      "Payload exceeds size limit of " +:+ show maxBytes +:+ " bytes"
  end.

(** A payload: a [Buffer], or a stream delivering its chunks in order. *)
Inductive Payload :=
| Buffer (data : list Byte.byte)
| Stream (chunks : list (list Byte.byte)).

Definition getStorageDir (env : Env) : string :=
  match STORAGE_DIR env with
  | Some dir => if String.eqb dir EmptyString then "/data" else dir
  | None => "/data"
  end.

(** [s.replace(/[...]/g, '')] for a class of single characters. *)
Fixpoint remove_chars (cls : ascii -> bool) (s : string) : string :=
  match s with
  | EmptyString => EmptyString
  | String c rest =>
      if cls c then remove_chars cls rest else String c (remove_chars cls rest)
  end.

(** [s.replace(/\.\./g, '')]: matches are found left to right and do not
    overlap. *)
Fixpoint remove_dotdot (s : string) : string :=
  match s with
  | EmptyString => EmptyString
  | String c rest =>
      match rest with
      | String c' rest' =>
          if Ascii.eqb c "." && Ascii.eqb c' "." then remove_dotdot rest'
          else String c (remove_dotdot rest)
      | EmptyString => String c EmptyString
      end
  end.

Definition is_nul (c : ascii) : bool := Ascii.eqb c "000".
Definition is_slash (c : ascii) : bool := Ascii.eqb c "/" || Ascii.eqb c "\".

Definition sanitize (input : string) : string :=
  let clean := remove_chars is_nul input in
  let clean := remove_chars is_slash clean in
  let clean := remove_dotdot clean in
  let clean := Path.basename clean in
  if String.eqb clean EmptyString then "file" else clean.

Definition safePath (cwd parent child : string) : Result Error string :=
  let resolved := Path.resolve cwd [parent; child] in
  if negb (String.prefix (parent +:+ "/") resolved)
     && negb (String.eqb resolved parent)
  then Throw PathTraversal
  else Ok resolved.

(** The file behind the write stream grows by the chunk handed to it. *)
Definition append_file (dest : string) (chunk : list Byte.byte) (fs : FS) : FS :=
  <[dest := default [] (fs !! dest) ++ chunk]> fs.

(** [pipeline(nodeReadable, limiter, ws)]: each chunk goes through the
    limiter, which counts it and either fails or passes it on to the file. *)
Fixpoint pipeline (dest : string) (chunks : list (list Byte.byte))
    (written maxBytes : Z) (fs : FS) : Result Error unit * FS :=
  match chunks with
  | [] => (Ok tt, fs)
  | chunk :: rest =>
      let written := written + Z.of_nat (length chunk) in
      if maxBytes <? written
      then (Throw (SizeLimit maxBytes None), fs)
      else pipeline dest rest written maxBytes (append_file dest chunk fs)
  end.

Definition writeWithLimit (dest : string) (data : Payload) (maxBytes : Z)
    (fs : FS) : Result Error unit * FS :=
  match data with
  | Buffer data =>
      if maxBytes <? Z.of_nat (length data)
      then (Throw (SizeLimit maxBytes (Some (Z.of_nat (length data)))), fs)
      else (Ok tt, <[dest := data]> fs)
  | Stream chunks =>
      (* createWriteStream(dest) opens the file, truncating it *)
      let fs := <[dest := []]> fs in
      match pipeline dest chunks 0 maxBytes fs with
      | (Throw err, fs) => (Throw err, delete dest fs)
      | (Ok _, fs) => (Ok tt, fs)
      end
  end.

Definition init (env : Env) (st : State) : State :=
  let storageDir := Path.resolve (cwd env) [getStorageDir env] in
  let tarballsDir := Path.join [storageDir; "tarballs"] in
  let artifactsDir := Path.join [storageDir; "artifacts"] in
  {| storageDir := storageDir; tarballsDir := tarballsDir;
     artifactsDir := artifactsDir; initialised := true |}.

Definition ensureInit (st : State) : Result Error unit :=
  if negb (initialised st) then Throw NotInitialised else Ok tt.

Definition saveTarball (env : Env) (st : State) (jobId : string)
    (data : Payload) (fs : FS) : Result Error string * FS :=
  match ensureInit st with
  | Throw e => (Throw e, fs)
  | Ok _ =>
      let safeId := sanitize jobId in
      let filename := safeId +:+ ".tar.gz" in
      match safePath (cwd env) (tarballsDir st) filename with
      | Throw e => (Throw e, fs)
      | Ok dest =>
          match writeWithLimit dest data MAX_TARBALL_BYTES fs with
          | (Throw e, fs) => (Throw e, fs)
          | (Ok _, fs) => (Ok dest, fs)
          end
      end
  end.

Definition saveArtifact (env : Env) (st : State) (jobId originalFilename : string)
    (data : Payload) (fs : FS) : Result Error string * FS :=
  match ensureInit st with
  | Throw e => (Throw e, fs)
  | Ok _ =>
      let safeId := sanitize jobId in
      let safeName := sanitize originalFilename in
      let filename := safeId +:+ "-" +:+ safeName in
      match safePath (cwd env) (artifactsDir st) filename with
      | Throw e => (Throw e, fs)
      | Ok dest =>
          match writeWithLimit dest data MAX_ARTIFACT_BYTES fs with
          | (Throw e, fs) => (Throw e, fs)
          | (Ok _, fs) => (Ok dest, fs)
          end
      end
  end.

(** *** Predicates used to state the properties of the storage layer *)

(** Some character of [s] is in the class [cls]. *)
Fixpoint contains_char (cls : ascii -> bool) (s : string) : bool :=
  match s with
  | EmptyString => false
  | String c rest => cls c || contains_char cls rest
  end.

(** [s] has two consecutive dots somewhere. *)
Fixpoint contains_dotdot (s : string) : bool :=
  match s with
  | EmptyString => false
  | String c rest =>
      match rest with
      | String c' _ =>
          (Ascii.eqb c "." && Ascii.eqb c' ".") || contains_dotdot rest
      | EmptyString => false
      end
  end.

Definition is_sep (c : ascii) : bool := Ascii.eqb c "/".

(** A segment that names an entry of a directory: not empty, neither '.'
    nor '..', without '/'. *)
Definition plain (seg : string) : bool :=
  negb (String.eqb seg EmptyString) && negb (String.eqb seg ".")
  && negb (String.eqb seg "..") && negb (contains_char is_sep seg).

(** An absolute, normalised directory below the root: '/' followed by one
    or more plain segments separated by '/'. *)
Definition normal_dir (dir : string) : Prop :=
  exists segs, segs <> [] /\ Forall (fun seg => plain seg = true) segs /\
               dir = "/" +:+ String.concat "/" segs.

(** The number of bytes a payload carries, and the bytes themselves. *)
Definition total_bytes (chunks : list (list Byte.byte)) : Z :=
  fold_right (fun chunk n => Z.of_nat (length chunk) + n) 0 chunks.

Definition payload_bytes (data : Payload) : Z :=
  match data with
  | Buffer data => Z.of_nat (length data)
  | Stream chunks => total_bytes chunks
  end.

Definition payload_content (data : Payload) : list Byte.byte :=
  match data with
  | Buffer data => data
  | Stream chunks => List.concat chunks
  end.

(** [resolved] passes the test [safePath] makes against [parent]. *)
Definition inside (parent resolved : string) : Prop :=
  String.prefix (parent +:+ "/") resolved = true \/ resolved = parent.

(** *** Looking files up, listing and deleting them *)

(** [stat(path)] succeeds when a file is stored at [path]. *)
Definition exists_at (path : string) (fs : FS) : bool :=
  match fs !! path with Some _ => true | None => false end.

Definition getTarballPath (env : Env) (st : State) (jobId : string) (fs : FS)
    : Result Error (option string) :=
  match ensureInit st with
  | Throw e => Throw e
  | Ok _ =>
      let safeId := sanitize jobId in
      match safePath (cwd env) (tarballsDir st) (safeId +:+ ".tar.gz") with
      | Throw e => Throw e
      | Ok dest => Ok (if exists_at dest fs then Some dest else None)
      end
  end.

Definition getArtifactPath (env : Env) (st : State) (jobId filename : string)
    (fs : FS) : Result Error (option string) :=
  match ensureInit st with
  | Throw e => Throw e
  | Ok _ =>
      let safeId := sanitize jobId in
      let safeName := sanitize filename in
      match safePath (cwd env) (artifactsDir st) (safeId +:+ "-" +:+ safeName) with
      | Throw e => Throw e
      | Ok dest => Ok (if exists_at dest fs then Some dest else None)
      end
  end.

(** What is left of [s] after [prefix], when [s] starts with it. *)
Fixpoint strip_prefix (prefix s : string) : option string :=
  match prefix, s with
  | EmptyString, _ => Some s
  | String a prefix', String b s' =>
      if Ascii.eqb a b then strip_prefix prefix' s' else None
  | String _ _, EmptyString => None
  end.

(** [readdir(dir)]: the names of the files stored directly in [dir].  The
    two directories of the storage layer hold regular files only (see
    [flat]); sub-directories are outside the model. *)
Definition readdir (dir : string) (fs : FS) : list string :=
  omap (fun entry : string * list Byte.byte =>
          match strip_prefix (dir +:+ "/") entry.1 with
          | Some name =>
              if String.eqb name EmptyString || contains_char is_sep name
              then None else Some name
          | None => None
          end)
       (map_to_list fs).

(** Every file below [dir] sits directly in it, under a name that a
    directory entry can have. *)
Definition flat (dir : string) (fs : FS) : Prop :=
  forall rest, is_Some (fs !! (dir +:+ "/" +:+ rest)) -> plain rest = true.

(** [names.map((name) => rm(safePath(dir, name), { force: true }))]: the
    removals are issued one name after the other; a [safePath] that throws
    ends the [map]. *)
Fixpoint rm_all (cwd dir : string) (names : list string) (fs : FS)
    : Result Error unit * FS :=
  match names with
  | [] => (Ok tt, fs)
  | name :: rest =>
      match safePath cwd dir name with
      | Throw e => (Throw e, fs)
      | Ok path => rm_all cwd dir rest (delete path fs)
      end
  end.

Definition deleteJobFiles (env : Env) (st : State) (jobId : string) (fs : FS)
    : Result Error unit * FS :=
  match ensureInit st with
  | Throw e => (Throw e, fs)
  | Ok _ =>
      let safeId := sanitize jobId in
      match safePath (cwd env) (tarballsDir st) (safeId +:+ ".tar.gz") with
      | Throw e => (Throw e, fs)
      | Ok tarball =>
          let fs := delete tarball fs in
          let entries := readdir (artifactsDir st) fs in
          let prefix := safeId +:+ "-" in
          rm_all (cwd env) (artifactsDir st)
            (List.filter (fun name => String.prefix prefix name) entries) fs
      end
  end.

Record StorageStats := {
  stats_storageDir : string;
  tarballCount : Z;
  artifactCount : Z;
  totalTarballBytes : Z;
  totalArtifactBytes : Z;
}.

(** [sumSize(dir, entries)]: a name whose [stat] fails counts for nothing. *)
Definition sumSize (dir : string) (entries : list string) (fs : FS) : Z :=
  fold_left
    (fun total name =>
       match fs !! Path.join [dir; name] with
       | Some content => total + Z.of_nat (length content)
       | None => total
       end)
    entries 0.

Definition getStorageStats (st : State) (fs : FS) : Result Error StorageStats :=
  match ensureInit st with
  | Throw e => Throw e
  | Ok _ =>
      let tarballEntries := readdir (tarballsDir st) fs in
      let artifactEntries := readdir (artifactsDir st) fs in
      Ok {| stats_storageDir := storageDir st;
            tarballCount := Z.of_nat (length tarballEntries);
            artifactCount := Z.of_nat (length artifactEntries);
            totalTarballBytes := sumSize (tarballsDir st) tarballEntries fs;
            totalArtifactBytes := sumSize (artifactsDir st) artifactEntries fs |}
  end.

(** A name that [sanitize] has nothing to do on. *)
Definition safe_name (s : string) : bool :=
  negb (String.eqb s EmptyString) && negb (contains_char is_nul s)
  && negb (contains_char is_slash s) && negb (contains_dotdot s).

(** The calls that write to the storage, and a sequence of them. *)
Inductive Op :=
| OpSaveTarball (jobId : string) (data : Payload)
| OpSaveArtifact (jobId originalFilename : string) (data : Payload)
| OpDeleteJobFiles (jobId : string).

Definition step (env : Env) (st : State) (o : Op) (fs : FS) : FS :=
  match o with
  | OpSaveTarball jobId data => (saveTarball env st jobId data fs).2
  | OpSaveArtifact jobId originalFilename data =>
      (saveArtifact env st jobId originalFilename data fs).2
  | OpDeleteJobFiles jobId => (deleteJobFiles env st jobId fs).2
  end.

Definition run (env : Env) (st : State) (ops : list Op) (fs : FS) : FS :=
  fold_left (fun fs o => step env st o fs) ops fs.

End Storage.

(** The string [sanitize] holds in [clean] just before the fallback. *)
Definition stripped (input : string) : string :=
  Path.basename
    (Storage.remove_dotdot
       (Storage.remove_chars Storage.is_slash
          (Storage.remove_chars Storage.is_nul input))).

(** Characters that tell the file names built by the storage layer from
    the segments '.' and '..'. *)
Definition is_dash (c : ascii) : bool := Ascii.eqb c "-".
Definition is_t (c : ascii) : bool := Ascii.eqb c "t".

(** ** [packages/server/src/lib/sse.ts] *)

Module SSEClient.
(** A subscriber handle.  [send event data] and [close] tell whether the
    call returns ([true]) or throws ([false]). *)
Record SSEClient := mk {
  id : string;
  send : string -> string -> bool;
  close : bool;
}.
End SSEClient.
Abbreviation SSEClient := SSEClient.SSEClient.

Module Sse.

(** What a call leaves behind outside the registry: an event handed to a
    client, a warning logged for a client whose [send] threw, a client
    closed. *)
Inductive Effect :=
| Sent (clientId event data : string)
| Warned (clientId event channel : string)
| Closed (clientId : string).

Definition getOrCreateChannel (channel : string)
    (channels : JsMap (JsMap SSEClient)) : JsMap SSEClient * JsMap (JsMap SSEClient) :=
  match JsMap.get channel channels with
  | Some clients => (clients, channels)
  | None => ([], JsMap.set channel [] channels)
  end.

Definition addClient (channel : string) (client : SSEClient)
    (channels : JsMap (JsMap SSEClient)) : JsMap (JsMap SSEClient) :=
  let '(clients, channels) := getOrCreateChannel channel channels in
  JsMap.set channel (JsMap.set (SSEClient.id client) client clients) channels.

Definition removeClient (channel clientId : string)
    (channels : JsMap (JsMap SSEClient)) : JsMap (JsMap SSEClient) :=
  match JsMap.get channel channels with
  | None => channels
  | Some clients =>
      let clients := JsMap.delete clientId clients in
      if JsMap.size clients =? 0
      then JsMap.delete channel channels
      else JsMap.set channel clients channels
  end.

Section Broadcast.
(** The payload type and [JSON.stringify] on it. *)
Context {A : Type} (stringify : A -> string).

Definition broadcast (channel event : string) (data : A)
    (channels : JsMap (JsMap SSEClient)) : list Effect :=
  match JsMap.get channel channels with
  | None => []
  | Some clients =>
      let serialized := stringify data in
      map (fun client =>
             if SSEClient.send client event serialized
             then Sent (SSEClient.id client) event serialized
             else Warned (SSEClient.id client) event channel)
          (JsMap.values clients)
  end.

Definition broadcastToJob (jobId event : string) (data : A)
    (channels : JsMap (JsMap SSEClient)) : list Effect :=
  broadcast ("job:" +:+ jobId) event data channels.

Definition broadcastToPlatform (platform : Platform) (event : string) (data : A)
    (channels : JsMap (JsMap SSEClient)) : list Effect :=
  broadcast ("platform:" +:+ Platform_to_string platform) event data channels.
End Broadcast.

Definition getConnectedClients (channels : JsMap (JsMap SSEClient)) : Z :=
  fold_left (fun total clients => total + JsMap.size clients)
    (JsMap.values channels) 0.

Definition closeAllClients (channels : JsMap (JsMap SSEClient))
    : list Effect * JsMap (JsMap SSEClient) :=
  (flat_map (fun clients =>
               flat_map (fun client =>
                           if SSEClient.close client
                           then [Closed (SSEClient.id client)] else [])
                        (JsMap.values clients))
            (JsMap.values channels),
   []).

(** Subscriptions and cancellations, and the registries they lead to. *)
Inductive Op :=
| OpAdd (channel : string) (client : SSEClient)
| OpRemove (channel clientId : string).

Definition step (o : Op) (channels : JsMap (JsMap SSEClient))
    : JsMap (JsMap SSEClient) :=
  match o with
  | OpAdd channel client => addClient channel client channels
  | OpRemove channel clientId => removeClient channel clientId channels
  end.

Definition run (ops : list Op) : JsMap (JsMap SSEClient) :=
  fold_left (fun channels o => step o channels) ops [].

(** The client an effect is about. *)
Definition effect_client (e : Effect) : string :=
  match e with
  | Sent clientId _ _ | Warned clientId _ _ | Closed clientId => clientId
  end.

(** [clientId] is subscribed to [channel]. *)
Definition subscribed (channel clientId : string)
    (channels : JsMap (JsMap SSEClient)) : bool :=
  match JsMap.get channel channels with
  | Some clients => JsMap.has clientId clients
  | None => false
  end.

(** The shape of a registry: no channel name twice, no channel without
    subscribers, and in a channel no client id twice and every client under
    its own id. *)
Definition well_formed (channels : JsMap (JsMap SSEClient)) : Prop :=
  NoDup (map fst channels) /\
  forall channel clients, In (channel, clients) channels ->
    clients <> [] /\ NoDup (map fst clients) /\
    forall k client, In (k, client) clients -> k = SSEClient.id client.

End Sse.

(** ** [packages/server/src/routes/runners.ts] *)

Module Runners.

Definition ACTIVE_THRESHOLD_MS : Z := 90000.
Definition STALE_REMOVE_MS : Z := 5 * 60000.

(** The JSON body of a heartbeat.  An absent or empty [runnerId] or
    [hostname] is the empty string; [platforms] is [None] when the field is
    absent or not an array. *)
Record HeartbeatBody := {
  runnerId : string;
  hostname : string;
  platforms : option (list Platform);
}.

Inductive ResponseBody :=
| ErrorBody (error : string)
| RunnerBody (runner : Runner).

Record Response := {
  status : Z;
  body : ResponseBody;
}.

(** The callback of [startRunnerCleanup], run at clock value [now]. *)
Definition sweep (now : Z) (runnerMap : JsMap Runner) : JsMap Runner :=
  List.filter
    (fun entry => negb (STALE_REMOVE_MS <? now - Runner.lastHeartbeat entry.2))
    runnerMap.

Definition hasActiveRunner (platform : Platform) (now : Z)
    (runnerMap : JsMap Runner) : bool :=
  existsb
    (fun runner =>
       (now - Runner.lastHeartbeat runner <? ACTIVE_THRESHOLD_MS)
       && existsb (fun p => bool_decide (p = platform)) (Runner.platforms runner))
    (JsMap.values runnerMap).

(** [POST /runners/heartbeat]; [now] is [Date.now()]. *)
Definition heartbeat (body : HeartbeatBody) (now : Z) (runnerMap : JsMap Runner)
    : Response * JsMap Runner :=
  if String.eqb (runnerId body) EmptyString then
    ({| status := 400; body := ErrorBody "Missing runnerId" |}, runnerMap)
  else
    match platforms body with
    | None | Some [] =>
        ({| status := 400; body := ErrorBody "Missing or empty platforms array" |},
         runnerMap)
    | Some platforms =>
        match JsMap.get (runnerId body) runnerMap with
        | Some existing =>
            let existing :=
              {| Runner.id := Runner.id existing;
                 Runner.hostname := hostname body;
                 Runner.platforms := platforms;
                 Runner.lastHeartbeat := now |} in
            ({| status := 200; body := RunnerBody existing |},
             JsMap.set (runnerId body) existing runnerMap)
        | None =>
            let runner :=
              {| Runner.id := runnerId body;
                 Runner.hostname :=
                   if String.eqb (hostname body) EmptyString then "unknown"
                   else hostname body;
                 Runner.platforms := platforms;
                 Runner.lastHeartbeat := now |} in
            ({| status := 200; body := RunnerBody runner |},
             JsMap.set (Runner.id runner) runner runnerMap)
        end
    end.

End Runners.

(** ** [packages/server/src/routes/jobs.ts]: artifact upload *)

Module Jobs.

(** The state the handler works on: the job store, the storage module and
    the files, the channel registry. *)
Record Server := {
  jobs : JsMap Job;
  storage : Storage.State;
  files : FS;
  channels : JsMap (JsMap SSEClient);
}.

(** A field of a parsed multipart body. *)
Inductive FormValue :=
| FormString (value : string)
| FormFile (name : string) (content : list Byte.byte).

Inductive ResponseBody :=
| ErrorBody (error : string)
| FilenameBody (filename : string).

Record Response := {
  status : Z;
  body : ResponseBody;
}.

(** The payload of the 'job:artifact' event. *)
Record ArtifactEvent := {
  jobId : string;
  filename : string;
}.

Section Handler.
Context (stringify : ArtifactEvent -> string) (env : Storage.Env).

(** [POST /jobs/:id/artifact]; [artifact] is [body['artifact']], [now] the
    clock read by [updateJobStatus]. *)
Definition postArtifact (jobId : string) (artifact : option FormValue) (now : Z)
    (srv : Server) : Response * Server * list Sse.Effect :=
  match Queue.getJob jobId (jobs srv) with
  | None => ({| status := 404; body := ErrorBody "Job not found" |}, srv, [])
  | Some job =>
      if negb (bool_decide (Job.status job = building))
         && negb (bool_decide (Job.status job = success))
      then
        ({| status := 400;
            body := ErrorBody ("Cannot upload artifact for job in '"
                               +:+ JobStatus_to_string (Job.status job)
                               +:+ "' status") |}, srv, [])
      else
        match artifact with
        | Some (FormFile name content) =>
            match Storage.saveArtifact env (storage srv) jobId name
                    (Storage.Buffer content) (files srv) with
            | (Throw err, fs) =>
                ({| status := 400;
                    body := ErrorBody ("Failed to save artifact: "
                                       +:+ Storage.message err) |},
                 {| jobs := jobs srv; storage := storage srv; files := fs;
                    channels := channels srv |}, [])
            | (Ok _, fs) =>
                let extra :=
                  {| Queue.error := None; Queue.exitCode := None;
                     Queue.artifactFilename := Some name |} in
                match Queue.updateJobStatus jobId (Job.status job) (Some extra)
                        now (jobs srv) with
                | (Throw err, jobs') =>
                    ({| status := 400;
                        body := ErrorBody ("Failed to save artifact: "
                                           +:+ Queue.message err) |},
                     {| jobs := jobs'; storage := storage srv; files := fs;
                        channels := channels srv |}, [])
                | (Ok job', jobs') =>
                    (* job.artifactFilename = artifact.name *)
                    let jobs' :=
                      JsMap.set jobId (Job.set_artifactFilename name job') jobs' in
                    let effects :=
                      Sse.broadcastToJob stringify jobId "job:artifact"
                        {| jobId := jobId; filename := name |} (channels srv) in
                    ({| status := 200; body := FilenameBody name |},
                     {| jobs := jobs'; storage := storage srv; files := fs;
                        channels := channels srv |}, effects)
                end
            end
        | _ =>
            ({| status := 400;
                body := ErrorBody "Missing required field: artifact" |}, srv, [])
        end
  end.
End Handler.

End Jobs.

(** ** [packages/server/src/lib/cleanup.ts] *)

Module Cleanup.

Definition DEFAULT_TTL_MS : Z := 86400000.

Section Cycle.
(** [await storage.deleteJobFiles(id)] inside its [try]: the server as the
    cycle finds it when it resumes.  While the cycle waits the call does
    its work on the files and the server handles the requests that come
    in; a failure of the call is only logged. *)
Context (awaitDeleteJobFiles : string -> Jobs.Server -> Jobs.Server).
(** The status in which a job object the cycle holds was last left, for an
    object that is no longer in the queue when its turn comes. *)
Context (detachedStatus : Job -> JobStatus).

(** One turn of the loop of [runCleanupNow], on the server and the count of
    deleted jobs.  [job] is the object the cycle took from the queue when it
    started; [job.status] is read when its turn comes, as the handlers that
    ran meanwhile have left it.  As long as the job is in the queue the
    entry under its id is that very object (an id is given once). *)
Definition cleanup_job (acc : Jobs.Server * Z) (job : Job) : Jobs.Server * Z :=
  let '(srv, deletedJobs) := acc in
  let status :=
    match Queue.getJob (Job.id job) (Jobs.jobs srv) with
    | Some live => Job.status live
    | None => detachedStatus job
    end in
  if bool_decide (status = building) || bool_decide (status = claimed)
  then acc
  else
    let srv := awaitDeleteJobFiles (Job.id job) srv in
    let jobs := (Queue.deleteJob (Job.id job) (Jobs.jobs srv)).2 in
    ({| Jobs.jobs := jobs; Jobs.storage := Jobs.storage srv;
        Jobs.files := Jobs.files srv; Jobs.channels := Jobs.channels srv |},
     deletedJobs + 1).

(** [runCleanupNow]; [ttl] is the value of [getTtl()] and [now] the value of
    [Date.now()] read by [getJobsOlderThan].  The result is the server at
    the end of the cycle and [deletedJobs]. *)
Definition runCleanupNow (ttl now : Z) (srv : Jobs.Server) : Jobs.Server * Z :=
  fold_left cleanup_job (Queue.getJobsOlderThan ttl now (Jobs.jobs srv)) (srv, 0).
End Cycle.

(** The wait during which no request is handled: only [deleteJobFiles]
    acts, on the files.  No job object changes then, so that one that is
    not in the queue has the status [Job.status] it was taken with. *)
Definition undisturbed (env : Storage.Env) (id : string) (srv : Jobs.Server)
    : Jobs.Server :=
  {| Jobs.jobs := Jobs.jobs srv; Jobs.storage := Jobs.storage srv;
     Jobs.files :=
       (Storage.deleteJobFiles env (Jobs.storage srv) id (Jobs.files srv)).2;
     Jobs.channels := Jobs.channels srv |}.

(** A job is in flight while a runner holds it. *)
Definition in_flight (job : Job) : bool :=
  bool_decide (Job.status job = building)
  || bool_decide (Job.status job = claimed).

(** The jobs a cycle is after: older than [ttl] and not in flight. *)
Definition expired (ttl now : Z) (job : Job) : bool :=
  (Job.createdAt job <? now - ttl) && negb (in_flight job).

End Cleanup.

(** ** [packages/server/src/routes/jobs.ts]: submit, claim, download, cancel *)

Module JobRoutes.

Inductive ResponseBody :=
| ErrorBody (error : string)
| JobBody (job : Job)
| ClaimBody (job : Job) (tarballUrl : string)
| FileBody (path : string) (content : list Byte.byte)
| ListBody (jobs : list Job) (queued building completed : Z)
| NoBody.

Record Response := {
  status : Z;
  body : ResponseBody;
}.

(** The payload of the 'job:status' event; an absent field is [None]. *)
Record StatusEvent := {
  jobId : string;
  newStatus : JobStatus;
  eventError : option string;
  eventExitCode : option Z;
}.

(** [platform] when it is 'ios' or 'android'. *)
Definition platform_of (platform : option string) : option Platform :=
  match platform with
  | Some p =>
      if String.eqb p "ios" then Some ios
      else if String.eqb p "android" then Some android
      else None
  | None => None
  end.

(** [value || fallback] on a string that may be absent. *)
Definition or_else (value : option string) (fallback : string) : string :=
  match value with
  | Some v => if String.eqb v EmptyString then fallback else v
  | None => fallback
  end.

(** [s.includes(needle)]. *)
Fixpoint str_includes (needle s : string) : bool :=
  String.prefix needle s
  || match s with
     | EmptyString => false
     | String _ rest => str_includes needle rest
     end.

(** [job.tarballFilename = v]. *)
Definition set_tarballFilename (v : string) (j : Job) : Job :=
  Job.mk (Job.id j) (Job.status j) (Job.platform j) (Job.profile j) (Job.flags j)
    (Job.submittedBy j) (Job.claimedBy j) (Job.createdAt j) (Job.updatedAt j)
    (Job.error j) (Job.exitCode j) (Some v) (Job.artifactFilename j).

Definition dquote : string := String "034" EmptyString.

(** A query filter selects [value] when it is absent or empty, or equal to
    it. *)
Definition selects (filter : option string) (value : string) : bool :=
  String.eqb (or_else filter EmptyString) EmptyString
  || String.eqb value (or_else filter EmptyString).

(** [l.slice(0, limit)] for the value [limit] of a [parseInt]: not a number
    ([None]) counts as 0, a negative number counts from the end. *)
Definition slice_to {A : Type} (limit : option Z) (l : list A) : list A :=
  match limit with
  | None => []
  | Some n =>
      if n <? 0 then firstn (Z.to_nat (Z.max 0 (Z.of_nat (length l) + n))) l
      else firstn (Z.to_nat n) l
  end.

Definition with_jobs (jobs : JsMap Job) (srv : Jobs.Server) : Jobs.Server :=
  {| Jobs.jobs := jobs; Jobs.storage := Jobs.storage srv;
     Jobs.files := Jobs.files srv; Jobs.channels := Jobs.channels srv |}.

Definition with_files (fs : FS) (srv : Jobs.Server) : Jobs.Server :=
  {| Jobs.jobs := Jobs.jobs srv; Jobs.storage := Jobs.storage srv;
     Jobs.files := fs; Jobs.channels := Jobs.channels srv |}.

Section Handlers.
(** [JSON.stringify] on the two payloads, [JSON.parse] followed by
    [Array.isArray] on the flags ([None] when either fails), and the
    environment of the storage module. *)
Context (stringify_job : Job -> string)
        (stringify_status : StatusEvent -> string)
        (stringify_artifact : Jobs.ArtifactEvent -> string)
        (parseFlags : string -> option (list string))
        (parseInt : string -> option Z)
        (env : Storage.Env).

(** [POST /jobs]; the arguments are the fields of the parsed body, the id
    drawn by [nanoid()] and the clock read by [createJob]. *)
Definition submit (tarball : option Jobs.FormValue)
    (platform profile flagsRaw submittedBy : option string)
    (nanoid : string) (now : Z) (srv : Jobs.Server)
    : Response * Jobs.Server * list Sse.Effect :=
  let profile := or_else profile "development" in
  match tarball with
  | Some (Jobs.FormFile _ content) =>
      match platform_of platform with
      | None =>
          ({| status := 400;
              body := ErrorBody ("Invalid or missing platform. Must be "
                                 +:+ dquote +:+ "ios" +:+ dquote +:+ " or "
                                 +:+ dquote +:+ "android" +:+ dquote +:+ ".") |},
           srv, [])
      | Some platform =>
          if String.eqb (or_else submittedBy EmptyString) EmptyString then
            ({| status := 400;
                body := ErrorBody "Missing required field: submittedBy" |}, srv, [])
          else
            let flags :=
              if String.eqb (or_else flagsRaw EmptyString) EmptyString
              then Some []
              else parseFlags (or_else flagsRaw EmptyString) in
            match flags with
            | None =>
                ({| status := 400; body := ErrorBody "flags must be a JSON array" |},
                 srv, [])
            | Some flags =>
                let '(job, jobs) :=
                  Queue.createJob nanoid now
                    {| Queue.platform := platform; Queue.profile := profile;
                       Queue.flags := Some flags;
                       Queue.submittedBy := or_else submittedBy EmptyString;
                       Queue.tarballFilename := None |}
                    (Jobs.jobs srv) in
                match Storage.saveTarball env (Jobs.storage srv) (Job.id job)
                        (Storage.Buffer content) (Jobs.files srv) with
                | (Throw err, fs) =>
                    let jobs := (Queue.deleteJob (Job.id job) jobs).2 in
                    ({| status := 400;
                        body := ErrorBody ("Failed to save tarball: "
                                           +:+ Storage.message err) |},
                     with_files fs (with_jobs jobs srv), [])
                | (Ok _, fs) =>
                    let job := set_tarballFilename (Job.id job +:+ ".tar.gz") job in
                    let jobs := JsMap.set (Job.id job) job jobs in
                    let effects :=
                      Sse.broadcastToPlatform stringify_job platform "job:created"
                        job (Jobs.channels srv) in
                    ({| status := 201; body := JobBody job |},
                     with_files fs (with_jobs jobs srv), effects)
                end
            end
      end
  | _ =>
      ({| status := 400; body := ErrorBody "Missing required field: tarball" |},
       srv, [])
  end.

(** [GET /jobs]; the arguments are the query parameters, [parseInt] is
    [parseInt(_, 10)] with [None] for not-a-number. *)
Definition listJobs (statusFilter platformFilter limitRaw : option string)
    (srv : Jobs.Server) : Response :=
  let limit := parseInt (or_else limitRaw "50") in
  let allJobs := Queue.getAllJobs (Jobs.jobs srv) in
  let allJobs :=
    if String.eqb (or_else statusFilter EmptyString) EmptyString then allJobs
    else List.filter
           (fun j => String.eqb (JobStatus_to_string (Job.status j))
                       (or_else statusFilter EmptyString))
           allJobs in
  let allJobs :=
    if String.eqb (or_else platformFilter EmptyString) EmptyString then allJobs
    else List.filter
           (fun j => String.eqb (Platform_to_string (Job.platform j))
                       (or_else platformFilter EmptyString))
           allJobs in
  let limited := slice_to limit allJobs in
  let stats := Queue.getQueueStats (Jobs.jobs srv) in
  {| status := 200;
     body := ListBody limited (QueueStats.queued stats) (QueueStats.building stats)
               (QueueStats.success stats + QueueStats.error stats
                + QueueStats.cancelled stats) |}.

(** [POST /jobs/claim]; an absent [runnerId] or [hostname] is the empty
    string. *)
Definition claim (platform : option string) (runnerId hostname : string)
    (now : Z) (srv : Jobs.Server) : Response * Jobs.Server * list Sse.Effect :=
  match platform_of platform with
  | None =>
      ({| status := 400; body := ErrorBody "Invalid or missing platform" |}, srv, [])
  | Some platform =>
      if String.eqb runnerId EmptyString then
        ({| status := 400; body := ErrorBody "Missing runnerId" |}, srv, [])
      else
        match Queue.claimNextJob platform runnerId
                (or_else (Some hostname) "unknown") now (Jobs.jobs srv) with
        | (None, jobs) => ({| status := 204; body := NoBody |}, with_jobs jobs srv, [])
        | (Some job, jobs) =>
            let effects :=
              Sse.broadcastToJob stringify_status (Job.id job) "job:status"
                {| jobId := Job.id job; newStatus := claimed;
                   eventError := None; eventExitCode := None |}
                (Jobs.channels srv) in
            ({| status := 200;
                body := ClaimBody job ("/jobs/" +:+ Job.id job +:+ "/tarball") |},
             with_jobs jobs srv, effects)
        end
  end.

(** [GET /jobs/:id/tarball].  An error thrown by the storage module is not
    caught by the handler. *)
Definition getTarball (id : string) (srv : Jobs.Server)
    : Result Storage.Error Response :=
  match Queue.getJob id (Jobs.jobs srv) with
  | None => Ok {| status := 404; body := ErrorBody "Job not found" |}
  | Some job =>
      if negb (bool_decide (Job.status job = claimed))
         && negb (bool_decide (Job.status job = building))
      then
        Ok {| status := 400;
              body := ErrorBody ("Cannot download tarball for job in '"
                                 +:+ JobStatus_to_string (Job.status job)
                                 +:+ "' status") |}
      else
        match Storage.getTarballPath env (Jobs.storage srv) (Job.id job)
                (Jobs.files srv) with
        | Throw err => Throw err
        | Ok None => Ok {| status := 404; body := ErrorBody "Tarball not found" |}
        | Ok (Some tarballPath) =>
            Ok {| status := 200;
                  body := FileBody tarballPath
                            (default [] (Jobs.files srv !! tarballPath)) |}
        end
  end.

(** [POST /jobs/:id/cancel]. *)
Definition cancel (id : string) (now : Z) (srv : Jobs.Server)
    : Response * Jobs.Server * list Sse.Effect :=
  match Queue.updateJobStatus id cancelled None now (Jobs.jobs srv) with
  | (Ok job, jobs) =>
      let effects :=
        Sse.broadcastToJob stringify_status id "job:status"
          {| jobId := id; newStatus := cancelled;
             eventError := None; eventExitCode := None |} (Jobs.channels srv) in
      ({| status := 200; body := JobBody job |}, with_jobs jobs srv, effects)
  | (Throw err, jobs) =>
      let message := Queue.message err in
      if str_includes "not found" message
      then ({| status := 404; body := ErrorBody message |}, with_jobs jobs srv, [])
      else ({| status := 409; body := ErrorBody message |}, with_jobs jobs srv, [])
  end.

(** [PATCH /jobs/:id/status]; the fields of the body are as the source
    types them, an absent one is [None]. *)
Definition patchStatus (id : string) (status : option JobStatus)
    (error : option string) (exitCode : option Z) (now : Z) (srv : Jobs.Server)
    : Response * Jobs.Server * list Sse.Effect :=
  match status with
  | None => ({| status := 400; body := ErrorBody "Missing status" |}, srv, [])
  | Some newStatus =>
      let extra :=
        {| Queue.error := error; Queue.exitCode := exitCode;
           Queue.artifactFilename := None |} in
      match Queue.updateJobStatus id newStatus (Some extra) now (Jobs.jobs srv) with
      | (Ok job, jobs) =>
          let effects :=
            Sse.broadcastToJob stringify_status id "job:status"
              {| jobId := id; newStatus := newStatus;
                 eventError := error; eventExitCode := exitCode |}
              (Jobs.channels srv) in
          ({| status := 200; body := JobBody job |}, with_jobs jobs srv, effects)
      | (Throw err, jobs) =>
          let message := Queue.message err in
          if str_includes "not found" message
          then ({| status := 404; body := ErrorBody message |}, with_jobs jobs srv, [])
          else ({| status := 409; body := ErrorBody message |}, with_jobs jobs srv, [])
      end
  end.

(** [GET /jobs/:id/artifact]. *)
Definition getArtifact (id : string) (srv : Jobs.Server)
    : Result Storage.Error Response :=
  match Queue.getJob id (Jobs.jobs srv) with
  | None => Ok {| status := 404; body := ErrorBody "Job not found" |}
  | Some job =>
      if String.eqb (or_else (Job.artifactFilename job) EmptyString) EmptyString
      then Ok {| status := 404;
                 body := ErrorBody "No artifact available for this job" |}
      else
        match Storage.getArtifactPath env (Jobs.storage srv) id
                (or_else (Job.artifactFilename job) EmptyString)
                (Jobs.files srv) with
        | Throw err => Throw err
        | Ok None =>
            Ok {| status := 404; body := ErrorBody "Artifact file not found" |}
        | Ok (Some artifactPath) =>
            Ok {| status := 200;
                  body := FileBody artifactPath
                            (default [] (Jobs.files srv !! artifactPath)) |}
        end
  end.

(** The requests that change the jobs or the files, and a cleanup cycle,
    with the time to live it reads, that runs while no request comes in. *)
Inductive Request :=
| Submit (tarball : option Jobs.FormValue)
    (platform profile flagsRaw submittedBy : option string) (nanoid : string)
| Claim (platform : option string) (runnerId hostname : string)
| PatchStatus (id : string) (status : option JobStatus) (error : option string)
    (exitCode : option Z)
| Cancel (id : string)
| PostArtifact (id : string) (artifact : option Jobs.FormValue)
| CleanupCycle (ttl : Z).

(** The server after [request], handled at clock value [now]. *)
Definition handle (now : Z) (request : Request) (srv : Jobs.Server)
    : Jobs.Server :=
  match request with
  | Submit tarball platform profile flagsRaw submittedBy nanoid =>
      (submit tarball platform profile flagsRaw submittedBy nanoid now srv).1.2
  | Claim platform runnerId hostname =>
      (claim platform runnerId hostname now srv).1.2
  | PatchStatus id status message exitCode =>
      (patchStatus id status message exitCode now srv).1.2
  | Cancel id => (cancel id now srv).1.2
  | PostArtifact id artifact =>
      (Jobs.postArtifact stringify_artifact env id artifact now srv).1.2
  | CleanupCycle ttl =>
      (Cleanup.runCleanupNow (Cleanup.undisturbed env) Job.status ttl now srv).1
  end.

Definition serve (requests : list (Z * Request)) (srv : Jobs.Server)
    : Jobs.Server :=
  fold_left (fun srv request => handle request.1 request.2 srv) requests srv.

End Handlers.

End JobRoutes.

(** ** [packages/server/src/lib/auth.ts]: the bearer-token middleware *)

Module Auth.

(** The middleware either calls [next()] or answers 401 'Unauthorized'. *)
Inductive Outcome := Next | Unauthorized.

(** [s.slice(n)]. *)
Fixpoint slice_from (n : nat) (s : string) : string :=
  match n, s with
  | O, _ => s
  | S n', String _ rest => slice_from n' rest
  | S _, EmptyString => EmptyString
  end.

Section Middleware.
(** The SHA-256 digest; [timingSafeEqual] on two digests tells whether they
    are equal. *)
Context {Digest : Type} `{EqDecision Digest} (sha256 : string -> Digest).

(** [authMiddleware] for a request to [path] with the header
    [Authorization], on a server whose environment has [BUILDQ_TOKEN]. *)
Definition authMiddleware (path : string)
    (BUILDQ_TOKEN authorization : option string) : Outcome :=
  if String.eqb path "/health" then Next
  else
    match BUILDQ_TOKEN with
    | None => Next
    | Some expectedToken =>
        if String.eqb expectedToken EmptyString then Next
        else
          match authorization with
          | None => Unauthorized
          | Some authHeader =>
              if String.eqb authHeader EmptyString
                 || negb (String.prefix "Bearer " authHeader)
              then Unauthorized
              else
                let presentedToken := slice_from 7 authHeader in
                let expectedHash := sha256 expectedToken in
                let presentedHash := sha256 presentedToken in
                if negb (bool_decide (expectedHash = presentedHash))
                then Unauthorized
                else Next
          end
    end.
End Middleware.

End Auth.

(* ===================================================================== *)
(** * Part II: properties                                                 *)
(* ===================================================================== *)


(** ** Facts about [JsMap] *)

Section JsMapFacts.
Context {V : Type}.
Implicit Types (m : JsMap V) (k : string) (v : V).

Lemma replace_at_middle (before after : JsMap V) k v v' :
  JsMap.replace_at (length before) v' (before ++ (k, v) :: after)
  = before ++ (k, v') :: after.
Proof.
  induction before as [|[k0 v0] before IH]; simpl; [reflexivity|].
  by rewrite IH.
Qed.

Lemma get_set_same k v m : JsMap.get k (JsMap.set k v m) = Some v.
Proof.
  induction m as [|[k' v'] m IH]; simpl.
  - by rewrite String.eqb_refl.
  - destruct (String.eqb k k') eqn:E; simpl; rewrite E; [reflexivity|exact IH].
Qed.

Lemma get_In k v m : JsMap.get k m = Some v -> In (k, v) m.
Proof.
  induction m as [|[k' v'] m IH]; simpl; [discriminate|].
  destruct (String.eqb k k') eqn:E.
  - apply String.eqb_eq in E. intros [= ->]. left. by subst.
  - intros H. right. by apply IH.
Qed.

Lemma In_set k v m e :
  In e (JsMap.set k v m) -> e = (k, v) \/ In e m.
Proof.
  induction m as [|[k' v'] m IH]; simpl.
  - intros [<-|[]]. by left.
  - destruct (String.eqb k k') eqn:E; simpl.
    + apply String.eqb_eq in E. subst k'. intros [<-|H]; auto.
    + intros [<-|H]; auto. destruct (IH H); auto.
Qed.
Lemma In_delete k m e : In e (JsMap.delete k m) -> In e m.
Proof.
  induction m as [|[k' v'] m IH]; simpl; [done|].
  destruct (String.eqb k k'); simpl; [by auto|]. intros [<-|H]; auto.
Qed.
End JsMapFacts.

(** ** The job queue *)

Section QueueFacts.
Implicit Types (jobs : JsMap Job) (job : Job) (p : Platform).

Lemma eligible_test p job :
  negb (bool_decide (Job.status job = queued))
  || negb (bool_decide (Job.platform job = p)) = false
  <-> Queue.eligible p job.
Proof.
  unfold Queue.eligible.
  rewrite orb_false_iff, !negb_false_iff, !bool_decide_eq_true. tauto.
Qed.


Lemma scan_state_skip p seen oldest k job :
  ~ Queue.eligible p job ->
  scan_state p seen oldest -> scan_state p (seen ++ [(k, job)]) oldest.
Proof.
  intros Hne. destruct oldest as [[i o]|]; simpl.
  - intros (b & k0 & a & -> & Hlen & Ho & Hb & Ha).
    exists b, k0, (a ++ [(k, job)]). rewrite <- app_assoc. simpl.
    split_and!; try done.
    apply Forall_app. split; [done|]. constructor; [|constructor].
    simpl. intros; contradiction.
  - intros H. apply Forall_app. split; [done|]. by constructor.
Qed.

Lemma scan_invariant p entries : forall seen oldest,
  scan_state p seen oldest ->
  scan_state p (seen ++ entries)
    (Queue.scan p (length seen) entries oldest).
Proof.
  induction entries as [|[k job] rest IH]; intros seen oldest Hst; simpl.
  - by rewrite app_nil_r.
  - replace (seen ++ (k, job) :: rest) with ((seen ++ [(k, job)]) ++ rest)
      by (by rewrite <- app_assoc).
    replace (S (length seen)) with (length (seen ++ [(k, job)]))
      by (rewrite length_app; simpl; lia).
    destruct (negb (bool_decide (Job.status job = queued))
              || negb (bool_decide (Job.platform job = p))) eqn:Etest.
    + apply IH, scan_state_skip; [|done].
      intros He. apply eligible_test in He. congruence.
    + apply eligible_test in Etest.
      destruct oldest as [[i o]|].
      * destruct Hst as (b & k0 & a & -> & Hlen & Ho & Hb & Ha).
        destruct (Job.createdAt job <? Job.createdAt o) eqn:Elt.
        -- apply Z.ltb_lt in Elt. apply IH.
           exists (b ++ (k0, o) :: a), k, []. split_and!; try done.
           ++ apply Forall_app. split.
              ** eapply Forall_impl; [exact Hb|]. simpl. intros e He Hel.
                 specialize (He Hel). lia.
              ** constructor; [simpl; intros; lia|].
                 eapply Forall_impl; [exact Ha|]. simpl. intros e He Hel.
                 specialize (He Hel). lia.
        -- apply Z.ltb_ge in Elt. apply IH.
           exists b, k0, (a ++ [(k, job)]). rewrite <- app_assoc. simpl.
           split_and!; try done.
           apply Forall_app. split; [done|]. constructor; [|constructor].
           simpl. intros; lia.
      * apply IH. exists seen, k, []. split_and!; try done.
        eapply Forall_impl; [exact Hst|]. simpl. intros; contradiction.
Qed.

Lemma scan_correct p jobs : scan_state p jobs (Queue.scan p 0 jobs None).
Proof. apply (scan_invariant p jobs [] None). constructor. Qed.
End QueueFacts.

(** [claimNextJob] either finds nothing, or splits the store around the job
    it claims: among the jobs that are 'queued' and of the requested
    platform, the first one in insertion order whose [createdAt] is
    minimal. *)
Lemma claimNextJob_cases
    (platform : Platform) (runnerId host : string) (now : Z) (jobs : JsMap Job) :
  (exists before k j after,
      jobs = before ++ (k, j) :: after /\
      Queue.eligible platform j /\
      (forall e, In e jobs -> Queue.eligible platform e.2 ->
                 Job.createdAt j <= Job.createdAt e.2) /\
      (forall e, In e before -> Queue.eligible platform e.2 ->
                 Job.createdAt j < Job.createdAt e.2) /\
      let j' := Job.mk (Job.id j) claimed (Job.platform j) (Job.profile j)
                  (Job.flags j) (Job.submittedBy j) (Some runnerId)
                  (Job.createdAt j) now (Job.error j) (Job.exitCode j)
                  (Job.tarballFilename j) (Job.artifactFilename j) in
      Queue.claimNextJob platform runnerId host now jobs
      = (Some j', before ++ (k, j') :: after))
  \/
  ((forall e, In e jobs -> ~ Queue.eligible platform e.2) /\
   Queue.claimNextJob platform runnerId host now jobs = (None, jobs)).
Proof.
  pose proof (scan_correct platform jobs) as Hscan.
  unfold Queue.claimNextJob.
  destruct (Queue.scan platform 0 jobs None) as [[i o]|]; simpl in Hscan.
  - left. destruct Hscan as (b & k & a & -> & <- & Ho & Hb & Ha).
    exists b, k, o, a. split_and!; try done.
    + intros e Hin Hel. apply in_app_or in Hin as [Hin|[<-|Hin]].
      * rewrite Forall_forall in Hb. apply list_elem_of_In in Hin.
        specialize (Hb e Hin Hel). lia.
      * simpl. lia.
      * rewrite Forall_forall in Ha. apply list_elem_of_In in Hin. by apply Ha.
    + intros e Hin Hel. rewrite Forall_forall in Hb.
      apply list_elem_of_In in Hin. by apply Hb.
    + simpl. by rewrite replace_at_middle.
  - right. split; [|reflexivity].
    intros e Hin. rewrite Forall_forall in Hscan.
    apply list_elem_of_In in Hin. by apply Hscan.
Qed.

Lemma updateJobStatus_cases
    (id : string) (newStatus : JobStatus) (extra : option Queue.UpdateExtra)
    (now : Z) (jobs : JsMap Job) :
  (Queue.getJob id jobs = None /\
   Queue.updateJobStatus id newStatus extra now jobs
   = (Throw (Queue.JobNotFound id), jobs))
  \/
  (exists job, Queue.getJob id jobs = Some job /\
     includes (VALID_TRANSITIONS (Job.status job)) newStatus = false /\
     Queue.updateJobStatus id newStatus extra now jobs
     = (Throw (Queue.InvalidTransition (Job.status job) newStatus id), jobs))
  \/
  (exists job job', Queue.getJob id jobs = Some job /\
     includes (VALID_TRANSITIONS (Job.status job)) newStatus = true /\
     Queue.updateJobStatus id newStatus extra now jobs
     = (Ok job', JsMap.set id job' jobs) /\
     Job.id job' = Job.id job /\
     Job.status job' = newStatus /\
     Job.platform job' = Job.platform job /\
     Job.claimedBy job' = Job.claimedBy job /\
     Job.createdAt job' = Job.createdAt job /\
     Job.updatedAt job' = now).
Proof.
  unfold Queue.updateJobStatus, Queue.getJob.
  destruct (JsMap.get id jobs) as [job|]; [|by left].
  right.
  destruct (includes (VALID_TRANSITIONS (Job.status job)) newStatus) eqn:E; simpl.
  - right. destruct extra as [[[e|] [c|] [a|]]|]; simpl;
      eexists job, _; split_and!; done.
  - left. by exists job.
Qed.

Lemma includes_transition_table (current requested : JobStatus) :
  includes (VALID_TRANSITIONS current) requested
  = transition_table current requested.
Proof. by destruct current, requested. Qed.

Lemma no_self_transition (s : JobStatus) :
  includes (VALID_TRANSITIONS s) s = false.
Proof. by destruct s. Qed.

Lemma no_transition_to_queued (s : JobStatus) :
  includes (VALID_TRANSITIONS s) queued = false.
Proof. by destruct s. Qed.

Lemma message_InvalidTransition_not_JobNotFound
    (current requested : JobStatus) (id id' : string) :
  Queue.message (Queue.InvalidTransition current requested id)
  <> Queue.message (Queue.JobNotFound id').
Proof. unfold Queue.message. cbv [String.append]. discriminate. Qed.

(** How one queue operation acts on a property of the stored jobs: it is
    enough to look at the job [createJob] builds, at the job a claim
    rewrites and at the job a legal transition rewrites ([deleteJob] only
    removes). *)
Lemma step_jobs_inv (P Q : Job -> Prop) (now : Z) (o : Queue.Op) (jobs : JsMap Job) :
  (forall j, P j -> Q j) ->
  (forall nanoid params, Q (Queue.createJob nanoid now params jobs).1) ->
  (forall j runnerId, P j -> Job.status j = queued ->
     Q (Job.mk (Job.id j) claimed (Job.platform j) (Job.profile j)
          (Job.flags j) (Job.submittedBy j) (Some runnerId)
          (Job.createdAt j) now (Job.error j) (Job.exitCode j)
          (Job.tarballFilename j) (Job.artifactFilename j))) ->
  (forall j j', P j ->
     includes (VALID_TRANSITIONS (Job.status j)) (Job.status j') = true ->
     Job.claimedBy j' = Job.claimedBy j ->
     Job.createdAt j' = Job.createdAt j ->
     Job.updatedAt j' = now -> Q j') ->
  (forall e, In e jobs -> P e.2) ->
  forall e, In e (Queue.step now o jobs) -> Q e.2.
Proof.
  intros HPQ Hcreate Hclaim Hupdate Hjobs e Hin.
  destruct o as [nanoid params|platform runnerId host|id newStatus extra|id];
    simpl in Hin; [| | |by apply HPQ, Hjobs, (In_delete id)].
  - apply In_set in Hin as [->|Hin]; [apply Hcreate|by apply HPQ, Hjobs].
  - destruct (claimNextJob_cases platform runnerId host now jobs)
      as [(b & k & j & a & Hjobs' & [Hq _] & _ & _ & Heq)|[_ Heq]];
      rewrite Heq in Hin; simpl in Hin; [|by apply HPQ, Hjobs].
    apply in_app_or in Hin as [Hin|[<-|Hin]].
    + apply HPQ, Hjobs. rewrite Hjobs'. apply in_or_app. by left.
    + simpl. apply Hclaim; [|done].
      apply (Hjobs (k, j)). rewrite Hjobs'. apply in_or_app. right. by left.
    + apply HPQ, Hjobs. rewrite Hjobs'. apply in_or_app. right. by right.
  - destruct (updateJobStatus_cases id newStatus extra now jobs)
      as [[_ Heq]|[(job & _ & _ & Heq)|(job & job' & Hget & Hinc & Heq & _ & Hst & _ & Hcb & Hca & Hua)]];
      rewrite Heq in Hin; simpl in Hin; try by apply HPQ, Hjobs.
    apply In_set in Hin as [->|Hin]; [|by apply HPQ, Hjobs].
    simpl. apply (Hupdate job); try done.
    + apply (Hjobs (id, job)). by apply get_In.
    + by rewrite Hst.
Qed.


Lemma step_queued_unclaimed (now : Z) (o : Queue.Op) (jobs : JsMap Job) :
  (forall e, In e jobs -> queued_unclaimed e.2) ->
  forall e, In e (Queue.step now o jobs) -> queued_unclaimed e.2.
Proof.
  apply step_jobs_inv; unfold queued_unclaimed; simpl; try done.
  intros j j' _ Hinc _ _ _ Hq. rewrite Hq in Hinc.
  by rewrite no_transition_to_queued in Hinc.
Qed.

Lemma run_queued_unclaimed (history : list (Z * Queue.Op)) : forall jobs,
  (forall e, In e jobs -> queued_unclaimed e.2) ->
  forall e, In e (Queue.run history jobs) -> queued_unclaimed e.2.
Proof.
  induction history as [|[now o] rest IH]; simpl; [done|].
  intros jobs Hjobs. apply IH. by apply step_queued_unclaimed.
Qed.


Lemma step_timestamps_ordered (t now : Z) (o : Queue.Op) (jobs : JsMap Job) :
  t <= now ->
  (forall e, In e jobs -> timestamps_ordered t e.2) ->
  forall e, In e (Queue.step now o jobs) -> timestamps_ordered now e.2.
Proof.
  intros Hle. apply step_jobs_inv; unfold timestamps_ordered; simpl; lia.
Qed.

Lemma run_timestamps_ordered (history : list (Z * Queue.Op)) : forall t jobs,
  Queue.clock_monotone t history ->
  (forall e, In e jobs -> timestamps_ordered t e.2) ->
  forall e, In e (Queue.run history jobs) ->
            Job.createdAt e.2 <= Job.updatedAt e.2.
Proof.
  induction history as [|[now o] rest IH]; simpl.
  - intros t jobs _ Hjobs e Hin. by apply (Hjobs e Hin).
  - intros t jobs [Hle Hmono] Hjobs. apply (IH now); [done|].
    by apply (step_timestamps_ordered t).
Qed.

Lemma clock_monotone_prefix (history rest : list (Z * Queue.Op)) : forall t,
  Queue.clock_monotone t (history ++ rest) -> Queue.clock_monotone t history.
Proof.
  induction history as [|[now o] h IH]; simpl; [done|].
  intros t [Hle H]. split; [done|by apply IH].
Qed.

(** *** The claims about the queue *)

(** C1. [claimNextJob(platform, runnerId)] picks, among the jobs that are
    'queued' and of the requested platform, one with the smallest
    [createdAt] (the first such in insertion order); that job, wherever it
    sits in the map, gets status 'claimed', [claimedBy = runnerId] and
    [updatedAt = Date.now()], every other field and every other job staying
    as they were, and it is the value returned.  When no job is eligible the
    call returns nothing and the store is untouched. *)
Theorem claimNextJob_oldest_first
    (platform : Platform) (runnerId host : string) (now : Z) (jobs : JsMap Job) :
  (exists before k j after,
      jobs = before ++ (k, j) :: after /\
      Job.status j = queued /\ Job.platform j = platform /\
      (forall k' j', In (k', j') jobs ->
         Job.status j' = queued -> Job.platform j' = platform ->
         Job.createdAt j <= Job.createdAt j') /\
      (forall k' j', In (k', j') before ->
         Job.status j' = queued -> Job.platform j' = platform ->
         Job.createdAt j < Job.createdAt j') /\
      let claimedJob :=
        Job.mk (Job.id j) claimed (Job.platform j) (Job.profile j)
          (Job.flags j) (Job.submittedBy j) (Some runnerId)
          (Job.createdAt j) now (Job.error j) (Job.exitCode j)
          (Job.tarballFilename j) (Job.artifactFilename j) in
      Queue.claimNextJob platform runnerId host now jobs
      = (Some claimedJob, before ++ (k, claimedJob) :: after))
  \/
  ((forall k j, In (k, j) jobs ->
      ~ (Job.status j = queued /\ Job.platform j = platform)) /\
   Queue.claimNextJob platform runnerId host now jobs = (None, jobs)).
Proof.
  destruct (claimNextJob_cases platform runnerId host now jobs)
    as [(b & k & j & a & Hjobs & [Hq Hp] & Hmin & Hfirst & Heq)|[Hnone Heq]].
  - left. exists b, k, j, a. split_and!; try done.
    + intros k' j' Hin Hq' Hp'. by apply (Hmin (k', j')).
    + intros k' j' Hin Hq' Hp'. by apply (Hfirst (k', j')).
  - right. split; [|done]. intros k j Hin. apply (Hnone (k, j) Hin).
Qed.

(** The fairness scenario of the specification: A created before B, both
    queued for the platform; the claim returns A and leaves B queued. *)
Example claimNextJob_A_before_B :
  let A := Job.mk "A" queued ios "dev" [] "me" None 100 100 None None None None in
  let B := Job.mk "B" queued ios "dev" [] "me" None 200 200 None None None None in
  let A' := Job.mk "A" claimed ios "dev" [] "me" (Some "r1") 100 300 None None None None in
  Queue.claimNextJob ios "r1" "host" 300 [("B", B); ("A", A)]
  = (Some A', [("B", B); ("A", A')]).
Proof. reflexivity. Qed.

(** C2. On an existing job [updateJobStatus] succeeds exactly on the edges
    of the transition table (queued to claimed or cancelled; claimed to
    building, cancelled or error; building to success, error or cancelled;
    nothing out of success, error, cancelled).  Any other request throws the
    invalid-transition error, whose message names the current and the
    requested status and differs from every job-not-found message, and
    leaves the store, hence the job and all its fields, as it was. *)
Theorem updateJobStatus_transition_legality
    (id : string) (newStatus : JobStatus) (extra : option Queue.UpdateExtra)
    (now : Z) (jobs : JsMap Job) (job : Job) :
  Queue.getJob id jobs = Some job ->
  (if transition_table (Job.status job) newStatus
   then exists job',
          Queue.updateJobStatus id newStatus extra now jobs
          = (Ok job', JsMap.set id job' jobs) /\
          Queue.getJob id (JsMap.set id job' jobs) = Some job' /\
          Job.status job' = newStatus
   else
     let e := Queue.InvalidTransition (Job.status job) newStatus id in
     Queue.updateJobStatus id newStatus extra now jobs = (Throw e, jobs) /\
     Queue.getJob id (Queue.updateJobStatus id newStatus extra now jobs).2
     = Some job /\
     Queue.message e
     = "Invalid transition: " +:+ JobStatus_to_string (Job.status job)
         +:+ " -> " +:+ JobStatus_to_string newStatus +:+ " for job " +:+ id /\
     (forall id', Queue.message e <> Queue.message (Queue.JobNotFound id')) /\
     (forall id', e <> Queue.JobNotFound id')) /\
  VALID_TRANSITIONS success = [] /\
  VALID_TRANSITIONS error = [] /\
  VALID_TRANSITIONS cancelled = [].
Proof.
  intros Hget. split; [|done].
  rewrite <- includes_transition_table.
  destruct (updateJobStatus_cases id newStatus extra now jobs)
    as [[Hnone _]|[(job0 & Hget0 & Hinc & Heq)|(job0 & job' & Hget0 & Hinc & Heq & _ & Hst & _)]].
  - congruence.
  - assert (job0 = job) as -> by congruence. rewrite Hinc. simpl.
    rewrite Heq. split_and!; [reflexivity|exact Hget|reflexivity| |discriminate].
    intros id'. apply message_InvalidTransition_not_JobNotFound.
  - assert (job0 = job) as -> by congruence. rewrite Hinc.
    exists job'. split_and!; [exact Heq|apply get_set_same|exact Hst].
Qed.

Lemma updateJobStatus_transition_legality_witness :
  let job := Job.mk "j1" success ios "dev" [] "me" (Some "r1")
               100 400 None (Some 0) None None in
  Queue.getJob "j1" [("j1", job)] = Some job
  /\ Queue.updateJobStatus "j1" building None 500 [("j1", job)]
     = (Throw (Queue.InvalidTransition success building "j1"), [("j1", job)]).
Proof.
  intros job. split; [reflexivity|].
  pose proof (updateJobStatus_transition_legality "j1" building None 500
                [("j1", job)] job eq_refl) as [H _].
  simpl in H. apply H.
Defined.

(** C5 as stated fails: a job cancelled straight from 'queued' has left
    'queued' and carries no [claimedBy]; hence [claimedBy] set is not
    equivalent to status past 'queued' on reachable stores. *)
Lemma cancelled_from_queued_has_no_claimedBy :
  let params := {| Queue.platform := ios; Queue.profile := "dev";
                   Queue.flags := None; Queue.submittedBy := "me";
                   Queue.tarballFilename := None |} in
  let history := [(100, Queue.OpCreate "j1" params);
                  (200, Queue.OpUpdate "j1" cancelled None)] in
  Queue.run history []
  = [("j1", Job.mk "j1" cancelled ios "dev" [] "me" None 100 200
              None None None None)]
  /\ ~ (forall history k j, In (k, j) (Queue.run history []) ->
          (is_Some (Job.claimedBy j) <-> Job.status j <> queued)).
Proof.
  intros params history. split; [reflexivity|].
  intros H.
  destruct (H history "j1"
              (Job.mk "j1" cancelled ios "dev" [] "me" None 100 200
                 None None None None)) as [_ Hback].
  - left. reflexivity.
  - destruct Hback as [x Hx]; [discriminate|]. discriminate Hx.
Qed.

(** C5, amended. On every store reachable by [createJob], [claimNextJob]
    and [updateJobStatus] (and [deleteJob]), a job whose [claimedBy] is set
    has status other
    than 'queued'.  [claimNextJob] sets [claimedBy] on the job it moves out
    of 'queued'; [updateJobStatus] leaves [claimedBy] as it finds it. *)
Theorem claimedBy_set_only_past_queued
    (history : list (Z * Queue.Op)) (k : string) (j : Job) :
  In (k, j) (Queue.run history []) ->
  (is_Some (Job.claimedBy j) -> Job.status j <> queued) /\
  (forall platform runnerId host now jobs claimedJob jobs',
     Queue.claimNextJob platform runnerId host now jobs = (Some claimedJob, jobs') ->
     Job.status claimedJob = claimed /\ Job.claimedBy claimedJob = Some runnerId) /\
  (forall id newStatus extra now jobs job job' jobs',
     Queue.getJob id jobs = Some job ->
     Queue.updateJobStatus id newStatus extra now jobs = (Ok job', jobs') ->
     Job.claimedBy job' = Job.claimedBy job).
Proof.
  intros Hin. split_and!.
  - intros [r Hr] Hq.
    pose proof (run_queued_unclaimed history [] (fun e H => match H with end)
                  (k, j) Hin Hq) as Hnone.
    simpl in *. congruence.
  - intros platform runnerId host now jobs claimedJob jobs' Heq.
    destruct (claimNextJob_cases platform runnerId host now jobs)
      as [(b & k0 & j0 & a & _ & _ & _ & _ & Heq')|[_ Heq']];
      rewrite Heq' in Heq; [|discriminate].
    simpl in Heq. by injection Heq as <- _.
  - intros id newStatus extra now jobs job job' jobs' Hget Heq.
    destruct (updateJobStatus_cases id newStatus extra now jobs)
      as [[_ Heq']|[(job0 & _ & _ & Heq')|(job0 & job1 & Hget0 & _ & Heq' & _ & _ & _ & Hcb & _)]];
      rewrite Heq' in Heq; try discriminate.
    injection Heq as <- _. congruence.
Qed.

Lemma claimedBy_set_only_past_queued_witness :
  let params := {| Queue.platform := ios; Queue.profile := "dev";
                   Queue.flags := None; Queue.submittedBy := "me";
                   Queue.tarballFilename := None |} in
  let history := [(100, Queue.OpCreate "j1" params);
                  (200, Queue.OpClaim ios "r1" "host")] in
  let j := Job.mk "j1" claimed ios "dev" [] "me" (Some "r1") 100 200
             None None None None in
  In ("j1", j) (Queue.run history []) /\
  (is_Some (Job.claimedBy j) -> Job.status j <> queued).
Proof.
  intros params history j.
  assert (In ("j1", j) (Queue.run history [])) as Hin by (left; reflexivity).
  split; [exact Hin|].
  exact (proj1 (claimedBy_set_only_past_queued history "j1" j Hin)).
Defined.

(** C8. Whatever sequence of [createJob], [claimNextJob] and
    [updateJobStatus] (and [deleteJob], which reads no clock) has been
    executed so far, provided the clock readings
    of the whole run never decrease, every job in the store has
    [updatedAt >= createdAt]. *)
Theorem updatedAt_ge_createdAt
    (t0 : Z) (history rest : list (Z * Queue.Op)) (k : string) (j : Job) :
  Queue.clock_monotone t0 (history ++ rest) ->
  In (k, j) (Queue.run history []) ->
  Job.createdAt j <= Job.updatedAt j.
Proof.
  intros Hmono Hin.
  apply clock_monotone_prefix in Hmono.
  apply (run_timestamps_ordered history t0 [] Hmono
           (fun e H => match H with end) (k, j) Hin).
Qed.

Lemma updatedAt_ge_createdAt_witness :
  let params := {| Queue.platform := android; Queue.profile := "dev";
                   Queue.flags := None; Queue.submittedBy := "me";
                   Queue.tarballFilename := None |} in
  let history := [(100, Queue.OpCreate "j1" params);
                  (150, Queue.OpClaim android "r1" "host")] in
  let rest := [(150, Queue.OpUpdate "j1" building None)] in
  let j := Job.mk "j1" claimed android "dev" [] "me" (Some "r1") 100 150
             None None None None in
  Queue.clock_monotone 0 (history ++ rest) /\
  In ("j1", j) (Queue.run history []) /\
  Job.createdAt j <= Job.updatedAt j.
Proof.
  intros params history rest j.
  assert (Queue.clock_monotone 0 (history ++ rest)) as Hmono by (simpl; lia).
  assert (In ("j1", j) (Queue.run history [])) as Hin by (left; reflexivity).
  split_and!; [exact Hmono|exact Hin|].
  exact (updatedAt_ge_createdAt 0 history rest "j1" j Hmono Hin).
Defined.

(** Without the assumption on the clock the order can break: a claim that
    reads an earlier clock than the creation did. *)
Example updatedAt_before_createdAt_when_clock_goes_back :
  let params := {| Queue.platform := ios; Queue.profile := "dev";
                   Queue.flags := None; Queue.submittedBy := "me";
                   Queue.tarballFilename := None |} in
  Queue.run [(100, Queue.OpCreate "j1" params);
             (50, Queue.OpClaim ios "r1" "host")] []
  = [("j1", Job.mk "j1" claimed ios "dev" [] "me" (Some "r1") 100 50
              None None None None)].
Proof. reflexivity. Qed.

(** ** The storage layer *)

Example sanitize_examples :
  Storage.sanitize "../../etc/passwd" = "etcpasswd" /\
  Storage.sanitize ".." = "file" /\
  Storage.sanitize "/" = "file" /\
  Storage.sanitize (String "000" (String "000" EmptyString)) = "file" /\
  Storage.sanitize "app-release.apk" = "app-release.apk" /\
  Storage.sanitize "..." = "." /\
  Storage.sanitize ".\./" = "file".
Proof. vm_compute. repeat split. Qed.

Example message_examples :
  Storage.message (Storage.SizeLimit Storage.MAX_TARBALL_BYTES (Some 524288001))
  = "Payload exceeds size limit of 524288000 bytes (got 524288001)" /\
  Storage.message (Storage.SizeLimit Storage.MAX_ARTIFACT_BYTES None)
  = "Payload exceeds size limit of 2147483648 bytes" /\
  Queue.message (Queue.InvalidTransition success building "j1")
  = "Invalid transition: success -> building for job j1" /\
  Queue.message (Queue.JobNotFound "j1") = "Job not found: j1".
Proof. vm_compute. repeat split. Qed.

(** The examples of the Node documentation for [path.resolve], [path.join],
    [path.normalize] and [path.basename] (POSIX). *)
Example node_path_examples :
  Path.resolve "/home/myself/node" ["/foo/bar"; "./baz"] = "/foo/bar/baz" /\
  Path.resolve "/home/myself/node" ["/foo/bar"; "/tmp/file/"] = "/tmp/file" /\
  Path.resolve "/home/myself/node"
    ["wwwroot"; "static_files/png/"; "../gif/image.gif"]
  = "/home/myself/node/wwwroot/static_files/gif/image.gif" /\
  Path.resolve "/home/myself/node" [] = "/home/myself/node" /\
  Path.join ["/foo"; "bar"; "baz/asdf"; "quux"; ".."] = "/foo/bar/baz/asdf" /\
  Path.normalize "/foo/bar//baz/asdf/quux/.." = "/foo/bar/baz/asdf" /\
  Path.normalize "a/../.." = ".." /\
  Path.normalize "/.." = "/" /\
  Path.normalize "./" = "./" /\
  Path.normalize EmptyString = "." /\
  Path.basename "/foo/bar/baz/asdf/quux.html" = "quux.html".
Proof. vm_compute. repeat split. Qed.

Example resolve_examples :
  Path.resolve "/srv" ["/data/artifacts"; "j1-app.apk"] = "/data/artifacts/j1-app.apk" /\
  Path.resolve "/srv" ["/data/artifacts"; "../../etc/passwd"] = "/etc/passwd" /\
  Path.resolve "/srv" ["data"] = "/srv/data" /\
  Path.resolve "/srv" ["/data/"] = "/data" /\
  Path.join ["/data"; "artifacts"] = "/data/artifacts" /\
  Path.join ["/"; "tarballs"] = "/tarballs" /\
  Path.basename "/a/b//" = "b".
Proof. vm_compute. repeat split. Qed.

(** *** Strings *)

Lemma string_app_cons (c : ascii) (a b : string) :
  String c a +:+ b = String c (a +:+ b).
Proof. reflexivity. Qed.

Lemma string_app_nil_l (a : string) : EmptyString +:+ a = a.
Proof. reflexivity. Qed.

Lemma string_app_assoc (a b c : string) : (a +:+ b) +:+ c = a +:+ (b +:+ c).
Proof.
  induction a as [|x a IH]; [reflexivity|].
  by rewrite !string_app_cons, IH.
Qed.

Lemma string_prefix_app (p s : string) : String.prefix p (p +:+ s) = true.
Proof.
  induction p as [|x p IH]; [by destruct s|].
  rewrite string_app_cons. simpl.
  destruct (ascii_dec x x); [exact IH|congruence].
Qed.

(** Induction on strings two characters at a time. *)
Lemma string_pair_ind (P : string -> Prop) :
  P EmptyString ->
  (forall c, P (String c EmptyString)) ->
  (forall c c' rest, P rest -> P (String c' rest) -> P (String c (String c' rest))) ->
  forall s, P s.
Proof.
  intros H0 H1 H2 s.
  assert (P s /\ forall c, P (String c s)) as [H _]; [|exact H].
  induction s as [|c' s [IHs IHc]]; [split; [exact H0|exact H1]|].
  split; [apply IHc|]. intros c. apply H2; [exact IHs|apply IHc].
Qed.

Lemma contains_char_app (cls : ascii -> bool) (a b : string) :
  Storage.contains_char cls (a +:+ b)
  = Storage.contains_char cls a || Storage.contains_char cls b.
Proof.
  induction a as [|x a IH]; [reflexivity|].
  rewrite string_app_cons. simpl. by rewrite IH, orb_assoc.
Qed.

(** *** The sanitizer *)

Lemma remove_chars_clean (cls : ascii -> bool) (s : string) :
  Storage.contains_char cls (Storage.remove_chars cls s) = false.
Proof.
  induction s as [|c s IH]; simpl; [reflexivity|].
  destruct (cls c) eqn:E; simpl; [exact IH|]. by rewrite E, IH.
Qed.

Lemma remove_chars_keeps_clean (cls cls' : ascii -> bool) (s : string) :
  Storage.contains_char cls s = false ->
  Storage.contains_char cls (Storage.remove_chars cls' s) = false.
Proof.
  induction s as [|c s IH]; simpl; [done|].
  intros [Hc Hs]%orb_false_iff.
  destruct (cls' c); simpl; [by apply IH|]. by rewrite Hc, IH.
Qed.

Lemma remove_dotdot_cons2 (c c' : ascii) (rest : string) :
  Storage.remove_dotdot (String c (String c' rest))
  = if Ascii.eqb c "." && Ascii.eqb c' "." then Storage.remove_dotdot rest
    else String c (Storage.remove_dotdot (String c' rest)).
Proof. reflexivity. Qed.

Lemma contains_dotdot_cons2 (c c' : ascii) (rest : string) :
  Storage.contains_dotdot (String c (String c' rest))
  = (Ascii.eqb c "." && Ascii.eqb c' ".")
    || Storage.contains_dotdot (String c' rest).
Proof. reflexivity. Qed.

Lemma contains_char_cons (cls : ascii -> bool) (c : ascii) (rest : string) :
  Storage.contains_char cls (String c rest)
  = cls c || Storage.contains_char cls rest.
Proof. reflexivity. Qed.

Lemma remove_dotdot_keeps_clean (cls : ascii -> bool) (s : string) :
  Storage.contains_char cls s = false ->
  Storage.contains_char cls (Storage.remove_dotdot s) = false.
Proof.
  induction s as [|c|c c' rest IH1 IH2] using string_pair_ind; [done..|].
  rewrite contains_char_cons, remove_dotdot_cons2.
  intros [Hc H']%orb_false_iff.
  destruct (Ascii.eqb c "." && Ascii.eqb c' ".").
  - apply IH1. rewrite contains_char_cons in H'.
    by apply orb_false_iff in H' as [_ ?].
  - rewrite contains_char_cons, Hc. by apply IH2.
Qed.

(** A string that does not start with a dot keeps its first character. *)
Lemma remove_dotdot_head (c : ascii) (rest : string) :
  Ascii.eqb c "." = false ->
  exists rest', Storage.remove_dotdot (String c rest) = String c rest'.
Proof.
  intros Hc. destruct rest as [|c' rest]; [by eexists|].
  rewrite remove_dotdot_cons2, Hc. by eexists.
Qed.

Lemma remove_dotdot_clean (s : string) :
  Storage.contains_dotdot (Storage.remove_dotdot s) = false.
Proof.
  induction s as [|c|c c' rest IH1 IH2] using string_pair_ind; [done..|].
  rewrite remove_dotdot_cons2.
  destruct (Ascii.eqb c ".") eqn:Ec.
  - destruct (Ascii.eqb c' ".") eqn:Ec'; [exact IH1|].
    destruct (remove_dotdot_head c' rest Ec') as [rest' Hr].
    rewrite Hr in IH2 |- *.
    change (true && false) with false. cbv iota.
    by rewrite contains_dotdot_cons2, Ec', andb_false_r, IH2.
  - change (false && Ascii.eqb c' ".") with false. cbv iota.
    destruct (Storage.remove_dotdot (String c' rest)) as [|d r] eqn:Hr; [done|].
    by rewrite contains_dotdot_cons2, Ec, IH2.
Qed.

Lemma split_no_sep (s : string) :
  Storage.contains_char Storage.is_sep s = false -> Path.split s = [s].
Proof.
  induction s as [|c s IH]; simpl; [done|].
  unfold Storage.is_sep at 1. intros [Hc Hs]%orb_false_iff.
  rewrite Hc, (IH Hs). reflexivity.
Qed.

Lemma basename_no_sep (s : string) :
  Storage.contains_char Storage.is_sep s = false -> Path.basename s = s.
Proof.
  intros H. unfold Path.basename. rewrite (split_no_sep s H). simpl.
  by destruct s.
Qed.

Lemma is_slash_is_sep (s : string) :
  Storage.contains_char Storage.is_slash s = false ->
  Storage.contains_char Storage.is_sep s = false.
Proof.
  induction s as [|c s IH]; simpl; [done|].
  unfold Storage.is_slash at 1, Storage.is_sep at 1.
  intros [[Hc _]%orb_false_iff Hs]%orb_false_iff. by rewrite Hc, IH.
Qed.


(** After the three replacements there is no separator left, so taking the
    basename changes nothing. *)
Lemma stripped_eq (input : string) :
  stripped input
  = Storage.remove_dotdot
      (Storage.remove_chars Storage.is_slash
         (Storage.remove_chars Storage.is_nul input)).
Proof.
  unfold stripped. apply basename_no_sep, is_slash_is_sep.
  apply remove_dotdot_keeps_clean, remove_chars_clean.
Qed.

Lemma stripped_clean (input : string) :
  Storage.contains_char Storage.is_nul (stripped input) = false /\
  Storage.contains_char Storage.is_slash (stripped input) = false /\
  Storage.contains_dotdot (stripped input) = false.
Proof.
  rewrite stripped_eq. split_and!.
  - apply remove_dotdot_keeps_clean, remove_chars_keeps_clean, remove_chars_clean.
  - apply remove_dotdot_keeps_clean, remove_chars_clean.
  - apply remove_dotdot_clean.
Qed.

Lemma sanitize_stripped (input : string) :
  Storage.sanitize input
  = if String.eqb (stripped input) EmptyString then "file" else stripped input.
Proof. reflexivity. Qed.

Lemma sanitize_clean (input : string) :
  Storage.sanitize input <> EmptyString /\
  Storage.contains_char Storage.is_nul (Storage.sanitize input) = false /\
  Storage.contains_char Storage.is_slash (Storage.sanitize input) = false /\
  Storage.contains_dotdot (Storage.sanitize input) = false /\
  Path.basename (Storage.sanitize input) = Storage.sanitize input.
Proof.
  rewrite sanitize_stripped.
  destruct (stripped_clean input) as (Hn & Hs & Hd).
  destruct (String.eqb (stripped input) EmptyString) eqn:E.
  - by vm_compute.
  - apply String.eqb_neq in E. split_and!; try done.
    by apply basename_no_sep, is_slash_is_sep.
Qed.

(** *** Paths *)

Lemma sep_app (s : string) : "/" +:+ s = String "/" s.
Proof. reflexivity. Qed.

Lemma split_cons (c : ascii) (rest : string) :
  Path.split (String c rest)
  = if Ascii.eqb c "/" then EmptyString :: Path.split rest
    else match Path.split rest with
         | seg :: segs => String c seg :: segs
         | [] => [String c EmptyString]
         end.
Proof. reflexivity. Qed.

Lemma split_nonempty (s : string) : Path.split s <> [].
Proof.
  destruct s as [|c s]; [done|]. rewrite split_cons.
  destruct (Ascii.eqb c "/"); [done|]. by destruct (Path.split s).
Qed.

Lemma split_app_sep (a b : string) :
  Path.split (a +:+ String "/" b) = Path.split a ++ Path.split b.
Proof.
  induction a as [|c a IH]; [reflexivity|].
  rewrite string_app_cons, !split_cons, IH.
  destruct (Ascii.eqb c "/"); [reflexivity|].
  pose proof (split_nonempty a). by destruct (Path.split a).
Qed.

Lemma split_segments_no_sep (s : string) :
  Forall (fun seg => Storage.contains_char Storage.is_sep seg = false)
    (Path.split s).
Proof.
  induction s as [|c s IH]; [by repeat constructor|].
  rewrite split_cons. destruct (Ascii.eqb c "/") eqn:Ec.
  - by constructor.
  - destruct (Path.split s) as [|seg segs]; [by repeat constructor; simpl; rewrite ?orb_false_r|].
    inversion IH as [|? ? Hseg Hsegs]; subst. constructor; [|done].
    rewrite contains_char_cons. unfold Storage.is_sep at 1. by rewrite Ec.
Qed.

Lemma plain_no_sep (seg : string) :
  Storage.plain seg = true -> Storage.contains_char Storage.is_sep seg = false.
Proof.
  unfold Storage.plain. rewrite !andb_true_iff, !negb_true_iff. tauto.
Qed.

Lemma plain_intro (seg : string) :
  seg <> EmptyString -> seg <> "." -> seg <> ".." ->
  Storage.contains_char Storage.is_sep seg = false ->
  Storage.plain seg = true.
Proof.
  intros H0 H1 H2 H3. unfold Storage.plain.
  apply String.eqb_neq in H0, H1, H2. by rewrite H0, H1, H2, H3.
Qed.

Lemma plain_elim (seg : string) :
  Storage.plain seg = true ->
  String.eqb seg EmptyString = false /\ String.eqb seg "." = false /\
  String.eqb seg ".." = false.
Proof.
  unfold Storage.plain. rewrite !andb_true_iff, !negb_true_iff. tauto.
Qed.

Lemma split_concat (segs : list string) :
  segs <> [] ->
  Forall (fun seg => Storage.plain seg = true) segs ->
  Path.split (String.concat "/" segs) = segs.
Proof.
  induction segs as [|x [|y rest] IH]; [done| |]; intros _ Hall.
  - simpl. apply split_no_sep, plain_no_sep. by inversion Hall.
  - change (String.concat "/" (x :: y :: rest))
      with (x +:+ "/" +:+ String.concat "/" (y :: rest)).
    rewrite sep_app, split_app_sep.
    inversion Hall as [|? ? Hx Hrest]; subst.
    rewrite (split_no_sep x (plain_no_sep x Hx)), IH; done.
Qed.

Lemma concat_snoc (segs : list string) (seg : string) :
  segs <> [] ->
  String.concat "/" (segs ++ [seg]) = String.concat "/" segs +:+ "/" +:+ seg.
Proof.
  induction segs as [|x [|y rest] IH]; [done|reflexivity|]. intros _.
  change (String.concat "/" ((x :: y :: rest) ++ [seg]))
    with (x +:+ "/" +:+ String.concat "/" ((y :: rest) ++ [seg])).
  rewrite IH; [|done].
  change (String.concat "/" (x :: y :: rest))
    with (x +:+ "/" +:+ String.concat "/" (y :: rest)).
  by rewrite !string_app_assoc.
Qed.

Lemma concat_plain_nonempty (segs : list string) :
  segs <> [] ->
  Forall (fun seg => Storage.plain seg = true) segs ->
  String.eqb (String.concat "/" segs) EmptyString = false.
Proof.
  destruct segs as [|x rest]; [done|]. intros _ Hall.
  inversion Hall as [|? ? Hx _]; subst.
  apply plain_elim in Hx as [Hx _].
  destruct x as [|c x]; [done|]. by destruct rest.
Qed.

Lemma push_segment_plain (above : bool) (res : list string) (seg : string) :
  Storage.plain seg = true -> Path.push_segment above res seg = res ++ [seg].
Proof.
  intros (H0 & H1 & H2)%plain_elim. unfold Path.push_segment.
  by rewrite H0, H1, H2.
Qed.

Lemma fold_push_plain (above : bool) (segs : list string) : forall res,
  Forall (fun seg => Storage.plain seg = true) segs ->
  fold_left (Path.push_segment above) segs res = res ++ segs.
Proof.
  induction segs as [|x segs IH]; intros res Hall; simpl.
  - by rewrite app_nil_r.
  - inversion Hall as [|? ? Hx Hsegs]; subst.
    rewrite push_segment_plain, IH, <- app_assoc; done.
Qed.

Lemma Forall_removelast {A} (P : A -> Prop) (l : list A) :
  Forall P l -> Forall P (removelast l).
Proof.
  induction l as [|x [|y l] IH]; simpl; intros H; [done..|].
  inversion H; subst. constructor; [done|]. by apply IH.
Qed.

(** Below the root [normalizeString] keeps plain segments only. *)
Lemma push_segment_keeps_plain (res : list string) (seg : string) :
  Storage.contains_char Storage.is_sep seg = false ->
  Forall (fun s => Storage.plain s = true) res ->
  Forall (fun s => Storage.plain s = true) (Path.push_segment false res seg).
Proof.
  intros Hsep Hres. unfold Path.push_segment.
  destruct (String.eqb seg EmptyString) eqn:E0; [done|].
  destruct (String.eqb seg ".") eqn:E1; [done|]. simpl.
  destruct (String.eqb seg "..") eqn:E2.
  - destruct (last res) as [l|]; [|done].
    destruct (String.eqb l ".."); [done|]. by apply Forall_removelast.
  - apply Forall_app. split; [done|]. constructor; [|done].
    unfold Storage.plain. by rewrite E0, E1, E2, Hsep.
Qed.

Lemma fold_push_keeps_plain (segs : list string) : forall res,
  Forall (fun s => Storage.contains_char Storage.is_sep s = false) segs ->
  Forall (fun s => Storage.plain s = true) res ->
  Forall (fun s => Storage.plain s = true)
    (fold_left (Path.push_segment false) segs res).
Proof.
  induction segs as [|x segs IH]; intros res Hsegs Hres; simpl; [done|].
  inversion Hsegs; subst. apply IH; [done|]. by apply push_segment_keeps_plain.
Qed.

Lemma normalizeString_plain (path : string) :
  exists segs, Forall (fun s => Storage.plain s = true) segs /\
               Path.normalizeString path false = String.concat "/" segs.
Proof.
  eexists. split; [|reflexivity].
  apply fold_push_keeps_plain; [apply split_segments_no_sep|constructor].
Qed.

(** The segments of an absolute, normalised directory followed by further
    plain segments normalise to themselves. *)
Lemma normalizeString_normal (segs more : list string) :
  Forall (fun s => Storage.plain s = true) segs ->
  Forall (fun s => Storage.plain s = true) more ->
  fold_left (Path.push_segment false)
    (Path.split ("/" +:+ String.concat "/" segs)) more
  = more ++ segs.
Proof.
  intros Hsegs Hmore. rewrite sep_app.
  change (String "/" (String.concat "/" segs))
    with (EmptyString +:+ String "/" (String.concat "/" segs)).
  rewrite split_app_sep. simpl Path.split at 1.
  rewrite fold_left_app. simpl fold_left at 2.
  change (Path.push_segment false more EmptyString) with more.
  destruct segs as [|x rest].
  - simpl. by rewrite app_nil_r.
  - rewrite split_concat, fold_push_plain; done.
Qed.

Lemma push_segment_empty (above : bool) (res : list string) :
  Path.push_segment above res EmptyString = res.
Proof. reflexivity. Qed.

Lemma resolve_loop_normal (cwd parent child : string) :
  Path.isAbsolute parent = true ->
  Storage.plain child = true ->
  Path.resolve_loop (rev [parent; child] ++ [cwd]) EmptyString
  = (parent +:+ String "/" (child +:+ String "/" EmptyString), true).
Proof.
  intros Hp Hc. simpl rev. simpl app.
  pose proof (plain_no_sep child Hc) as Hsep.
  apply plain_elim in Hc as (H0 & _).
  unfold Path.resolve_loop. rewrite H0.
  assert (Path.isAbsolute (child) = false) as Hna.
  { destruct child as [|c r]; [done|]. simpl.
    rewrite contains_char_cons in Hsep. by apply orb_false_iff in Hsep as [? _]. }
  rewrite Hna.
  assert (String.eqb parent EmptyString = false) as Hpe by (by destruct parent).
  rewrite Hpe, Hp. reflexivity.
Qed.

Lemma resolve_normal (cwd : string) (segs : list string) (child : string) :
  Forall (fun s => Storage.plain s = true) segs ->
  Storage.plain child = true ->
  Path.resolve cwd ["/" +:+ String.concat "/" segs; child]
  = "/" +:+ String.concat "/" (segs ++ [child]).
Proof.
  intros Hsegs Hc. unfold Path.resolve.
  rewrite resolve_loop_normal; [|reflexivity|done].
  change (negb true) with false. cbv beta iota.
  f_equal. unfold Path.normalizeString. f_equal.
  rewrite split_app_sep, fold_left_app, (normalizeString_normal segs []); [|done|constructor].
  rewrite split_app_sep, fold_left_app.
  rewrite (split_no_sep child (plain_no_sep child Hc)).
  simpl. by rewrite push_segment_empty, push_segment_plain.
Qed.

Lemma safePath_normal (cwd parent child : string) :
  Storage.normal_dir parent ->
  Storage.plain child = true ->
  Storage.safePath cwd parent child = Ok (parent +:+ "/" +:+ child).
Proof.
  intros (segs & Hne & Hsegs & ->) Hc. unfold Storage.safePath.
  rewrite resolve_normal, concat_snoc; [|done..].
  rewrite <- !string_app_assoc, string_prefix_app. reflexivity.
Qed.

Lemma resolve_loop_absolute (cwd dir : string) :
  Path.isAbsolute cwd = true ->
  exists path, Path.resolve_loop (rev [dir] ++ [cwd]) EmptyString = (path, true).
Proof.
  intros Hcwd. simpl.
  assert (String.eqb cwd EmptyString = false) as Hne by (by destruct cwd).
  destruct (String.eqb dir EmptyString).
  - rewrite Hne, Hcwd. by eexists.
  - destruct (Path.isAbsolute dir); [by eexists|].
    rewrite Hne, Hcwd. by eexists.
Qed.

Lemma resolve_absolute (cwd dir : string) :
  Path.isAbsolute cwd = true ->
  exists segs, Forall (fun s => Storage.plain s = true) segs /\
               Path.resolve cwd [dir] = "/" +:+ String.concat "/" segs.
Proof.
  intros Hcwd. unfold Path.resolve.
  destruct (resolve_loop_absolute cwd dir Hcwd) as [path ->].
  change (negb true) with false. cbv beta iota.
  destruct (normalizeString_plain path) as (segs & Hsegs & ->).
  by exists segs.
Qed.

Lemma endsWithSlash_app (a : string) (c : ascii) (b : string) :
  Path.endsWithSlash (a +:+ String c b) = Path.endsWithSlash (String c b).
Proof.
  induction a as [|x a IH]; [reflexivity|].
  rewrite string_app_cons.
  change (Path.endsWithSlash (String x (a +:+ String c b)))
    with (match a +:+ String c b with
          | EmptyString => Ascii.eqb x "/"
          | _ => Path.endsWithSlash (a +:+ String c b)
          end).
  destruct a; rewrite ?string_app_cons, ?string_app_nil_l in *; exact IH.
Qed.

Lemma join_normal (segs : list string) (name : string) :
  Forall (fun s => Storage.plain s = true) segs ->
  Storage.plain name = true ->
  Path.endsWithSlash name = false ->
  Path.join ["/" +:+ String.concat "/" segs; name]
  = "/" +:+ String.concat "/" (segs ++ [name]).
Proof.
  intros Hsegs Hname Hend. unfold Path.join.
  pose proof (plain_elim name Hname) as (Hne & _).
  simpl List.filter. rewrite sep_app at 1. rewrite Hne. simpl negb. cbv iota.
  change (String.concat "/" [String "/" (String.concat "/" segs); name])
    with (String "/" (String.concat "/" segs) +:+ "/" +:+ name).
  unfold Path.normalize. rewrite string_app_cons.
  change (String.eqb (String "/" (String.concat "/" segs +:+ "/" +:+ name)) EmptyString)
    with false.
  change (Path.isAbsolute (String "/" (String.concat "/" segs +:+ "/" +:+ name)))
    with true.
  cbv iota beta zeta. change (negb true) with false.
  assert (Path.normalizeString (String "/" (String.concat "/" segs +:+ "/" +:+ name)) false
          = String.concat "/" (segs ++ [name])) as ->.
  { unfold Path.normalizeString. f_equal.
    rewrite <- sep_app, <- string_app_assoc, (sep_app name).
    rewrite split_app_sep, fold_left_app, (normalizeString_normal segs []); [|done|constructor].
    rewrite (split_no_sep name (plain_no_sep name Hname)). simpl.
    by rewrite push_segment_plain. }
  assert (String.eqb (String.concat "/" (segs ++ [name])) EmptyString = false) as ->.
  { apply concat_plain_nonempty; [by destruct segs|].
    apply Forall_app. split; [done|]. by constructor. }
  assert (Path.endsWithSlash (String "/" (String.concat "/" segs +:+ "/" +:+ name)) = false) as ->.
  { destruct name as [|c name]; [done|].
    rewrite <- sep_app, <- string_app_assoc, <- string_app_assoc.
    by rewrite endsWithSlash_app. }
  reflexivity.
Qed.

Lemma init_normal (env : Storage.Env) (st : Storage.State) :
  Path.isAbsolute (Storage.cwd env) = true ->
  Storage.normal_dir (Storage.tarballsDir (Storage.init env st)) /\
  Storage.normal_dir (Storage.artifactsDir (Storage.init env st)) /\
  Storage.initialised (Storage.init env st) = true.
Proof.
  intros Hcwd. unfold Storage.init. simpl.
  destruct (resolve_absolute (Storage.cwd env) (Storage.getStorageDir env) Hcwd)
    as (segs & Hsegs & ->).
  split_and!; [| |reflexivity].
  - exists (segs ++ ["tarballs"]). split_and!.
    + by destruct segs.
    + apply Forall_app. split; [done|]. by constructor.
    + by apply join_normal.
  - exists (segs ++ ["artifacts"]). split_and!.
    + by destruct segs.
    + apply Forall_app. split; [done|]. by constructor.
    + by apply join_normal.
Qed.


(** *** File names built from sanitized parts *)


Lemma sanitize_no_sep (input : string) :
  Storage.contains_char Storage.is_sep (Storage.sanitize input) = false.
Proof. apply is_slash_is_sep, sanitize_clean. Qed.

Lemma artifact_filename_plain (jobId originalFilename : string) :
  Storage.plain (Storage.sanitize jobId +:+ "-"
                 +:+ Storage.sanitize originalFilename) = true.
Proof.
  pose proof (sanitize_clean jobId) as [Hne _].
  assert (Storage.contains_char is_dash
            (Storage.sanitize jobId +:+ "-" +:+ Storage.sanitize originalFilename)
          = true) as Hdash.
  { rewrite !contains_char_app. simpl. by rewrite orb_true_r. }
  apply plain_intro.
  - destruct (Storage.sanitize jobId); [done|]. by rewrite string_app_cons.
  - intros E. by rewrite E in Hdash.
  - intros E. by rewrite E in Hdash.
  - rewrite !contains_char_app, !sanitize_no_sep. reflexivity.
Qed.

Lemma tarball_filename_plain (jobId : string) :
  Storage.plain (Storage.sanitize jobId +:+ ".tar.gz") = true.
Proof.
  pose proof (sanitize_clean jobId) as [Hne _].
  assert (Storage.contains_char is_t (Storage.sanitize jobId +:+ ".tar.gz")
          = true) as Ht.
  { rewrite !contains_char_app. simpl. by rewrite orb_true_r. }
  apply plain_intro.
  - destruct (Storage.sanitize jobId); [done|]. by rewrite string_app_cons.
  - intros E. by rewrite E in Ht.
  - intros E. by rewrite E in Ht.
  - rewrite !contains_char_app, !sanitize_no_sep. reflexivity.
Qed.

(** *** Writing under a limit *)

Lemma total_bytes_nonneg (chunks : list (list Byte.byte)) :
  0 <= Storage.total_bytes chunks.
Proof. induction chunks as [|c chunks IH]; simpl; lia. Qed.

Lemma pipeline_other (dest : string) (chunks : list (list Byte.byte)) :
  forall (written maxBytes : Z) (fs : FS) (p : string), p <> dest ->
    (Storage.pipeline dest chunks written maxBytes fs).2 !! p = fs !! p.
Proof.
  induction chunks as [|c chunks IH]; intros written maxBytes fs p Hp; simpl; [done|].
  destruct (maxBytes <? written + Z.of_nat (length c)); [done|].
  rewrite IH; [|done]. unfold Storage.append_file.
  by rewrite lookup_insert_ne.
Qed.

(** Over the limit: the pipeline fails, whatever it wrote went to [dest]. *)
Lemma pipeline_over (dest : string) (chunks : list (list Byte.byte)) :
  forall (written maxBytes : Z) (fs : FS),
    written <= maxBytes ->
    maxBytes < written + Storage.total_bytes chunks ->
    (Storage.pipeline dest chunks written maxBytes fs).1
    = Throw (Storage.SizeLimit maxBytes None).
Proof.
  induction chunks as [|c chunks IH]; intros written maxBytes fs Hle Hover; simpl in *.
  - lia.
  - destruct (maxBytes <? written + Z.of_nat (length c)) eqn:E; [done|].
    apply Z.ltb_ge in E. apply IH; lia.
Qed.

(** Within the limit: every chunk is appended to the file. *)
Lemma pipeline_within (dest : string) (chunks : list (list Byte.byte)) :
  forall (written maxBytes : Z) (fs : FS) (content : list Byte.byte),
    written + Storage.total_bytes chunks <= maxBytes ->
    fs !! dest = Some content ->
    Storage.pipeline dest chunks written maxBytes fs
    = (Ok tt, <[dest := (content ++ List.concat chunks)]> fs).
Proof.
  induction chunks as [|c chunks IH]; intros written maxBytes fs content Hle Hdest; simpl in *.
  - by rewrite app_nil_r, insert_id.
  - pose proof (total_bytes_nonneg chunks).
    destruct (maxBytes <? written + Z.of_nat (length c)) eqn:E.
    { apply Z.ltb_lt in E. lia. }
    rewrite (IH _ _ _ (content ++ c)).
    + unfold Storage.append_file. rewrite Hdest. simpl.
      by rewrite insert_insert_eq, <- app_assoc.
    + lia.
    + unfold Storage.append_file. rewrite Hdest. simpl.
      by rewrite lookup_insert_eq.
Qed.

Lemma writeWithLimit_over (dest : string) (data : Storage.Payload)
    (maxBytes : Z) (fs : FS) :
  0 <= maxBytes ->
  maxBytes < Storage.payload_bytes data ->
  Storage.writeWithLimit dest data maxBytes fs
  = match data with
    | Storage.Buffer d =>
        (Throw (Storage.SizeLimit maxBytes (Some (Z.of_nat (length d)))), fs)
    | Storage.Stream _ =>
        (Throw (Storage.SizeLimit maxBytes None), delete dest fs)
    end.
Proof.
  intros Hmax Hover. destruct data as [d|chunks]; simpl in *.
  - apply Z.ltb_lt in Hover. by rewrite Hover.
  - pose proof (pipeline_over dest chunks 0 maxBytes (<[dest:=[]]> fs) Hmax) as Hr.
    pose proof (pipeline_other dest chunks 0 maxBytes (<[dest:=[]]> fs)) as Ho.
    destruct (Storage.pipeline dest chunks 0 maxBytes (<[dest:=[]]> fs))
      as [r fs1]; simpl in *.
    rewrite Hr; [|lia]. f_equal.
    apply map_eq. intros p. destruct (decide (p = dest)) as [->|Hp].
    + by rewrite !lookup_delete_eq.
    + rewrite !lookup_delete_ne, Ho, lookup_insert_ne; done.
Qed.

Lemma writeWithLimit_within (dest : string) (data : Storage.Payload)
    (maxBytes : Z) (fs : FS) :
  Storage.payload_bytes data <= maxBytes ->
  Storage.writeWithLimit dest data maxBytes fs
  = (Ok tt, <[dest := Storage.payload_content data]> fs).
Proof.
  intros Hle. destruct data as [d|chunks]; simpl in *.
  - assert ((maxBytes <? Z.of_nat (length d)) = false) as ->; [|done].
    apply Z.ltb_ge. lia.
  - rewrite (pipeline_within dest chunks 0 maxBytes _ []); [|lia|by rewrite lookup_insert_eq].
    simpl. by rewrite insert_insert_eq.
Qed.

Lemma pipeline_error (dest : string) (chunks : list (list Byte.byte)) :
  forall (written maxBytes : Z) (fs : FS) (e : Storage.Error),
    (Storage.pipeline dest chunks written maxBytes fs).1 = Throw e ->
    e = Storage.SizeLimit maxBytes None.
Proof.
  induction chunks as [|c chunks IH]; intros written maxBytes fs e; simpl; [done|].
  destruct (maxBytes <? written + Z.of_nat (length c)); simpl.
  - by intros [= <-].
  - apply IH.
Qed.

(** The only error a write raises is the size-limit error. *)
Lemma writeWithLimit_error (dest : string) (data : Storage.Payload)
    (maxBytes : Z) (fs : FS) (e : Storage.Error) :
  (Storage.writeWithLimit dest data maxBytes fs).1 = Throw e ->
  exists got, e = Storage.SizeLimit maxBytes got.
Proof.
  destruct data as [d|chunks]; simpl.
  - destruct (maxBytes <? Z.of_nat (length d)); simpl; [|done].
    intros [= <-]. by eexists.
  - pose proof (pipeline_error dest chunks 0 maxBytes (<[dest:=[]]> fs)) as He.
    destruct (Storage.pipeline dest chunks 0 maxBytes (<[dest:=[]]> fs))
      as [[?|e'] fs1]; simpl in *; [done|].
    intros [= <-]. exists None. by apply He.
Qed.

(** Whatever the outcome, a write changes no path but its destination. *)
Lemma writeWithLimit_other (dest : string) (data : Storage.Payload)
    (maxBytes : Z) (fs : FS) (p : string) :
  p <> dest ->
  (Storage.writeWithLimit dest data maxBytes fs).2 !! p = fs !! p.
Proof.
  intros Hp. destruct data as [d|chunks]; simpl.
  - destruct (maxBytes <? Z.of_nat (length d)); simpl; [done|].
    by rewrite lookup_insert_ne.
  - pose proof (pipeline_other dest chunks 0 maxBytes (<[dest:=[]]> fs) p Hp) as Ho.
    destruct (Storage.pipeline dest chunks 0 maxBytes (<[dest:=[]]> fs))
      as [[?|?] fs1]; simpl in *.
    + by rewrite Ho, lookup_insert_ne.
    + by rewrite lookup_delete_ne, Ho, lookup_insert_ne.
Qed.

(** *** Saving tarballs and artifacts *)

Lemma safePath_cases (cwd parent child : string) :
  (Storage.safePath cwd parent child = Ok (Path.resolve cwd [parent; child]) /\
   Storage.inside parent (Path.resolve cwd [parent; child]))
  \/
  (Storage.safePath cwd parent child = Throw Storage.PathTraversal /\
   ~ Storage.inside parent (Path.resolve cwd [parent; child])).
Proof.
  unfold Storage.safePath, Storage.inside.
  destruct (String.prefix (parent +:+ "/") (Path.resolve cwd [parent; child])) eqn:Ep;
    simpl; [left; by auto|].
  destruct (String.eqb (Path.resolve cwd [parent; child]) parent) eqn:Ee; simpl.
  - apply String.eqb_eq in Ee. left. by auto.
  - apply String.eqb_neq in Ee. right. split; [done|]. intros [?|?]; congruence.
Qed.

(** Under an initialised, normalised artifact directory [saveArtifact] is a
    write to the directory entry named by the two sanitized parts. *)
Lemma saveArtifact_normal (env : Storage.Env) (st : Storage.State)
    (jobId originalFilename : string) (data : Storage.Payload) (fs : FS) :
  Storage.initialised st = true ->
  Storage.normal_dir (Storage.artifactsDir st) ->
  Storage.saveArtifact env st jobId originalFilename data fs
  = let dest := Storage.artifactsDir st +:+ "/" +:+ Storage.sanitize jobId
                +:+ "-" +:+ Storage.sanitize originalFilename in
    match Storage.writeWithLimit dest data Storage.MAX_ARTIFACT_BYTES fs with
    | (Throw e, fs') => (Throw e, fs')
    | (Ok _, fs') => (Ok dest, fs')
    end.
Proof.
  intros Hinit Hdir. unfold Storage.saveArtifact, Storage.ensureInit.
  rewrite Hinit. simpl.
  by rewrite (safePath_normal _ _ _ Hdir (artifact_filename_plain jobId originalFilename)).
Qed.

Lemma saveTarball_normal (env : Storage.Env) (st : Storage.State)
    (jobId : string) (data : Storage.Payload) (fs : FS) :
  Storage.initialised st = true ->
  Storage.normal_dir (Storage.tarballsDir st) ->
  Storage.saveTarball env st jobId data fs
  = let dest := Storage.tarballsDir st +:+ "/" +:+ Storage.sanitize jobId
                +:+ ".tar.gz" in
    match Storage.writeWithLimit dest data Storage.MAX_TARBALL_BYTES fs with
    | (Throw e, fs') => (Throw e, fs')
    | (Ok _, fs') => (Ok dest, fs')
    end.
Proof.
  intros Hinit Hdir. unfold Storage.saveTarball, Storage.ensureInit.
  rewrite Hinit. simpl.
  by rewrite (safePath_normal _ _ _ Hdir (tarball_filename_plain jobId)).
Qed.

(** Whatever the state of the module, [saveArtifact] changes a path only if
    [safePath] accepted it. *)
Lemma saveArtifact_changes_inside (env : Storage.Env) (st : Storage.State)
    (jobId originalFilename : string) (data : Storage.Payload) (fs : FS)
    (p : string) :
  (Storage.saveArtifact env st jobId originalFilename data fs).2 !! p <> fs !! p ->
  Storage.inside (Storage.artifactsDir st) p.
Proof.
  unfold Storage.saveArtifact.
  destruct (Storage.ensureInit st); [|done].
  set (filename := Storage.sanitize jobId +:+ "-" +:+ Storage.sanitize originalFilename).
  destruct (safePath_cases (Storage.cwd env) (Storage.artifactsDir st) filename)
    as [[-> Hin]|[-> _]]; [|done].
  set (dest := Path.resolve _ _) in *.
  pose proof (writeWithLimit_other dest data Storage.MAX_ARTIFACT_BYTES fs p) as Ho.
  destruct (Storage.writeWithLimit dest data Storage.MAX_ARTIFACT_BYTES fs)
    as [[?|?] fs']; simpl in *; intros Hne;
    (destruct (decide (p = dest)) as [->|Hp]; [exact Hin|by rewrite Ho in Hne]).
Qed.

(** C3. [saveArtifact] stores under a name built from the sanitized job id
    and the sanitized file name: neither part holds a null byte, a '/' or a
    backslash, or two consecutive dots, and each is its own basename.  The
    resolved destination is checked by [safePath]: a path it returns passed
    the inside-the-root test, a path failing the test makes it throw the
    path-traversal error, which is none of the other storage errors.
    [saveArtifact] changes no file at a path that did not pass this test
    against the artifact root, and when it fails with path-traversal it has
    written nothing.  Once the storage is initialised the only path it can
    change is the entry of the artifact directory named by the two
    sanitized parts. *)
Theorem saveArtifact_path_safety
    (env : Storage.Env) (st : Storage.State) (jobId originalFilename : string)
    (data : Storage.Payload) (fs : FS) :
  let safeId := Storage.sanitize jobId in
  let safeName := Storage.sanitize originalFilename in
  let root := Storage.artifactsDir st in
  let resolved := Path.resolve (Storage.cwd env) [root; safeId +:+ "-" +:+ safeName] in
  (Storage.contains_char Storage.is_nul safeName = false /\
   Storage.contains_char Storage.is_slash safeName = false /\
   Storage.contains_dotdot safeName = false /\
   Path.basename safeName = safeName) /\
  (Storage.contains_char Storage.is_nul safeId = false /\
   Storage.contains_char Storage.is_slash safeId = false /\
   Storage.contains_dotdot safeId = false /\
   Path.basename safeId = safeId) /\
  (forall parent child dest,
     Storage.safePath (Storage.cwd env) parent child = Ok dest ->
     dest = Path.resolve (Storage.cwd env) [parent; child] /\
     Storage.inside parent dest) /\
  (forall parent child,
     ~ Storage.inside parent (Path.resolve (Storage.cwd env) [parent; child]) ->
     Storage.safePath (Storage.cwd env) parent child = Throw Storage.PathTraversal) /\
  (Storage.message Storage.PathTraversal <> Storage.message Storage.NotInitialised /\
   forall maxBytes got,
     Storage.message Storage.PathTraversal
     <> Storage.message (Storage.SizeLimit maxBytes got)) /\
  (forall p,
     (Storage.saveArtifact env st jobId originalFilename data fs).2 !! p <> fs !! p ->
     Storage.inside root p) /\
  match (Storage.saveArtifact env st jobId originalFilename data fs).1 with
  | Ok dest => dest = resolved /\ Storage.inside root dest
  | Throw Storage.PathTraversal =>
      (Storage.saveArtifact env st jobId originalFilename data fs).2 = fs /\
      ~ Storage.inside root resolved
  | Throw _ => True
  end /\
  (forall st0,
     Path.isAbsolute (Storage.cwd env) = true -> st = Storage.init env st0 ->
     resolved = root +:+ "/" +:+ safeId +:+ "-" +:+ safeName /\
     forall p,
       (Storage.saveArtifact env st jobId originalFilename data fs).2 !! p <> fs !! p ->
       p = root +:+ "/" +:+ safeId +:+ "-" +:+ safeName).
Proof.
  intros safeId safeName root resolved. split_and!; cycle -1.
  { intros st0 Hcwd ->.
    destruct (init_normal env st0 Hcwd) as (_ & Hdir & Hinit).
    pose proof (safePath_normal (Storage.cwd env) _ _ Hdir
                  (artifact_filename_plain jobId originalFilename)) as Hsafe.
    destruct (safePath_cases (Storage.cwd env) root (safeId +:+ "-" +:+ safeName))
      as [[Hs _]|[Hs _]]; unfold root, safeId, safeName in Hs;
      rewrite Hsafe in Hs; [|discriminate].
    injection Hs as Hres. split; [symmetry; exact Hres|].
    intros p. rewrite saveArtifact_normal; [|done..]. cbv zeta.
    set (dest := _ +:+ _).
    pose proof (writeWithLimit_other dest data Storage.MAX_ARTIFACT_BYTES fs p) as Ho.
    destruct (Storage.writeWithLimit dest data Storage.MAX_ARTIFACT_BYTES fs)
      as [[?|?] fs']; simpl in *; intros Hne;
      (destruct (decide (p = dest)) as [->|Hp]; [done|by rewrite Ho in Hne]). }
  - apply sanitize_clean.
  - apply sanitize_clean.
  - apply sanitize_clean.
  - apply sanitize_clean.
  - apply sanitize_clean.
  - apply sanitize_clean.
  - apply sanitize_clean.
  - apply sanitize_clean.
  - intros parent child dest Heq.
    destruct (safePath_cases (Storage.cwd env) parent child) as [[Hok Hin]|[Hno _]];
      rewrite Heq in *; [|discriminate].
    injection Hok as ->. by split.
  - intros parent child Hout.
    by destruct (safePath_cases (Storage.cwd env) parent child) as [[_ Hin]|[Hno _]].
  - done.
  - intros maxBytes [got|]; done.
  - apply saveArtifact_changes_inside.
  - unfold Storage.saveArtifact.
    destruct (Storage.ensureInit st) as [[]|[]] eqn:Einit; try done.
    + destruct (safePath_cases (Storage.cwd env) root (safeId +:+ "-" +:+ safeName))
        as [[Hs Hin]|[Hs Hout]]; fold root safeId safeName; rewrite Hs; [|done].
      fold resolved.
      destruct (Storage.writeWithLimit resolved data Storage.MAX_ARTIFACT_BYTES fs)
        as [[[]|e] fs'] eqn:Ew; simpl; [done|].
      destruct (writeWithLimit_error resolved data Storage.MAX_ARTIFACT_BYTES fs e)
        as [got ->]; [by rewrite Ew|done].
    + unfold Storage.ensureInit in Einit. destruct (Storage.initialised st); discriminate.
Qed.

Lemma saveArtifact_path_safety_witness :
  let env := {| Storage.cwd := "/srv"; Storage.STORAGE_DIR := None |} in
  let st := Storage.init env Storage.initial in
  let data := Storage.Buffer [Byte.x01] in
  Path.isAbsolute (Storage.cwd env) = true /\
  Storage.sanitize "../../etc/passwd" = "etcpasswd" /\
  Storage.safePath "/srv" "/data/artifacts" "../../etc/passwd"
  = Throw Storage.PathTraversal /\
  Storage.saveArtifact env st "j1" "../../etc/passwd" data ∅
  = (Ok "/data/artifacts/j1-etcpasswd",
     <["/data/artifacts/j1-etcpasswd" := [Byte.x01]]> ∅) /\
  forall p,
    (Storage.saveArtifact env st "j1" "../../etc/passwd" data ∅).2 !! p
    <> (∅ : FS) !! p ->
    p = "/data/artifacts/j1-etcpasswd".
Proof.
  intros env st data.
  assert (Path.isAbsolute (Storage.cwd env) = true) as Hcwd by reflexivity.
  split_and!; [exact Hcwd|reflexivity|reflexivity|reflexivity|].
  destruct (saveArtifact_path_safety env st "j1" "../../etc/passwd" data ∅)
    as (_ & _ & _ & _ & _ & _ & _ & Hinit).
  destruct (Hinit Storage.initial Hcwd eq_refl) as [_ Hp].
  exact Hp.
Defined.

Lemma basename_entry (dir name : string) :
  Storage.plain name = true -> Path.basename (dir +:+ "/" +:+ name) = name.
Proof.
  intros Hname. unfold Path.basename.
  rewrite sep_app, split_app_sep, (split_no_sep name (plain_no_sep name Hname)).
  rewrite List.filter_app. simpl.
  apply plain_elim in Hname as (-> & _). simpl. apply last_last.
Qed.

Lemma inside_entry (dir name : string) :
  Storage.inside dir (dir +:+ "/" +:+ name).
Proof. left. rewrite <- string_app_assoc. apply string_prefix_app. Qed.

Create HintDb storage.
#[local] Hint Resolve sanitize_no_sep artifact_filename_plain
  tarball_filename_plain basename_entry inside_entry safePath_normal : storage.

(** C10. [sanitize] never returns the empty string: an input of which
    nothing is left after stripping, such as '..', '/' or a run of null
    bytes, becomes 'file'.  Hence, once the storage is initialised,
    [saveTarball] and [saveArtifact] accept every job id and file name: for
    a payload within the limit they store it under the directory entry
    built from the sanitized parts, a non-empty basename inside the
    tarball, respectively artifact, directory. *)
Theorem sanitize_never_empty (input : string) :
  Storage.sanitize input <> EmptyString /\
  (stripped input = EmptyString -> Storage.sanitize input = "file") /\
  Storage.sanitize ".." = "file" /\
  Storage.sanitize "/" = "file" /\
  Storage.sanitize (String "000" (String "000" EmptyString)) = "file" /\
  (forall env st0 data fs,
     Path.isAbsolute (Storage.cwd env) = true ->
     let st := Storage.init env st0 in
     let name := Storage.sanitize input +:+ ".tar.gz" in
     let dest := Storage.tarballsDir st +:+ "/" +:+ name in
     Path.basename dest = name /\ name <> EmptyString /\
     Storage.inside (Storage.tarballsDir st) dest /\
     Storage.safePath (Storage.cwd env) (Storage.tarballsDir st) name = Ok dest /\
     (Storage.payload_bytes data <= Storage.MAX_TARBALL_BYTES ->
      Storage.saveTarball env st input data fs
      = (Ok dest, <[dest := Storage.payload_content data]> fs))) /\
  (forall env st0 jobId data fs,
     Path.isAbsolute (Storage.cwd env) = true ->
     let st := Storage.init env st0 in
     let name := Storage.sanitize jobId +:+ "-" +:+ Storage.sanitize input in
     let dest := Storage.artifactsDir st +:+ "/" +:+ name in
     Path.basename dest = name /\ name <> EmptyString /\
     Storage.inside (Storage.artifactsDir st) dest /\
     Storage.safePath (Storage.cwd env) (Storage.artifactsDir st) name = Ok dest /\
     (Storage.payload_bytes data <= Storage.MAX_ARTIFACT_BYTES ->
      Storage.saveArtifact env st jobId input data fs
      = (Ok dest, <[dest := Storage.payload_content data]> fs))).
Proof.
  split_and!; [| |by vm_compute..| |].
  - apply sanitize_clean.
  - intros H. by rewrite sanitize_stripped, H.
  - intros env st0 data fs Hcwd st name dest.
    destruct (init_normal env st0 Hcwd) as (Hdir & _ & Hinit).
    pose proof (tarball_filename_plain input) as Hplain. fold name in Hplain.
    split_and!; unfold dest; auto with storage.
    + intros E. by rewrite E in Hplain.
    + intros Hle. rewrite saveTarball_normal; [|done..]. simpl.
      fold st name dest. by rewrite writeWithLimit_within.
  - intros env st0 jobId data fs Hcwd st name dest.
    destruct (init_normal env st0 Hcwd) as (_ & Hdir & Hinit).
    pose proof (artifact_filename_plain jobId input) as Hplain. fold name in Hplain.
    split_and!; unfold dest; auto with storage.
    + intros E. by rewrite E in Hplain.
    + intros Hle. rewrite saveArtifact_normal; [|done..]. simpl.
      fold st name dest. by rewrite writeWithLimit_within.
Qed.

Lemma sanitize_never_empty_witness :
  let env := {| Storage.cwd := "/srv"; Storage.STORAGE_DIR := None |} in
  let st := Storage.init env Storage.initial in
  let data := Storage.Buffer [Byte.x01] in
  Path.isAbsolute (Storage.cwd env) = true /\
  Storage.payload_bytes data <= Storage.MAX_ARTIFACT_BYTES /\
  Storage.sanitize ".." = "file" /\
  Storage.saveArtifact env st "j1" ".." data ∅
  = (Ok "/data/artifacts/j1-file", <["/data/artifacts/j1-file" := [Byte.x01]]> ∅).
Proof.
  intros env st data.
  assert (Path.isAbsolute (Storage.cwd env) = true) as Hcwd by reflexivity.
  assert (Storage.payload_bytes data <= Storage.MAX_ARTIFACT_BYTES) as Hle
    by (by vm_compute).
  split_and!; [exact Hcwd|exact Hle|reflexivity|].
  destruct (sanitize_never_empty "..") as (_ & _ & _ & _ & _ & _ & Hsave).
  destruct (Hsave env Storage.initial "j1" data ∅ Hcwd) as (_ & _ & _ & _ & Hok).
  exact (Hok Hle).
Defined.

Lemma saveArtifact_over (env : Storage.Env) (st : Storage.State)
    (jobId originalFilename : string) (data : Storage.Payload) (fs : FS) :
  Storage.initialised st = true ->
  Storage.normal_dir (Storage.artifactsDir st) ->
  Storage.MAX_ARTIFACT_BYTES < Storage.payload_bytes data ->
  Storage.saveArtifact env st jobId originalFilename data fs
  = match data with
    | Storage.Buffer d =>
        (Throw (Storage.SizeLimit Storage.MAX_ARTIFACT_BYTES
                  (Some (Z.of_nat (length d)))), fs)
    | Storage.Stream _ =>
        (Throw (Storage.SizeLimit Storage.MAX_ARTIFACT_BYTES None),
         delete (Storage.artifactsDir st +:+ "/" +:+ Storage.sanitize jobId
                 +:+ "-" +:+ Storage.sanitize originalFilename) fs)
    end.
Proof.
  intros Hinit Hdir Hover.
  rewrite saveArtifact_normal; [|done..]. cbv zeta.
  rewrite writeWithLimit_over; [|done|done]. by destruct data.
Qed.

Lemma saveTarball_over (env : Storage.Env) (st : Storage.State)
    (jobId : string) (data : Storage.Payload) (fs : FS) :
  Storage.initialised st = true ->
  Storage.normal_dir (Storage.tarballsDir st) ->
  Storage.MAX_TARBALL_BYTES < Storage.payload_bytes data ->
  Storage.saveTarball env st jobId data fs
  = match data with
    | Storage.Buffer d =>
        (Throw (Storage.SizeLimit Storage.MAX_TARBALL_BYTES
                  (Some (Z.of_nat (length d)))), fs)
    | Storage.Stream _ =>
        (Throw (Storage.SizeLimit Storage.MAX_TARBALL_BYTES None),
         delete (Storage.tarballsDir st +:+ "/" +:+ Storage.sanitize jobId
                 +:+ ".tar.gz") fs)
    end.
Proof.
  intros Hinit Hdir Hover.
  rewrite saveTarball_normal; [|done..]. cbv zeta.
  rewrite writeWithLimit_over; [|done|done]. by destruct data.
Qed.

(** When the limiter fails, the file holds the chunks that came before the
    offending one and nothing of what follows. *)
Lemma pipeline_abort (dest : string) (pre : list (list Byte.byte))
    (c : list Byte.byte) (rest : list (list Byte.byte)) :
  forall (written maxBytes : Z) (fs : FS) (content : list Byte.byte),
    written + Storage.total_bytes pre <= maxBytes ->
    maxBytes < written + Storage.total_bytes (pre ++ [c]) ->
    fs !! dest = Some content ->
    Storage.pipeline dest (pre ++ c :: rest) written maxBytes fs
    = (Throw (Storage.SizeLimit maxBytes None),
       <[dest := (content ++ List.concat pre)]> fs).
Proof.
  induction pre as [|x pre IH]; intros written maxBytes fs content Hle Hover Hdest;
    simpl in *.
  - assert ((maxBytes <? written + Z.of_nat (length c)) = true) as ->
      by (apply Z.ltb_lt; lia).
    by rewrite app_nil_r, insert_id.
  - pose proof (total_bytes_nonneg pre).
    assert ((maxBytes <? written + Z.of_nat (length x)) = false) as ->
      by (apply Z.ltb_ge; lia).
    rewrite (IH _ _ _ (content ++ x)).
    + unfold Storage.append_file. rewrite Hdest. simpl.
      by rewrite insert_insert_eq, <- app_assoc.
    + lia.
    + lia.
    + unfold Storage.append_file. rewrite Hdest. simpl.
      by rewrite lookup_insert_eq.
Qed.

(** C4 as stated fails on the Buffer path: a Buffer one byte over the
    artifact limit is refused before anything is written, so an artifact
    stored earlier under the same name is still at the destination. *)
Lemma oversized_buffer_keeps_existing_file :
  let env := {| Storage.cwd := "/srv"; Storage.STORAGE_DIR := None |} in
  let st := Storage.init env Storage.initial in
  let dest := "/data/artifacts/j1-app.apk" in
  let fs : FS := <[dest := [Byte.x01]]> ∅ in
  let data := Storage.Buffer (repeat Byte.x00 (Z.to_nat 2147483649)) in
  Storage.payload_bytes data = Storage.MAX_ARTIFACT_BYTES + 1 /\
  Storage.saveArtifact env st "j1" "app.apk" (Storage.Buffer [Byte.x01]) ∅
  = (Ok dest, fs) /\
  Storage.saveArtifact env st "j1" "app.apk" data fs
  = (Throw (Storage.SizeLimit Storage.MAX_ARTIFACT_BYTES (Some 2147483649)), fs) /\
  fs !! dest = Some [Byte.x01].
Proof.
  intros env st dest fs data.
  assert (Storage.payload_bytes data = 2147483649) as Hlen.
  { unfold data, Storage.payload_bytes. rewrite repeat_length.
    apply Z2Nat.id. lia. }
  destruct (init_normal env Storage.initial eq_refl) as (_ & Hdir & Hinit).
  fold st in Hdir, Hinit.
  split_and!.
  - rewrite Hlen. reflexivity.
  - rewrite saveArtifact_normal; [|done..]. reflexivity.
  - rewrite saveArtifact_over; [|done|done|rewrite Hlen; reflexivity].
    unfold data. cbv beta iota. rewrite repeat_length, Z2Nat.id by lia.
    reflexivity.
  - apply lookup_insert_eq.
Qed.

(** C4, amended. Tarballs are limited to 500 MB and artifacts to 2 GB.  A
    payload of more bytes than its category allows, be it by one byte, makes
    the write fail with the size-limit error.  A stream is counted chunk by
    chunk: when the chunk that takes the count over the limit arrives, the
    file holds the chunks before it and nothing of what follows, and the
    file is then removed, so no file remains at the destination.  A Buffer
    is refused before anything is written: the file system stays exactly as
    it was (no file is created, a file already at the destination is
    kept). *)
Theorem size_limit_enforced
    (env : Storage.Env) (st0 : Storage.State) (jobId originalFilename : string)
    (data : Storage.Payload) (fs : FS) :
  Path.isAbsolute (Storage.cwd env) = true ->
  let st := Storage.init env st0 in
  let tarball := Storage.tarballsDir st +:+ "/" +:+ Storage.sanitize jobId
                 +:+ ".tar.gz" in
  let artifact := Storage.artifactsDir st +:+ "/" +:+ Storage.sanitize jobId
                  +:+ "-" +:+ Storage.sanitize originalFilename in
  Storage.MAX_TARBALL_BYTES = 524288000 /\
  Storage.MAX_ARTIFACT_BYTES = 2147483648 /\
  (Storage.MAX_TARBALL_BYTES < Storage.payload_bytes data ->
   Storage.saveTarball env st jobId data fs
   = match data with
     | Storage.Buffer d =>
         (Throw (Storage.SizeLimit Storage.MAX_TARBALL_BYTES
                   (Some (Z.of_nat (length d)))), fs)
     | Storage.Stream _ =>
         (Throw (Storage.SizeLimit Storage.MAX_TARBALL_BYTES None),
          delete tarball fs)
     end) /\
  (Storage.MAX_ARTIFACT_BYTES < Storage.payload_bytes data ->
   Storage.saveArtifact env st jobId originalFilename data fs
   = match data with
     | Storage.Buffer d =>
         (Throw (Storage.SizeLimit Storage.MAX_ARTIFACT_BYTES
                   (Some (Z.of_nat (length d)))), fs)
     | Storage.Stream _ =>
         (Throw (Storage.SizeLimit Storage.MAX_ARTIFACT_BYTES None),
          delete artifact fs)
     end) /\
  (forall dest maxBytes pre c rest,
     Storage.total_bytes pre <= maxBytes ->
     maxBytes < Storage.total_bytes (pre ++ [c]) ->
     Storage.pipeline dest (pre ++ c :: rest) 0 maxBytes (<[dest := []]> fs)
     = (Throw (Storage.SizeLimit maxBytes None), <[dest := List.concat pre]> fs) /\
     Storage.writeWithLimit dest (Storage.Stream (pre ++ c :: rest)) maxBytes fs
     = (Throw (Storage.SizeLimit maxBytes None), delete dest fs)) /\
  (forall dest maxBytes,
     0 <= maxBytes -> maxBytes < Storage.payload_bytes data ->
     (Storage.writeWithLimit dest data maxBytes fs).1
     = Throw (Storage.SizeLimit maxBytes
                match data with
                | Storage.Buffer d => Some (Z.of_nat (length d))
                | Storage.Stream _ => None
                end) /\
     forall p, (Storage.writeWithLimit dest data maxBytes fs).2 !! p
               = match data with
                 | Storage.Buffer _ => fs !! p
                 | Storage.Stream _ => if decide (p = dest) then None else fs !! p
                 end).
Proof.
  intros Hcwd st tarball artifact.
  destruct (init_normal env st0 Hcwd) as (Htar & Hart & Hinit).
  split_and!; [reflexivity|reflexivity|..].
  - intros Hover. by apply saveTarball_over.
  - intros Hover. by apply saveArtifact_over.
  - intros dest maxBytes pre c rest Hle Hover.
    pose proof (pipeline_abort dest pre c rest 0 maxBytes (<[dest:=[]]> fs) []) as Hp.
    rewrite insert_insert_eq in Hp. simpl in Hp.
    assert (Storage.pipeline dest (pre ++ c :: rest) 0 maxBytes (<[dest:=[]]> fs)
            = (Throw (Storage.SizeLimit maxBytes None), <[dest:=List.concat pre]> fs))
      as Hpipe by (apply Hp; [lia|lia|by rewrite lookup_insert_eq]).
    split; [exact Hpipe|].
    unfold Storage.writeWithLimit. rewrite Hpipe. f_equal.
    by rewrite delete_insert_eq.
  - intros dest maxBytes Hmax Hover.
    rewrite writeWithLimit_over; [|done..].
    destruct data as [d|chunks]; simpl; [done|].
    split; [done|]. intros p. destruct (decide (p = dest)) as [->|Hp].
    + by rewrite lookup_delete_eq.
    + by rewrite lookup_delete_ne.
Qed.

Lemma size_limit_enforced_witness :
  let env := {| Storage.cwd := "/srv"; Storage.STORAGE_DIR := None |} in
  let st := Storage.init env Storage.initial in
  let data := Storage.Stream [[Byte.x01]; repeat Byte.x00 (Z.to_nat 524288000)] in
  Path.isAbsolute (Storage.cwd env) = true /\
  Storage.MAX_TARBALL_BYTES < Storage.payload_bytes data /\
  Storage.saveTarball env st "j1" data ∅
  = (Throw (Storage.SizeLimit Storage.MAX_TARBALL_BYTES None),
     delete "/data/tarballs/j1.tar.gz" ∅).
Proof.
  intros env st data.
  assert (Path.isAbsolute (Storage.cwd env) = true) as Hcwd by reflexivity.
  assert (Storage.MAX_TARBALL_BYTES < Storage.payload_bytes data) as Hover.
  { unfold data, Storage.payload_bytes, Storage.total_bytes, fold_right.
    rewrite repeat_length, Z2Nat.id by lia. reflexivity. }
  split_and!; [exact Hcwd|exact Hover|].
  destruct (size_limit_enforced env Storage.initial "j1" "app.apk" data ∅ Hcwd)
    as (_ & _ & Htar & _).
  exact (Htar Hover).
Defined.

(** ** The channel registry *)

Lemma get_delete_same {V : Type} (k : string) (m : JsMap V) :
  JsMap.get k (JsMap.delete k m) = None.
Proof.
  induction m as [|[k' v'] m IH]; simpl; [reflexivity|].
  destruct (String.eqb k k') eqn:E; [exact IH|]. simpl. by rewrite E.
Qed.

Lemma get_delete_other {V : Type} (k k' : string) (m : JsMap V) :
  k <> k' -> JsMap.get k' (JsMap.delete k m) = JsMap.get k' m.
Proof.
  intros Hne. induction m as [|[k0 v0] m IH]; simpl; [reflexivity|].
  destruct (String.eqb k k0) eqn:E; simpl.
  - apply String.eqb_eq in E. subst k0.
    destruct (String.eqb k' k) eqn:E'; [|exact IH].
    apply String.eqb_eq in E'. congruence.
  - by rewrite IH.
Qed.

(** [set] and [delete] keep the keys of a map distinct. *)
Lemma keys_delete_subset {V : Type} (k k' : string) (m : JsMap V) :
  In k' (map fst (JsMap.delete k m)) -> In k' (map fst m).
Proof.
  induction m as [|[k0 v0] m IH]; simpl; [done|].
  destruct (String.eqb k k0); simpl; [by auto|]. intros [?|?]; auto.
Qed.

Lemma NoDup_keys_delete {V : Type} (k : string) (m : JsMap V) :
  NoDup (map fst m) -> NoDup (map fst (JsMap.delete k m)).
Proof.
  induction m as [|[k0 v0] m IH]; simpl; [done|].
  intros [Hnin Hnd]%NoDup_cons. destruct (String.eqb k k0); [by apply IH|].
  simpl. apply NoDup_cons. split; [|by apply IH].
  rewrite list_elem_of_In in *. intros Hin. apply Hnin.
  by apply (keys_delete_subset k).
Qed.

Lemma keys_set {V : Type} (k : string) (v : V) (m : JsMap V) (k' : string) :
  In k' (map fst (JsMap.set k v m)) -> k' = k \/ In k' (map fst m).
Proof.
  induction m as [|[k0 v0] m IH]; simpl.
  - intros [<-|[]]. by left.
  - destruct (String.eqb k k0) eqn:E; simpl; [by auto|].
    intros [<-|H]; [by auto|]. destruct (IH H); auto.
Qed.

Lemma NoDup_keys_set {V : Type} (k : string) (v : V) (m : JsMap V) :
  NoDup (map fst m) -> NoDup (map fst (JsMap.set k v m)).
Proof.
  induction m as [|[k0 v0] m IH]; simpl.
  - intros _. apply NoDup_cons. split; [by intros ?%elem_of_nil|constructor].
  - intros [Hnin Hnd]%NoDup_cons. destruct (String.eqb k k0) eqn:E; simpl.
    + by apply NoDup_cons.
    + apply NoDup_cons. split; [|by apply IH].
      rewrite list_elem_of_In in *. intros Hin.
      apply keys_set in Hin as [->|Hin]; [|done].
      by rewrite String.eqb_refl in E.
Qed.

Lemma set_set {V : Type} (k : string) (v v' : V) (m : JsMap V) :
  JsMap.set k v (JsMap.set k v' m) = JsMap.set k v m.
Proof.
  induction m as [|[k0 v0] m IH]; simpl.
  - by rewrite String.eqb_refl.
  - destruct (String.eqb k k0) eqn:E; simpl; rewrite E; [done|by rewrite IH].
Qed.

Lemma set_not_nil {V : Type} (k : string) (v : V) (m : JsMap V) :
  JsMap.set k v m <> [].
Proof. destruct m as [|[k' v'] m]; simpl; [done|]. by destruct (String.eqb k k'). Qed.

(** The registry never stores a channel without subscribers. *)
Lemma step_no_empty_channel (o : Sse.Op) (channels : JsMap (JsMap SSEClient)) :
  (forall e, In e channels -> e.2 <> []) ->
  forall e, In e (Sse.step o channels) -> e.2 <> [].
Proof.
  intros Hinv e. destruct o as [channel client|channel clientId]; simpl.
  - unfold Sse.addClient, Sse.getOrCreateChannel.
    destruct (JsMap.get channel channels) as [clients|]; intros Hin.
    + apply In_set in Hin as [->|Hin]; [apply set_not_nil|by apply Hinv].
    + (* the entry created by getOrCreateChannel is overwritten at once *)
      rewrite set_set in Hin.
      apply In_set in Hin as [->|Hin]; [apply set_not_nil|by apply Hinv].
  - unfold Sse.removeClient.
    destruct (JsMap.get channel channels) as [clients|]; [|by apply Hinv].
    destruct (JsMap.size (JsMap.delete clientId clients) =? 0) eqn:E; intros Hin.
    + by apply Hinv, (In_delete channel).
    + apply In_set in Hin as [->|Hin]; [|by apply Hinv].
      simpl. intros Hnil. rewrite Hnil in E. discriminate.
Qed.

Lemma fold_step_no_empty_channel (ops : list Sse.Op) :
  forall channels : JsMap (JsMap SSEClient),
    (forall e, In e channels -> e.2 <> []) ->
    forall e, In e (fold_left (fun c o => Sse.step o c) ops channels) ->
              e.2 <> [].
Proof.
  induction ops as [|o ops IH]; simpl; intros channels Hinv; [exact Hinv|].
  by apply IH, step_no_empty_channel.
Qed.

Lemma run_no_empty_channel (ops : list Sse.Op) (channel : string)
    (clients : JsMap SSEClient) :
  In (channel, clients) (Sse.run ops) -> clients <> [].
Proof.
  intros Hin.
  apply (fold_step_no_empty_channel ops [] (fun e H => match H with end)
           (channel, clients) Hin).
Qed.

(** C7. When [removeClient] takes the last subscriber out of a channel, the
    channel is deleted from the registry: it is no longer a key of it, the
    other channels are as before, and a broadcast to it afterwards does
    nothing at all (no delivery, no warning, no error). *)
Theorem removeClient_last_subscriber {A : Type} (stringify : A -> string)
    (channels : JsMap (JsMap SSEClient)) (channel clientId : string)
    (clients : JsMap SSEClient) :
  JsMap.get channel channels = Some clients ->
  JsMap.size (JsMap.delete clientId clients) = 0 ->
  let channels' := Sse.removeClient channel clientId channels in
  channels' = JsMap.delete channel channels /\
  JsMap.get channel channels' = None /\
  JsMap.has channel channels' = false /\
  (forall other, other <> channel ->
     JsMap.get other channels' = JsMap.get other channels) /\
  (forall event data, Sse.broadcast stringify channel event data channels' = []).
Proof.
  intros Hget Hsize channels'.
  assert (channels' = JsMap.delete channel channels) as Heq.
  { unfold channels', Sse.removeClient. rewrite Hget, Hsize. reflexivity. }
  rewrite Heq. split_and!.
  - reflexivity.
  - apply get_delete_same.
  - unfold JsMap.has. by rewrite get_delete_same.
  - intros other Hne. by apply get_delete_other.
  - intros event data. unfold Sse.broadcast. by rewrite get_delete_same.
Qed.

Lemma removeClient_last_subscriber_witness :
  let client := SSEClient.mk "c1" (fun _ _ => true) true in
  let channels := Sse.addClient "job:j1" client [] in
  JsMap.get "job:j1" channels = Some [("c1", client)] /\
  JsMap.size (JsMap.delete "c1" [("c1", client)]) = 0 /\
  Sse.removeClient "job:j1" "c1" channels = [] /\
  Sse.broadcast (fun s : string => s) "job:j1" "job:status" "payload"
    (Sse.removeClient "job:j1" "c1" channels) = [].
Proof.
  intros client channels.
  assert (JsMap.get "job:j1" channels = Some [("c1", client)]) as Hget
    by reflexivity.
  assert (JsMap.size (JsMap.delete "c1" [("c1", client)]) = 0) as Hsize
    by reflexivity.
  destruct (removeClient_last_subscriber (fun s : string => s) channels
              "job:j1" "c1" [("c1", client)] Hget Hsize)
    as (Heq & _ & _ & _ & Hb).
  split_and!; [exact Hget|exact Hsize|exact Heq|apply Hb].
Defined.

(** While subscribers remain the channel stays, and a broadcast reaches
    each of them, in subscription order. *)
Example broadcast_to_remaining_subscriber :
  let c1 := SSEClient.mk "c1" (fun _ _ => true) true in
  let c2 := SSEClient.mk "c2" (fun _ _ => false) true in
  let c3 := SSEClient.mk "c3" (fun _ _ => true) true in
  let channels :=
    Sse.addClient "job:j1" c3 (Sse.addClient "job:j1" c2 (Sse.addClient "job:j1" c1 [])) in
  Sse.broadcast (fun s : string => s) "job:j1" "job:log" "line"
    (Sse.removeClient "job:j1" "c1" channels)
  = [Sse.Warned "c2" "job:log" "job:j1"; Sse.Sent "c3" "job:log" "line"].
Proof. reflexivity. Qed.

(** ** The runner registry *)

(** C6. The heartbeat a runner sends when it shuts down names no platform
    (the command line client calls it the signal that the runner is going
    away).  The handler answers it with 400 and records nothing, where it
    is meant to be accepted and recorded. *)
Lemma heartbeat_empty_platforms_rejected :
  let body := {| Runners.runnerId := "r1"; Runners.hostname := "mac-mini";
                 Runners.platforms := Some [] |} in
  Runners.heartbeat body 1000 []
  = ({| Runners.status := 400;
        Runners.body := Runners.ErrorBody "Missing or empty platforms array" |},
     [])
  /\ JsMap.has "r1" (Runners.heartbeat body 1000 []).2 = false.
Proof. split; reflexivity. Qed.

(** The same for every runner and registry: a heartbeat carrying an empty
    platform list gets a 400 (missing runner id, or missing or empty
    platforms array) and the registry is left as it was, so that a runner
    that signs off stays listed with its platforms until the sweep finds
    its last heartbeat too old. *)
Theorem heartbeat_empty_platforms
    (runnerId hostname : string) (now : Z) (runnerMap : JsMap Runner) :
  let body := {| Runners.runnerId := runnerId; Runners.hostname := hostname;
                 Runners.platforms := Some [] |} in
  Runners.heartbeat body now runnerMap
  = ({| Runners.status := 400;
        Runners.body :=
          Runners.ErrorBody
            (if String.eqb runnerId EmptyString then "Missing runnerId"
             else "Missing or empty platforms array") |},
     runnerMap).
Proof.
  intros body. unfold Runners.heartbeat, body. simpl.
  by destruct (String.eqb runnerId EmptyString).
Qed.

(** A runner that has signed off still counts as active: its last
    heartbeat was refused, so its entry keeps the platforms it announced. *)
Example heartbeat_sign_off_ignored :
  let hello := {| Runners.runnerId := "r1"; Runners.hostname := "mac-mini";
                  Runners.platforms := Some [ios] |} in
  let bye := {| Runners.runnerId := "r1"; Runners.hostname := "mac-mini";
                Runners.platforms := Some [] |} in
  let registered := (Runners.heartbeat hello 0 []).2 in
  Runners.status (Runners.heartbeat bye 1000 registered).1 = 400 /\
  (Runners.heartbeat bye 1000 registered).2
  = [("r1", Runner.mk "r1" "mac-mini" [ios] 0)] /\
  Runners.hasActiveRunner ios 2000 (Runners.heartbeat bye 1000 registered).2
  = true.
Proof. split_and!; reflexivity. Qed.

(** A heartbeat that names at least one platform is recorded. *)
Example heartbeat_recorded :
  let body := {| Runners.runnerId := "r1"; Runners.hostname := EmptyString;
                 Runners.platforms := Some [ios] |} in
  Runners.heartbeat body 1000 []
  = ({| Runners.status := 200;
        Runners.body := Runners.RunnerBody (Runner.mk "r1" "unknown" [ios] 1000) |},
     [("r1", Runner.mk "r1" "unknown" [ios] 1000)]).
Proof. reflexivity. Qed.

(** ** Artifact upload *)

Lemma updateJobStatus_self (id : string) (extra : option Queue.UpdateExtra)
    (now : Z) (jobs : JsMap Job) (job : Job) :
  Queue.getJob id jobs = Some job ->
  Queue.updateJobStatus id (Job.status job) extra now jobs
  = (Throw (Queue.InvalidTransition (Job.status job) (Job.status job) id), jobs).
Proof.
  intros Hget. unfold Queue.updateJobStatus. unfold Queue.getJob in Hget.
  by rewrite Hget, no_self_transition.
Qed.

(** C9. No status is among its own allowed transitions, so
    [updateJobStatus(id, s, extra)] on a job whose status is [s] throws the
    invalid-transition error and changes nothing.  The artifact upload
    handler makes exactly this call for a job in 'building' or 'success':
    whenever it is given a file for such a job it answers 400 with a
    'Failed to save artifact' message, updates no job and broadcasts
    nothing; if [saveArtifact] succeeded, its file is in the storage all the
    same and the message is the one of the invalid transition. *)
Theorem artifact_upload_self_transition
    (stringify : Jobs.ArtifactEvent -> string) (env : Storage.Env)
    (jobId name : string) (content : list Byte.byte) (now : Z)
    (srv : Jobs.Server) (job : Job) :
  Queue.getJob jobId (Jobs.jobs srv) = Some job ->
  Job.status job = building \/ Job.status job = success ->
  (forall s, includes (VALID_TRANSITIONS s) s = false) /\
  (forall extra,
     Queue.updateJobStatus jobId (Job.status job) extra now (Jobs.jobs srv)
     = (Throw (Queue.InvalidTransition (Job.status job) (Job.status job) jobId),
        Jobs.jobs srv)) /\
  let result :=
    Jobs.postArtifact stringify env jobId (Some (Jobs.FormFile name content))
      now srv in
  let saved :=
    Storage.saveArtifact env (Jobs.storage srv) jobId name
      (Storage.Buffer content) (Jobs.files srv) in
  Jobs.status result.1.1 = 400 /\
  Jobs.jobs result.1.2 = Jobs.jobs srv /\
  Jobs.files result.1.2 = saved.2 /\
  result.2 = [] /\
  Jobs.body result.1.1
  = Jobs.ErrorBody
      ("Failed to save artifact: "
       +:+ match saved.1 with
           | Throw err => Storage.message err
           | Ok _ =>
               Queue.message
                 (Queue.InvalidTransition (Job.status job) (Job.status job) jobId)
           end).
Proof.
  intros Hget Hstatus. split_and!.
  - apply no_self_transition.
  - intros extra. by apply updateJobStatus_self.
  - intros result saved. unfold result, Jobs.postArtifact. rewrite Hget.
    assert (negb (bool_decide (Job.status job = building))
            && negb (bool_decide (Job.status job = success)) = false) as ->.
    { destruct Hstatus as [-> | ->]; reflexivity. }
    fold saved. destruct saved as [[dest|err] fs'] eqn:Esaved; simpl.
    + rewrite (updateJobStatus_self jobId _ now (Jobs.jobs srv) job Hget).
      by split_and!.
    + by split_and!.
Qed.

Lemma artifact_upload_self_transition_witness :
  let env := {| Storage.cwd := "/srv"; Storage.STORAGE_DIR := None |} in
  let job := Job.mk "j1" building ios "dev" [] "me" (Some "r1") 100 200
               None None (Some "j1.tar.gz") None in
  let srv := {| Jobs.jobs := [("j1", job)];
                Jobs.storage := Storage.init env Storage.initial;
                Jobs.files := ∅;
                Jobs.channels := [] |} in
  let result :=
    Jobs.postArtifact (fun e => Jobs.filename e) env "j1"
      (Some (Jobs.FormFile "app.ipa" [Byte.x01; Byte.x02])) 300 srv in
  Queue.getJob "j1" (Jobs.jobs srv) = Some job /\
  (Job.status job = building \/ Job.status job = success) /\
  Jobs.status result.1.1 = 400 /\
  Jobs.body result.1.1
  = Jobs.ErrorBody
      "Failed to save artifact: Invalid transition: building -> building for job j1" /\
  Jobs.jobs result.1.2 = [("j1", job)] /\
  Jobs.files result.1.2 !! "/data/artifacts/j1-app.ipa" = Some [Byte.x01; Byte.x02].
Proof.
  intros env job srv result.
  assert (Queue.getJob "j1" (Jobs.jobs srv) = Some job) as Hget by reflexivity.
  assert (Job.status job = building \/ Job.status job = success) as Hst
    by (left; reflexivity).
  destruct (artifact_upload_self_transition (fun e => Jobs.filename e) env
              "j1" "app.ipa" [Byte.x01; Byte.x02] 300 srv job Hget Hst)
    as (_ & _ & Hcode & Hjobs & Hfiles & _ & Hbody).
  split_and!; [exact Hget|exact Hst|exact Hcode|exact Hbody|exact Hjobs|].
  fold result in Hfiles. rewrite Hfiles. reflexivity.
Defined.

(* ===================================================================== *)
(** * Part III: further properties of the code                           *)
(* ===================================================================== *)

(** ** The queue: statistics, listing, claims in sequence *)

Lemma getQueueStats_fold (l : list Job) : forall acc : QueueStats,
  fold_left (fun stats job => QueueStats_count stats (Job.status job)) l acc
  = let n s := Z.of_nat (length (List.filter
                                   (fun job => bool_decide (Job.status job = s)) l)) in
    QueueStats.mk (QueueStats.total acc + Z.of_nat (length l))
      (QueueStats.queued acc + n queued)
      (QueueStats.claimed acc + n claimed)
      (QueueStats.building acc + n building)
      (QueueStats.success acc + n success)
      (QueueStats.error acc + n error)
      (QueueStats.cancelled acc + n cancelled).
Proof.
  induction l as [|job l IH]; intros [t q c b s e x]; cbn zeta.
  - simpl. by rewrite !Z.add_0_r.
  - cbn [fold_left]. rewrite IH. cbn zeta.
    unfold QueueStats_count.
    destruct (Job.status job) eqn:E; simpl; rewrite E; simpl; f_equal; lia.
Qed.

Lemma filter_status_partition (l : list Job) :
  let n s := Z.of_nat (length (List.filter
                                 (fun job => bool_decide (Job.status job = s)) l)) in
  Z.of_nat (length l)
  = n queued + n claimed + n building + n success + n error + n cancelled.
Proof.
  induction l as [|job l IH]; cbn zeta in *; [reflexivity|].
  simpl. destruct (Job.status job); simpl; lia.
Qed.

(** X1. [getQueueStats] counts every stored job once: [total] is the number
    of jobs, each per-status field is the number of jobs in that status,
    and [total] is the sum of the six per-status fields. *)
Theorem getQueueStats_counts (jobs : JsMap Job) :
  let stats := Queue.getQueueStats jobs in
  stats
  = QueueStats.mk (JsMap.size jobs)
      (Queue.count_status queued jobs) (Queue.count_status claimed jobs)
      (Queue.count_status building jobs) (Queue.count_status success jobs)
      (Queue.count_status error jobs) (Queue.count_status cancelled jobs)
  /\ QueueStats.total stats
     = QueueStats.queued stats + QueueStats.claimed stats
       + QueueStats.building stats + QueueStats.success stats
       + QueueStats.error stats + QueueStats.cancelled stats.
Proof.
  intros stats.
  assert (stats
          = QueueStats.mk (JsMap.size jobs)
              (Queue.count_status queued jobs) (Queue.count_status claimed jobs)
              (Queue.count_status building jobs) (Queue.count_status success jobs)
              (Queue.count_status error jobs) (Queue.count_status cancelled jobs))
    as Heq.
  { unfold stats, Queue.getQueueStats. rewrite getQueueStats_fold. cbn zeta.
    unfold Queue.count_status, JsMap.size, JsMap.values. simpl.
    by rewrite length_map. }
  split; [exact Heq|]. rewrite Heq. simpl.
  unfold JsMap.size, Queue.count_status.
  rewrite <- (length_map snd jobs). apply filter_status_partition.
Qed.

(** *** Listing, newest first *)

Lemma insert_newest_first_perm (job : Job) (l : list Job) :
  Queue.insert_newest_first job l ≡ₚ job :: l.
Proof.
  induction l as [|x l IH]; simpl; [done|].
  destruct (Job.createdAt x <=? Job.createdAt job); [done|].
  rewrite IH. apply Permutation_swap.
Qed.

Lemma insert_newest_first_sorted (job : Job) (l : list Job) :
  StronglySorted (fun a b => Job.createdAt b <= Job.createdAt a) l ->
  StronglySorted (fun a b => Job.createdAt b <= Job.createdAt a)
    (Queue.insert_newest_first job l).
Proof.
  induction l as [|x l IH]; simpl; intros Hs.
  - by repeat constructor.
  - apply StronglySorted_inv in Hs as [Hl Hx].
    destruct (Job.createdAt x <=? Job.createdAt job) eqn:E.
    + apply Z.leb_le in E. constructor; [by constructor|].
      constructor; [done|]. eapply Forall_impl; [exact Hx|]. simpl. lia.
    + apply Z.leb_gt in E. constructor; [by apply IH|].
      rewrite (insert_newest_first_perm job l). constructor; [lia|done].
Qed.

Lemma insert_newest_first_filter (t : Z) (job : Job) (l : list Job) :
  List.filter (fun j => Job.createdAt j =? t) (Queue.insert_newest_first job l)
  = List.filter (fun j => Job.createdAt j =? t) (job :: l).
Proof.
  induction l as [|x l IH]; [done|].
  cbn [Queue.insert_newest_first].
  destruct (Job.createdAt x <=? Job.createdAt job) eqn:E; [done|].
  apply Z.leb_gt in E. simpl in *.
  destruct (Job.createdAt job =? t) eqn:Ej.
  - apply Z.eqb_eq in Ej.
    assert ((Job.createdAt x =? t) = false) as -> by (apply Z.eqb_neq; lia).
    exact IH.
  - destruct (Job.createdAt x =? t); by rewrite IH.
Qed.

Lemma sort_newest_first_spec (l : list Job) :
  Queue.sort_newest_first l ≡ₚ l /\
  StronglySorted (fun a b => Job.createdAt b <= Job.createdAt a)
    (Queue.sort_newest_first l) /\
  forall t,
    List.filter (fun j => Job.createdAt j =? t) (Queue.sort_newest_first l)
    = List.filter (fun j => Job.createdAt j =? t) l.
Proof.
  induction l as [|job l (Hp & Hs & Hf)]; simpl.
  - split_and!; [done|constructor|done].
  - split_and!.
    + by rewrite insert_newest_first_perm, Hp.
    + by apply insert_newest_first_sorted.
    + intros t. rewrite insert_newest_first_filter. simpl. by rewrite Hf.
Qed.

(** X2. [getAllJobs] returns the stored jobs, each exactly once, ordered by
    [createdAt] from the newest to the oldest; jobs created at the same
    instant keep the order in which they were inserted. *)
Theorem getAllJobs_newest_first (jobs : JsMap Job) :
  Queue.getAllJobs jobs ≡ₚ JsMap.values jobs /\
  StronglySorted (fun a b => Job.createdAt b <= Job.createdAt a)
    (Queue.getAllJobs jobs) /\
  forall t,
    List.filter (fun j => Job.createdAt j =? t) (Queue.getAllJobs jobs)
    = List.filter (fun j => Job.createdAt j =? t) (JsMap.values jobs).
Proof.
  unfold Queue.getAllJobs. apply sort_newest_first_spec.
Qed.

Example getAllJobs_example :
  let mk id t := Job.mk id queued ios "dev" [] "me" None t t None None None None in
  Queue.getAllJobs [("a", mk "a" 10); ("b", mk "b" 30); ("c", mk "c" 10); ("d", mk "d" 20)]
  = [mk "b" 30; mk "d" 20; mk "a" 10; mk "c" 10].
Proof. reflexivity. Qed.

(** *** Claims in sequence *)

Lemma count_eligible_app (p : Platform) (a b : JsMap Job) :
  Queue.count_eligible p (a ++ b)
  = Queue.count_eligible p a + Queue.count_eligible p b.
Proof.
  unfold Queue.count_eligible, JsMap.values.
  rewrite map_app, List.filter_app, length_app. lia.
Qed.

Lemma count_eligible_cons (p : Platform) (k : string) (j : Job) (m : JsMap Job) :
  Queue.count_eligible p ((k, j) :: m)
  = (if bool_decide (Job.status j = queued) && bool_decide (Job.platform j = p)
     then 1 else 0) + Queue.count_eligible p m.
Proof.
  unfold Queue.count_eligible, JsMap.values. simpl.
  destruct (bool_decide (Job.status j = queued) && bool_decide (Job.platform j = p));
    simpl; lia.
Qed.

Lemma count_eligible_nonneg (p : Platform) (m : JsMap Job) :
  0 <= Queue.count_eligible p m.
Proof. unfold Queue.count_eligible. lia. Qed.

Lemma count_eligible_zero (p : Platform) (m : JsMap Job) :
  (forall e, In e m -> ~ Queue.eligible p e.2) -> Queue.count_eligible p m = 0.
Proof.
  induction m as [|[k j] m IH]; intros Hnone; [reflexivity|].
  rewrite count_eligible_cons, IH; [|intros e He; apply Hnone; by right].
  assert (bool_decide (Job.status j = queued)
          && bool_decide (Job.platform j = p) = false) as ->; [|done].
  apply not_true_is_false. intros [Hq Hp]%andb_true_iff.
  apply (Hnone (k, j)); [by left|].
  split; [by apply bool_decide_eq_true in Hq|by apply bool_decide_eq_true in Hp].
Qed.

(** X3. A claim succeeds exactly when some job is eligible for the platform,
    and each successful claim takes one job out of the eligible ones of
    that platform and none out of those of the other platform.  So when a
    single job is eligible, the first claim gets it and a second claim gets
    nothing. *)
Theorem claimNextJob_takes_one
    (platform : Platform) (runnerId host : string) (now : Z) (jobs : JsMap Job) :
  let result := Queue.claimNextJob platform runnerId host now jobs in
  match result.1 with
  | Some _ =>
      0 < Queue.count_eligible platform jobs /\
      Queue.count_eligible platform result.2
      = Queue.count_eligible platform jobs - 1
  | None => Queue.count_eligible platform jobs = 0 /\ result.2 = jobs
  end /\
  (forall other, other <> platform ->
     Queue.count_eligible other result.2 = Queue.count_eligible other jobs) /\
  (Queue.count_eligible platform jobs = 1 ->
   forall runnerId' host' now',
     (Queue.claimNextJob platform runnerId' host' now' result.2).1 = None).
Proof.
  intros result.
  assert (match result.1 with
          | Some _ =>
              0 < Queue.count_eligible platform jobs /\
              Queue.count_eligible platform result.2
              = Queue.count_eligible platform jobs - 1
          | None => Queue.count_eligible platform jobs = 0 /\ result.2 = jobs
          end /\
          (forall other, other <> platform ->
             Queue.count_eligible other result.2 = Queue.count_eligible other jobs))
    as [Hmain Hother].
  { unfold result.
    destruct (claimNextJob_cases platform runnerId host now jobs)
      as [(b & k & j & a & -> & [Hq Hp] & _ & _ & Heq)|[Hnone Heq]];
      rewrite Heq; simpl.
    - rewrite !count_eligible_app, !count_eligible_cons. simpl.
      rewrite Hq, Hp, !bool_decide_eq_true_2 by done. simpl.
      pose proof (count_eligible_nonneg platform b).
      pose proof (count_eligible_nonneg platform a).
      split; [lia|]. intros other Hne.
      rewrite !count_eligible_app, !count_eligible_cons. simpl.
      rewrite Hq, Hp. rewrite (bool_decide_eq_false_2 (platform = other)) by done.
      by rewrite andb_false_r.
    - split; [|done]. split; [by apply count_eligible_zero|done]. }
  split_and!; [exact Hmain|exact Hother|].
  intros Hone runnerId' host' now'.
  destruct result.1 as [j|] eqn:E.
  - destruct Hmain as [_ Hdec]. rewrite Hone in Hdec.
    pose proof (claimNextJob_cases platform runnerId' host' now' result.2)
      as [(b & k & j' & a & Hsplit & [Hq Hp] & _ & _ & _)|[_ ->]]; [|done].
    exfalso. rewrite Hsplit, count_eligible_app, count_eligible_cons in Hdec.
    rewrite Hq, Hp, !bool_decide_eq_true_2 in Hdec by done. simpl in Hdec.
    pose proof (count_eligible_nonneg platform b).
    pose proof (count_eligible_nonneg platform a). lia.
  - destruct Hmain as [Hzero _]. lia.
Qed.

(** *** What claims and updates preserve *)

Lemma rank_increases (s s' : JobStatus) :
  includes (VALID_TRANSITIONS s) s' = true -> Queue.rank s < Queue.rank s'.
Proof. by destruct s, s'. Qed.

Lemma job_advances_refl (e : string * Job) : Queue.job_advances e e.
Proof. unfold Queue.job_advances. split_and!; first [done|lia]. Qed.

Lemma job_advances_trans (a b c : string * Job) :
  Queue.job_advances a b -> Queue.job_advances b c -> Queue.job_advances a c.
Proof.
  unfold Queue.job_advances.
  intros (H1 & H2 & H3 & H4 & H5 & H6 & H7 & H8 & H9)
         (G1 & G2 & G3 & G4 & G5 & G6 & G7 & G8 & G9).
  split_and!; first [congruence|lia].
Qed.

Lemma Forall2_job_advances_refl (m : JsMap Job) :
  Forall2 Queue.job_advances m m.
Proof. induction m; constructor; [apply job_advances_refl|done]. Qed.

Lemma set_Forall2 {V : Type} (R : string * V -> string * V -> Prop)
    (k : string) (v v' : V) (m : JsMap V) :
  (forall e, R e e) ->
  JsMap.get k m = Some v ->
  R (k, v) (k, v') ->
  Forall2 R m (JsMap.set k v' m).
Proof.
  intros Hrefl Hget HR. induction m as [|[k0 v0] m IH]; simpl in *; [done|].
  destruct (String.eqb k k0) eqn:E.
  - apply String.eqb_eq in E. subst k0. injection Hget as ->.
    constructor; [exact HR|]. clear -Hrefl. induction m; constructor; auto.
  - constructor; [apply Hrefl|by apply IH].
Qed.

Lemma updateJobStatus_ok_fields
    (id : string) (newStatus : JobStatus) (extra : option Queue.UpdateExtra)
    (now : Z) (jobs : JsMap Job) (job' : Job) (jobs' : JsMap Job) :
  Queue.updateJobStatus id newStatus extra now jobs = (Ok job', jobs') ->
  exists job,
    JsMap.get id jobs = Some job /\ jobs' = JsMap.set id job' jobs /\
    includes (VALID_TRANSITIONS (Job.status job)) newStatus = true /\
    Job.status job' = newStatus /\
    Job.id job' = Job.id job /\ Job.platform job' = Job.platform job /\
    Job.profile job' = Job.profile job /\ Job.flags job' = Job.flags job /\
    Job.submittedBy job' = Job.submittedBy job /\
    Job.createdAt job' = Job.createdAt job /\
    Job.tarballFilename job' = Job.tarballFilename job.
Proof.
  unfold Queue.updateJobStatus.
  destruct (JsMap.get id jobs) as [job|]; [|discriminate].
  destruct (includes (VALID_TRANSITIONS (Job.status job)) newStatus) eqn:E;
    simpl; [|discriminate].
  intros [= <- <-]. exists job.
  destruct extra as [[[e|] [c|] [a|]]|]; simpl; split_and!; done.
Qed.

Lemma step_job_advances (now : Z) (o : Queue.Op) (jobs : JsMap Job) :
  Queue.is_claim_or_update o = true ->
  Forall2 Queue.job_advances jobs (Queue.step now o jobs).
Proof.
  destruct o as [nanoid params|platform runnerId host|id newStatus extra|id];
    simpl; try discriminate; intros _.
  - destruct (claimNextJob_cases platform runnerId host now jobs)
      as [(b & k & j & a & -> & [Hq Hp] & _ & _ & ->)|[_ ->]];
      [|apply Forall2_job_advances_refl].
    simpl. apply Forall2_app; [apply Forall2_job_advances_refl|].
    constructor; [|apply Forall2_job_advances_refl].
    unfold Queue.job_advances. simpl. rewrite Hq. split_and!; done.
  - destruct (Queue.updateJobStatus id newStatus extra now jobs)
      as [[job'|e] jobs'] eqn:Heq; simpl.
    + apply updateJobStatus_ok_fields in Heq
        as (job & Hget & -> & Hinc & Hst & H1 & H2 & H3 & H4 & H5 & H6 & H7).
      apply (set_Forall2 _ id job); [apply job_advances_refl|done|].
      unfold Queue.job_advances. simpl. split_and!; try done.
      apply rank_increases in Hinc. rewrite Hst. lia.
    + destruct (updateJobStatus_cases id newStatus extra now jobs)
        as [[_ Heq']|[(job & _ & _ & Heq')|(job & job' & _ & _ & Heq' & _)]];
        rewrite Heq' in Heq; try discriminate;
        injection Heq as _ <-; apply Forall2_job_advances_refl.
Qed.

(** X4. However many claims and status updates are executed, the store
    keeps the same jobs under the same keys in the same order; each job
    keeps its id, platform, profile, flags, submitter, creation time and
    tarball name; and no status ever moves backwards (queued, then claimed,
    then building, then a terminal status), so none returns to 'queued'. *)
Theorem claims_and_updates_only_advance
    (history : list (Z * Queue.Op)) (jobs : JsMap Job) :
  forallb (fun entry => Queue.is_claim_or_update entry.2) history = true ->
  Forall2 Queue.job_advances jobs (Queue.run history jobs).
Proof.
  revert jobs. induction history as [|[now o] rest IH]; simpl; intros jobs Hall.
  - apply Forall2_job_advances_refl.
  - apply andb_true_iff in Hall as [Ho Hrest].
    pose proof (step_job_advances now o jobs Ho) as Hstep.
    pose proof (IH (Queue.step now o jobs) Hrest) as Hrun.
    revert Hstep Hrun. generalize (Queue.run rest (Queue.step now o jobs)).
    generalize (Queue.step now o jobs). clear.
    induction jobs as [|e jobs IH]; intros mid final Hstep Hrun.
    + inversion Hstep; subst. inversion Hrun; subst. constructor.
    + inversion Hstep as [|? e1 ? mid' He1 Hmid]; subst.
      inversion Hrun as [|? e2 ? final' He2 Hfinal]; subst.
      constructor; [by eapply job_advances_trans|by eapply IH].
Qed.

Lemma claims_and_updates_only_advance_witness :
  let job := Job.mk "j1" queued ios "dev" [] "me" None 100 100 None None None None in
  let history := [(200, Queue.OpClaim ios "r1" "host");
                  (300, Queue.OpUpdate "j1" building None);
                  (400, Queue.OpUpdate "j1" queued None)] in
  forallb (fun entry => Queue.is_claim_or_update entry.2) history = true /\
  Forall2 Queue.job_advances [("j1", job)] (Queue.run history [("j1", job)]).
Proof.
  intros job history.
  assert (forallb (fun entry => Queue.is_claim_or_update entry.2) history = true)
    as Hall by reflexivity.
  split; [exact Hall|].
  exact (claims_and_updates_only_advance history [("j1", job)] Hall).
Defined.

(** *** Creating, looking up, deleting *)

Lemma get_set_ne {V : Type} (k k' : string) (v : V) (m : JsMap V) :
  k <> k' -> JsMap.get k' (JsMap.set k v m) = JsMap.get k' m.
Proof.
  intros Hne. induction m as [|[k0 v0] m IH]; simpl.
  - destruct (String.eqb k' k) eqn:E; [|reflexivity].
    apply String.eqb_eq in E. congruence.
  - destruct (String.eqb k k0) eqn:E; simpl.
    + apply String.eqb_eq in E. subst k0.
      destruct (String.eqb k' k) eqn:E'; [|reflexivity].
      apply String.eqb_eq in E'. congruence.
    + by rewrite IH.
Qed.

Lemma set_absent {V : Type} (k : string) (v : V) (m : JsMap V) :
  JsMap.get k m = None -> JsMap.set k v m = m ++ [(k, v)].
Proof.
  induction m as [|[k0 v0] m IH]; simpl; [done|].
  destruct (String.eqb k k0); [discriminate|]. intros H. by rewrite IH.
Qed.

Lemma delete_absent {V : Type} (k : string) (m : JsMap V) :
  JsMap.get k m = None -> JsMap.delete k m = m.
Proof.
  induction m as [|[k0 v0] m IH]; simpl; [done|].
  destruct (String.eqb k k0); [discriminate|]. intros H. by rewrite IH.
Qed.

Lemma delete_snoc {V : Type} (k : string) (v : V) (m : JsMap V) :
  JsMap.get k m = None -> JsMap.delete k (m ++ [(k, v)]) = m.
Proof.
  induction m as [|[k0 v0] m IH]; simpl.
  - by rewrite String.eqb_refl.
  - destruct (String.eqb k k0); [discriminate|]. intros H. by rewrite IH.
Qed.

(** X5. A job created under an id that is not in use is appended to the
    store in status 'queued' with both timestamps at the clock reading, the
    fields of the parameters, and no [claimedBy], [error], [exitCode] or
    [artifactFilename]; [getJob] on that id returns it, every other id reads
    as before, and deleting it again gives back the store as it was. *)
Theorem createJob_getJob_deleteJob
    (nanoid : string) (now : Z) (params : Queue.CreateJobParams)
    (jobs : JsMap Job) :
  Queue.getJob nanoid jobs = None ->
  let created := Queue.createJob nanoid now params jobs in
  created.2 = jobs ++ [(nanoid, created.1)] /\
  Queue.getJob nanoid created.2 = Some created.1 /\
  Job.id created.1 = nanoid /\
  Job.status created.1 = queued /\
  Job.claimedBy created.1 = None /\
  Job.error created.1 = None /\ Job.exitCode created.1 = None /\
  Job.artifactFilename created.1 = None /\
  Job.platform created.1 = Queue.platform params /\
  Job.profile created.1 = Queue.profile params /\
  Job.submittedBy created.1 = Queue.submittedBy params /\
  Job.flags created.1 = default [] (Queue.flags params) /\
  Job.createdAt created.1 = now /\ Job.updatedAt created.1 = now /\
  (forall id, id <> nanoid ->
     Queue.getJob id created.2 = Queue.getJob id jobs) /\
  Queue.deleteJob nanoid created.2 = (true, jobs).
Proof.
  intros Hfresh created. unfold Queue.getJob in *.
  unfold created, Queue.createJob. simpl.
  split_and!; try done.
  - by apply set_absent.
  - apply get_set_same.
  - intros id Hne. apply get_set_ne. congruence.
  - unfold Queue.deleteJob, JsMap.has. rewrite get_set_same.
    by rewrite set_absent, delete_snoc.
Qed.

Lemma createJob_getJob_deleteJob_witness :
  let params := {| Queue.platform := ios; Queue.profile := "dev";
                   Queue.flags := Some ["--clear-cache"];
                   Queue.submittedBy := "me";
                   Queue.tarballFilename := None |} in
  let old := Job.mk "j0" success ios "dev" [] "me" (Some "r1") 10 50
               None (Some 0) None None in
  let created := Queue.createJob "j1" 100 params [("j0", old)] in
  Queue.getJob "j1" [("j0", old)] = None /\
  Queue.getJob "j1" created.2 = Some created.1 /\
  Queue.deleteJob "j1" created.2 = (true, [("j0", old)]).
Proof.
  intros params old created.
  assert (Queue.getJob "j1" [("j0", old)] = None) as Hfresh by reflexivity.
  destruct (createJob_getJob_deleteJob "j1" 100 params [("j0", old)] Hfresh)
    as (_ & Hget & _ & _ & _ & _ & _ & _ & _ & _ & _ & _ & _ & _ & _ & Hdel).
  split_and!; [exact Hfresh|exact Hget|exact Hdel].
Defined.

(** X6. [deleteJob] answers whether the id was stored; afterwards the id is
    unknown (a lookup finds nothing, a status update throws job-not-found),
    every other id reads as before, and deleting once more answers [false]
    and changes nothing. *)
Theorem deleteJob_forgets (id : string) (jobs : JsMap Job) :
  let deleted := Queue.deleteJob id jobs in
  deleted.1 = match Queue.getJob id jobs with Some _ => true | None => false end /\
  Queue.getJob id deleted.2 = None /\
  (forall other, other <> id ->
     Queue.getJob other deleted.2 = Queue.getJob other jobs) /\
  (forall newStatus extra now,
     Queue.updateJobStatus id newStatus extra now deleted.2
     = (Throw (Queue.JobNotFound id), deleted.2)) /\
  Queue.deleteJob id deleted.2 = (false, deleted.2).
Proof.
  intros deleted. unfold deleted, Queue.deleteJob, Queue.getJob, JsMap.has. simpl.
  split_and!.
  - done.
  - apply get_delete_same.
  - intros other Hne. apply get_delete_other. congruence.
  - intros newStatus extra now. unfold Queue.updateJobStatus.
    by rewrite get_delete_same.
  - rewrite get_delete_same. f_equal. apply delete_absent, get_delete_same.
Qed.

(** *** From claim to completion *)

Lemma get_middle {V : Type} (k : string) (v : V) (before after : JsMap V) :
  ~ In k (map fst before) ->
  JsMap.get k (before ++ (k, v) :: after) = Some v.
Proof.
  induction before as [|[k0 v0] before IH]; simpl; intros Hnin.
  - by rewrite String.eqb_refl.
  - destruct (String.eqb k k0) eqn:E.
    + apply String.eqb_eq in E. subst k0. exfalso. apply Hnin. by left.
    + apply IH. intros Hin. apply Hnin. by right.
Qed.

Lemma step_keyed_by_id (now : Z) (o : Queue.Op) (jobs : JsMap Job) :
  Queue.keyed_by_id jobs -> Queue.keyed_by_id (Queue.step now o jobs).
Proof.
  intros [Hnd Hkey].
  destruct o as [nanoid params|platform runnerId host|id newStatus extra|id]; simpl.
  - split; [by apply NoDup_keys_set|].
    intros k j Hin. apply In_set in Hin as [Heq|Hin]; [|by apply Hkey].
    by injection Heq as -> ->.
  - destruct (claimNextJob_cases platform runnerId host now jobs)
      as [(b & k & j & a & -> & _ & _ & _ & ->)|[_ ->]]; [|done].
    simpl. split.
    + rewrite map_app in *. exact Hnd.
    + intros k' j' Hin. apply in_app_or in Hin as [Hin|[Heq|Hin]];
        [|injection Heq as <- <-|].
      * apply Hkey. apply in_or_app. by left.
      * simpl. apply (Hkey k j). apply in_or_app. right. by left.
      * apply Hkey. apply in_or_app. right. by right.
  - destruct (Queue.updateJobStatus id newStatus extra now jobs)
      as [[job'|e] jobs'] eqn:Heq; simpl.
    + apply updateJobStatus_ok_fields in Heq
        as (job & Hget & -> & _ & _ & Hid & _).
      split; [by apply NoDup_keys_set|].
      intros k j Hin. apply In_set in Hin as [Heq|Hin]; [|by apply Hkey].
      injection Heq as -> ->. rewrite Hid. apply Hkey. by apply get_In.
    + destruct (updateJobStatus_cases id newStatus extra now jobs)
        as [[_ Heq']|[(job & _ & _ & Heq')|(job & job' & _ & _ & Heq' & _)]];
        rewrite Heq' in Heq; try discriminate; by injection Heq as _ <-.
  - split; [by apply NoDup_keys_delete|].
    intros k j Hin. by apply Hkey, (In_delete id).
Qed.

Lemma run_keyed_by_id (history : list (Z * Queue.Op)) : forall jobs,
  Queue.keyed_by_id jobs -> Queue.keyed_by_id (Queue.run history jobs).
Proof.
  induction history as [|[now o] rest IH]; simpl; [done|].
  intros jobs Hk. by apply IH, step_keyed_by_id.
Qed.

Lemma keyed_by_id_nil : Queue.keyed_by_id [].
Proof. split; [constructor|]. intros k j []. Qed.

Lemma updateJobStatus_ok
    (id : string) (newStatus : JobStatus) (now : Z) (jobs : JsMap Job) (job : Job) :
  JsMap.get id jobs = Some job ->
  includes (VALID_TRANSITIONS (Job.status job)) newStatus = true ->
  Queue.updateJobStatus id newStatus None now jobs
  = (Ok (Job.set_updatedAt now (Job.set_status newStatus job)),
     JsMap.set id (Job.set_updatedAt now (Job.set_status newStatus job)) jobs).
Proof.
  intros Hget Hinc. unfold Queue.updateJobStatus. by rewrite Hget, Hinc.
Qed.

(** X7. On a store built by queue operations, the job returned by a claim
    can be found under its id and driven to the end by that id: the update
    to 'building' succeeds, then the update to 'success', 'error' or
    'cancelled' succeeds, the runner that claimed it stays recorded, and
    after that every further status update of the job is refused as an
    invalid transition. *)
Theorem claimed_job_runs_to_completion
    (history : list (Z * Queue.Op)) (platform : Platform)
    (runnerId host : string) (now t1 t2 : Z) (final : JobStatus)
    (j : Job) (jobs' : JsMap Job) :
  Queue.claimNextJob platform runnerId host now (Queue.run history [])
  = (Some j, jobs') ->
  transition_table building final = true ->
  Queue.getJob (Job.id j) jobs' = Some j /\
  exists j1 jobs1 j2 jobs2,
    Queue.updateJobStatus (Job.id j) building None t1 jobs' = (Ok j1, jobs1) /\
    Queue.updateJobStatus (Job.id j) final None t2 jobs1 = (Ok j2, jobs2) /\
    Queue.getJob (Job.id j) jobs2 = Some j2 /\
    Job.status j2 = final /\ Job.claimedBy j2 = Some runnerId /\
    Job.createdAt j2 = Job.createdAt j /\ Job.updatedAt j2 = t2 /\
    forall s extra t,
      Queue.updateJobStatus (Job.id j) s extra t jobs2
      = (Throw (Queue.InvalidTransition final s (Job.id j)), jobs2).
Proof.
  intros Hclaim Hfinal.
  pose proof (run_keyed_by_id history [] keyed_by_id_nil) as [Hnd Hkey].
  destruct (claimNextJob_cases platform runnerId host now (Queue.run history []))
    as [(b & k & j0 & a & Hsplit & _ & _ & _ & Heq)|[_ Heq]];
    rewrite Heq in Hclaim; [|discriminate].
  simpl in Hclaim. injection Hclaim as <- <-.
  assert (k = Job.id j0) as ->.
  { apply Hkey. rewrite Hsplit. apply in_or_app. right. by left. }
  assert (~ In (Job.id j0) (map fst b)) as Hnin.
  { rewrite Hsplit, map_app in Hnd. simpl in Hnd.
    apply NoDup_app in Hnd as (_ & Hdisj & _). intros Hin.
    apply (Hdisj (Job.id j0)); [by apply list_elem_of_In|]. by left. }
  simpl. unfold Queue.getJob.
  set (jc := Job.mk _ _ _ _ _ _ _ _ _ _ _ _ _).
  set (id := Job.id j0).
  assert (JsMap.get id (b ++ (id, jc) :: a) = Some jc) as Hget
    by (by apply get_middle).
  split; [exact Hget|].
  rewrite <- includes_transition_table in Hfinal.
  eexists _, _, _, _. split_and!.
  - by apply updateJobStatus_ok.
  - apply updateJobStatus_ok; [apply get_set_same|exact Hfinal].
  - apply get_set_same.
  - reflexivity.
  - reflexivity.
  - reflexivity.
  - reflexivity.
  - intros s extra t. unfold Queue.updateJobStatus.
    rewrite get_set_same. simpl.
    assert (includes (VALID_TRANSITIONS final) s = false) as ->; [|done].
    clear -Hfinal. by destruct final, s.
Qed.

Lemma claimed_job_runs_to_completion_witness :
  let params := {| Queue.platform := ios; Queue.profile := "dev";
                   Queue.flags := None; Queue.submittedBy := "me";
                   Queue.tarballFilename := None |} in
  let history := [(100, Queue.OpCreate "j1" params)] in
  let j := Job.mk "j1" claimed ios "dev" [] "me" (Some "r1") 100 200
             None None None None in
  Queue.claimNextJob ios "r1" "host" 200 (Queue.run history [])
  = (Some j, [("j1", j)]) /\
  transition_table building success = true /\
  Queue.getJob (Job.id j) [("j1", j)] = Some j.
Proof.
  intros params history j.
  assert (Queue.claimNextJob ios "r1" "host" 200 (Queue.run history [])
          = (Some j, [("j1", j)])) as Hclaim by reflexivity.
  assert (transition_table building success = true) as Hfinal by reflexivity.
  split_and!; [exact Hclaim|exact Hfinal|].
  exact (proj1 (claimed_job_runs_to_completion history ios "r1" "host" 200 300 400
                  success j [("j1", j)] Hclaim Hfinal)).
Defined.


(** ** Storage: sanitized names, lookups and deletion *)

Lemma remove_chars_id (cls : ascii -> bool) (s : string) :
  Storage.contains_char cls s = false -> Storage.remove_chars cls s = s.
Proof.
  induction s as [|c s IH]; simpl; [done|].
  intros [Hc Hs]%orb_false_iff. by rewrite Hc, IH.
Qed.

Lemma remove_dotdot_id (s : string) :
  Storage.contains_dotdot s = false -> Storage.remove_dotdot s = s.
Proof.
  induction s as [|c|c c' rest IH1 IH2] using string_pair_ind; [done..|].
  rewrite contains_dotdot_cons2, remove_dotdot_cons2.
  intros [-> H']%orb_false_iff. by rewrite IH2.
Qed.

Lemma sanitize_safe_name (s : string) :
  Storage.safe_name s = true -> Storage.sanitize s = s.
Proof.
  unfold Storage.safe_name. rewrite !andb_true_iff, !negb_true_iff.
  intros [[[Hne Hnul] Hslash] Hdd].
  rewrite sanitize_stripped, stripped_eq.
  rewrite (remove_chars_id _ _ Hnul), (remove_chars_id _ _ Hslash),
    (remove_dotdot_id _ Hdd).
  by rewrite Hne.
Qed.

Lemma sanitize_is_safe_name (s : string) :
  Storage.safe_name (Storage.sanitize s) = true.
Proof.
  destruct (sanitize_clean s) as (Hne & Hnul & Hslash & Hdd & _).
  unfold Storage.safe_name. apply String.eqb_neq in Hne.
  by rewrite Hne, Hnul, Hslash, Hdd.
Qed.

(** X8. [sanitize] leaves exactly the safe names alone (not empty, without
    null byte, slash, backslash and two dots in a row), and its results are
    safe names: sanitizing twice is sanitizing once. *)
Theorem sanitize_idempotent (s : string) :
  (Storage.sanitize s = s <-> Storage.safe_name s = true) /\
  Storage.sanitize (Storage.sanitize s) = Storage.sanitize s.
Proof.
  split; [split|].
  - intros <-. apply sanitize_is_safe_name.
  - apply sanitize_safe_name.
  - apply sanitize_safe_name, sanitize_is_safe_name.
Qed.

(** X9. Within the limit, which is inclusive, a streamed upload and a
    buffered upload of the same bytes are interchangeable: [saveTarball] and
    [saveArtifact] return the same result and leave the same files. *)
Theorem stream_and_buffer_agree (env : Storage.Env) (st : Storage.State)
    (jobId originalFilename : string) (chunks : list (list Byte.byte)) (fs : FS) :
  (Storage.total_bytes chunks <= Storage.MAX_TARBALL_BYTES ->
   Storage.saveTarball env st jobId (Storage.Stream chunks) fs
   = Storage.saveTarball env st jobId (Storage.Buffer (List.concat chunks)) fs) /\
  (Storage.total_bytes chunks <= Storage.MAX_ARTIFACT_BYTES ->
   Storage.saveArtifact env st jobId originalFilename (Storage.Stream chunks) fs
   = Storage.saveArtifact env st jobId originalFilename
       (Storage.Buffer (List.concat chunks)) fs).
Proof.
  assert (Storage.payload_bytes (Storage.Buffer (List.concat chunks))
          = Storage.total_bytes chunks) as Hbytes.
  { simpl. induction chunks as [|c chunks IH]; [done|].
    simpl. rewrite length_app. lia. }
  split; intros Hle.
  - unfold Storage.saveTarball. destruct (Storage.ensureInit st); [|done].
    destruct (Storage.safePath _ _ _) as [dest|]; [|done].
    rewrite !writeWithLimit_within; [done|by rewrite Hbytes|done].
  - unfold Storage.saveArtifact. destruct (Storage.ensureInit st); [|done].
    destruct (Storage.safePath _ _ _) as [dest|]; [|done].
    rewrite !writeWithLimit_within; [done|by rewrite Hbytes|done].
Qed.

Lemma stream_and_buffer_agree_witness :
  Storage.saveTarball {| Storage.cwd := "/srv"; Storage.STORAGE_DIR := None |}
    (Storage.init {| Storage.cwd := "/srv"; Storage.STORAGE_DIR := None |}
       Storage.initial)
    "job" (Storage.Stream [[Byte.x01]; [Byte.x02; Byte.x03]]) ∅
  = Storage.saveTarball {| Storage.cwd := "/srv"; Storage.STORAGE_DIR := None |}
      (Storage.init {| Storage.cwd := "/srv"; Storage.STORAGE_DIR := None |}
         Storage.initial)
      "job" (Storage.Buffer [Byte.x01; Byte.x02; Byte.x03]) ∅.
Proof.
  apply (stream_and_buffer_agree _ _ "job" "a.apk" [[Byte.x01]; [Byte.x02; Byte.x03]] ∅).
  by vm_compute.
Defined.


(** *** Paths below the two storage directories *)

Lemma string_app_inv_head (p a b : string) : p +:+ a = p +:+ b -> a = b.
Proof.
  induction p as [|c p IH]; [done|].
  rewrite !string_app_cons. intros [= H]. by apply IH.
Qed.

Lemma string_app_same_length (a b x y : string) :
  String.length a = String.length b -> a +:+ x = b +:+ y -> a = b /\ x = y.
Proof.
  revert b. induction a as [|c a IH]; intros [|d b]; simpl; try done.
  rewrite !string_app_cons. intros [= Hlen] [= -> Heq].
  destruct (IH b Hlen Heq) as [-> ->]. done.
Qed.

Lemma string_length_app (a b : string) :
  String.length (a +:+ b) = (String.length a + String.length b)%nat.
Proof.
  induction a as [|c a IH]; [done|]. rewrite string_app_cons. simpl. by rewrite IH.
Qed.

Lemma string_app_inv_tail (a b s : string) : a +:+ s = b +:+ s -> a = b.
Proof.
  intros Heq. apply (string_app_same_length a b s s); [|done].
  apply (f_equal String.length) in Heq. rewrite !string_length_app in Heq. lia.
Qed.

Lemma entry_split (segs : list string) (rest : string) :
  segs <> [] -> Forall (fun seg => Storage.plain seg = true) segs ->
  Path.split (("/" +:+ String.concat "/" segs) +:+ "/" +:+ rest)
  = EmptyString :: segs ++ Path.split rest.
Proof.
  intros Hne Hsegs.
  rewrite string_app_assoc, !sep_app.
  change (String "/" (String.concat "/" segs +:+ String "/" rest))
    with (EmptyString +:+ String "/" (String.concat "/" segs +:+ String "/" rest)).
  rewrite !split_app_sep, split_concat; done.
Qed.

(** The two directories [init] sets up are siblings. *)
Lemma init_dirs (env : Storage.Env) (st : Storage.State) :
  Path.isAbsolute (Storage.cwd env) = true ->
  exists segs, Forall (fun s => Storage.plain s = true) segs /\
    Storage.tarballsDir (Storage.init env st)
    = "/" +:+ String.concat "/" (segs ++ ["tarballs"]) /\
    Storage.artifactsDir (Storage.init env st)
    = "/" +:+ String.concat "/" (segs ++ ["artifacts"]).
Proof.
  intros Hcwd. unfold Storage.init. simpl.
  destruct (resolve_absolute (Storage.cwd env) (Storage.getStorageDir env) Hcwd)
    as (segs & Hsegs & ->).
  exists segs. split_and!; [done|by apply join_normal..].
Qed.

Lemma init_dirs_apart (env : Storage.Env) (st : Storage.State) (a b : string) :
  Path.isAbsolute (Storage.cwd env) = true ->
  Storage.tarballsDir (Storage.init env st) +:+ "/" +:+ a
  <> Storage.artifactsDir (Storage.init env st) +:+ "/" +:+ b.
Proof.
  intros Hcwd Heq.
  destruct (init_dirs env st Hcwd) as (segs & Hsegs & Ht & Ha).
  rewrite Ht, Ha in Heq. apply (f_equal Path.split) in Heq.
  assert (forall d, Storage.plain d = true ->
            Forall (fun s => Storage.plain s = true) (segs ++ [d])) as Hall.
  { intros d Hd. apply Forall_app. split; [done|by constructor]. }
  rewrite (entry_split (segs ++ ["tarballs"])) in Heq;
    [|by destruct segs|by apply Hall].
  rewrite (entry_split (segs ++ ["artifacts"])) in Heq;
    [|by destruct segs|by apply Hall].
  rewrite <- !app_assoc in Heq. injection Heq as Heq.
  apply app_inv_head in Heq. done.
Qed.

Lemma lookup_saveArtifact_other (env : Storage.Env) (st : Storage.State)
    (jobId originalFilename : string) (data : Storage.Payload) (fs : FS)
    (p : string) :
  Storage.initialised st = true ->
  Storage.normal_dir (Storage.artifactsDir st) ->
  p <> Storage.artifactsDir st +:+ "/" +:+ Storage.sanitize jobId +:+ "-"
       +:+ Storage.sanitize originalFilename ->
  (Storage.saveArtifact env st jobId originalFilename data fs).2 !! p = fs !! p.
Proof.
  intros Hinit Hdir Hp. rewrite saveArtifact_normal; [|done..]. cbv zeta.
  pose proof (writeWithLimit_other _ data Storage.MAX_ARTIFACT_BYTES fs p Hp) as H.
  by destruct (Storage.writeWithLimit _ _ _ _) as [[?|?] ?].
Qed.

Lemma lookup_saveTarball_other (env : Storage.Env) (st : Storage.State)
    (jobId : string) (data : Storage.Payload) (fs : FS) (p : string) :
  Storage.initialised st = true ->
  Storage.normal_dir (Storage.tarballsDir st) ->
  p <> Storage.tarballsDir st +:+ "/" +:+ Storage.sanitize jobId +:+ ".tar.gz" ->
  (Storage.saveTarball env st jobId data fs).2 !! p = fs !! p.
Proof.
  intros Hinit Hdir Hp. rewrite saveTarball_normal; [|done..]. cbv zeta.
  pose proof (writeWithLimit_other _ data Storage.MAX_TARBALL_BYTES fs p Hp) as H.
  by destruct (Storage.writeWithLimit _ _ _ _) as [[?|?] ?].
Qed.

Lemma getTarballPath_normal (env : Storage.Env) (st : Storage.State)
    (jobId : string) (fs : FS) :
  Storage.initialised st = true ->
  Storage.normal_dir (Storage.tarballsDir st) ->
  Storage.getTarballPath env st jobId fs
  = let dest := Storage.tarballsDir st +:+ "/" +:+ Storage.sanitize jobId
                +:+ ".tar.gz" in
    Ok (if Storage.exists_at dest fs then Some dest else None).
Proof.
  intros Hinit Hdir. unfold Storage.getTarballPath, Storage.ensureInit.
  rewrite Hinit. simpl.
  rewrite safePath_normal; [done|done|apply tarball_filename_plain].
Qed.

Lemma getArtifactPath_normal (env : Storage.Env) (st : Storage.State)
    (jobId filename : string) (fs : FS) :
  Storage.initialised st = true ->
  Storage.normal_dir (Storage.artifactsDir st) ->
  Storage.getArtifactPath env st jobId filename fs
  = let dest := Storage.artifactsDir st +:+ "/" +:+ Storage.sanitize jobId
                +:+ "-" +:+ Storage.sanitize filename in
    Ok (if Storage.exists_at dest fs then Some dest else None).
Proof.
  intros Hinit Hdir. unfold Storage.getArtifactPath, Storage.ensureInit.
  rewrite Hinit. simpl.
  rewrite safePath_normal; [done|done|apply artifact_filename_plain].
Qed.


(** X11. Tarballs and artifacts are kept apart, and so are the tarballs of
    different jobs.  Whatever its outcome, saving an artifact changes no
    job's tarball, saving a tarball changes no artifact, and saving the
    tarball of one job changes no tarball of a job whose sanitized id is a
    different one. *)
Theorem saves_do_not_interfere (env : Storage.Env) (st0 : Storage.State)
    (jobId filename : string) (data : Storage.Payload) (fs : FS) :
  Path.isAbsolute (Storage.cwd env) = true ->
  let st := Storage.init env st0 in
  let after_artifact := (Storage.saveArtifact env st jobId filename data fs).2 in
  let after_tarball := (Storage.saveTarball env st jobId data fs).2 in
  (forall jobId',
     Storage.getTarballPath env st jobId' after_artifact
     = Storage.getTarballPath env st jobId' fs /\
     forall p, Storage.getTarballPath env st jobId' fs = Ok (Some p) ->
               after_artifact !! p = fs !! p) /\
  (forall jobId' filename',
     Storage.getArtifactPath env st jobId' filename' after_tarball
     = Storage.getArtifactPath env st jobId' filename' fs /\
     forall p, Storage.getArtifactPath env st jobId' filename' fs = Ok (Some p) ->
               after_tarball !! p = fs !! p) /\
  (forall jobId',
     Storage.sanitize jobId' <> Storage.sanitize jobId ->
     Storage.getTarballPath env st jobId' after_tarball
     = Storage.getTarballPath env st jobId' fs /\
     forall p, Storage.getTarballPath env st jobId' fs = Ok (Some p) ->
               after_tarball !! p = fs !! p).
Proof.
  intros Hcwd st after_artifact after_tarball.
  destruct (init_normal env st0 Hcwd) as (Ht & Ha & Hinit). fold st in Ht, Ha, Hinit.
  assert (forall jobId', after_artifact !! (Storage.tarballsDir st +:+ "/"
            +:+ Storage.sanitize jobId' +:+ ".tar.gz")
          = fs !! (Storage.tarballsDir st +:+ "/" +:+ Storage.sanitize jobId'
                   +:+ ".tar.gz")) as H1.
  { intros jobId'. apply lookup_saveArtifact_other; [done..|].
    apply init_dirs_apart, Hcwd. }
  assert (forall jobId' filename', after_tarball !! (Storage.artifactsDir st +:+ "/"
            +:+ Storage.sanitize jobId' +:+ "-" +:+ Storage.sanitize filename')
          = fs !! (Storage.artifactsDir st +:+ "/" +:+ Storage.sanitize jobId'
                   +:+ "-" +:+ Storage.sanitize filename')) as H2.
  { intros jobId' filename'. apply lookup_saveTarball_other; [done..|].
    intros Heq. symmetry in Heq. by apply init_dirs_apart in Heq. }
  assert (forall jobId', Storage.sanitize jobId' <> Storage.sanitize jobId ->
            after_tarball !! (Storage.tarballsDir st +:+ "/"
              +:+ Storage.sanitize jobId' +:+ ".tar.gz")
            = fs !! (Storage.tarballsDir st +:+ "/" +:+ Storage.sanitize jobId'
                     +:+ ".tar.gz")) as H3.
  { intros jobId' Hne. apply lookup_saveTarball_other; [done..|].
    intros Heq. apply string_app_inv_head, string_app_inv_head in Heq.
    by apply string_app_inv_tail in Heq. }
  split_and!.
  - intros jobId'. rewrite !getTarballPath_normal; [|done..]. cbv zeta.
    unfold Storage.exists_at. rewrite H1. split; [done|].
    intros p. destruct (fs !! _) eqn:E; [|done]. intros [= <-]. by rewrite H1.
  - intros jobId' filename'. rewrite !getArtifactPath_normal; [|done..]. cbv zeta.
    unfold Storage.exists_at. rewrite H2. split; [done|].
    intros p. destruct (fs !! _) eqn:E; [|done]. intros [= <-]. by rewrite H2.
  - intros jobId' Hne. rewrite !getTarballPath_normal; [|done..]. cbv zeta.
    unfold Storage.exists_at. rewrite (H3 _ Hne). split; [done|].
    intros p. destruct (fs !! _) eqn:E; [|done]. intros [= <-]. by rewrite H3.
Qed.

Lemma saves_do_not_interfere_witness :
  Storage.getTarballPath {| Storage.cwd := "/srv"; Storage.STORAGE_DIR := None |}
    (Storage.init {| Storage.cwd := "/srv"; Storage.STORAGE_DIR := None |}
       Storage.initial) "job-2"
    (Storage.saveArtifact {| Storage.cwd := "/srv"; Storage.STORAGE_DIR := None |}
       (Storage.init {| Storage.cwd := "/srv"; Storage.STORAGE_DIR := None |}
          Storage.initial) "job-1" "app.apk" (Storage.Buffer [Byte.x01]) ∅).2
  = Storage.getTarballPath {| Storage.cwd := "/srv"; Storage.STORAGE_DIR := None |}
      (Storage.init {| Storage.cwd := "/srv"; Storage.STORAGE_DIR := None |}
         Storage.initial) "job-2" ∅.
Proof.
  pose proof (saves_do_not_interfere
                {| Storage.cwd := "/srv"; Storage.STORAGE_DIR := None |}
                Storage.initial "job-1" "app.apk" (Storage.Buffer [Byte.x01]) ∅
                eq_refl) as (H & _).
  exact (proj1 (H "job-2")).
Defined.


(** *** Listing a directory and deleting the files of a job *)

Lemma strip_prefix_Some (prefix s rest : string) :
  Storage.strip_prefix prefix s = Some rest <-> s = prefix +:+ rest.
Proof.
  revert s. induction prefix as [|a prefix IH]; intros s; simpl.
  - rewrite string_app_nil_l. split; [by intros [= ->]|by intros ->].
  - rewrite string_app_cons. destruct s as [|b s]; [done|].
    destruct (Ascii.eqb a b) eqn:E.
    + apply Ascii.eqb_eq in E as ->. rewrite IH. split; [by intros ->|by intros [= ->]].
    + apply Ascii.eqb_neq in E. split; [done|]. intros [= <- _]. done.
Qed.

Lemma string_prefix_inv (prefix s : string) :
  String.prefix prefix s = true -> exists rest, s = prefix +:+ rest.
Proof.
  revert s. induction prefix as [|a prefix IH]; intros [|b s]; simpl; try done.
  - intros _. by exists EmptyString.
  - intros _. by exists (String b s).
  - destruct (ascii_dec a b) as [->|]; [|done].
    intros [rest ->]%IH. exists rest. by rewrite string_app_cons.
Qed.

Lemma readdir_elem (dir : string) (fs : FS) (name : string) :
  In name (Storage.readdir dir fs) <->
  is_Some (fs !! (dir +:+ "/" +:+ name)) /\ name <> EmptyString /\
  Storage.contains_char Storage.is_sep name = false.
Proof.
  rewrite <- list_elem_of_In. unfold Storage.readdir.
  rewrite list_elem_of_omap. split.
  - intros ([k v] & Hin%elem_of_map_to_list & Hf). simpl in Hf.
    destruct (Storage.strip_prefix _ k) as [rest|] eqn:Es; [|done].
    apply strip_prefix_Some in Es as ->.
    destruct (String.eqb rest EmptyString) eqn:E0; [done|].
    destruct (Storage.contains_char Storage.is_sep rest) eqn:E1; [done|].
    simpl in Hf. injection Hf as <-. apply String.eqb_neq in E0.
    rewrite string_app_assoc in Hin. by rewrite Hin.
  - intros ([v Hv] & H0 & H1). exists (dir +:+ "/" +:+ name, v). split.
    + by apply elem_of_map_to_list.
    + simpl. assert (Storage.strip_prefix (dir +:+ "/") (dir +:+ "/" +:+ name)
                     = Some name) as ->.
      { apply strip_prefix_Some. by rewrite string_app_assoc. }
      apply String.eqb_neq in H0. by rewrite H0, H1.
Qed.

Lemma rm_all_lookup (cwd dir : string) (names : list string) :
  Storage.normal_dir dir ->
  Forall (fun name => Storage.plain name = true) names ->
  forall fs : FS,
    (Storage.rm_all cwd dir names fs).1 = Ok tt /\
    forall p, (Storage.rm_all cwd dir names fs).2 !! p
              = if existsb (fun name => String.eqb p (dir +:+ "/" +:+ name)) names
                then None else fs !! p.
Proof.
  intros Hdir. induction 1 as [|name names Hname _ IH]; intros fs; [done|].
  simpl. rewrite safePath_normal; [|done..].
  destruct (IH (delete (dir +:+ "/" +:+ name) fs)) as [IH1 IH2].
  split; [done|]. intros p. rewrite IH2.
  destruct (String.eqb p (dir +:+ "/" +:+ name)) eqn:E; simpl.
  - apply String.eqb_eq in E as ->. rewrite lookup_delete_eq. by destruct (existsb _ _).
  - apply String.eqb_neq in E. by rewrite lookup_delete_ne.
Qed.

Lemma job_prefix_plain (jobId name : string) :
  String.prefix (Storage.sanitize jobId +:+ "-") name = true ->
  Storage.contains_char Storage.is_sep name = false ->
  Storage.plain name = true.
Proof.
  intros [rest ->]%string_prefix_inv Hsep.
  pose proof (sanitize_clean jobId) as [Hne _].
  assert (Storage.contains_char is_dash ((Storage.sanitize jobId +:+ "-") +:+ rest)
          = true) as Hdash.
  { rewrite !contains_char_app. simpl. by rewrite orb_true_r. }
  apply plain_intro; [| | |done].
  - destruct (Storage.sanitize jobId); [done|]. by rewrite !string_app_cons.
  - intros E. by rewrite E in Hdash.
  - intros E. by rewrite E in Hdash.
Qed.

(** The files [deleteJobFiles] removes: the tarball of the job and the
    entries of the artifacts directory that start with the job's prefix. *)
Lemma deleteJobFiles_lookup (env : Storage.Env) (st0 : Storage.State)
    (jobId : string) (fs : FS) :
  Path.isAbsolute (Storage.cwd env) = true ->
  let st := Storage.init env st0 in
  let tarball := Storage.tarballsDir st +:+ "/" +:+ Storage.sanitize jobId
                 +:+ ".tar.gz" in
  let fs' := (Storage.deleteJobFiles env st jobId fs).2 in
  (Storage.deleteJobFiles env st jobId fs).1 = Ok tt /\
  fs' !! tarball = None /\
  (forall name,
     String.prefix (Storage.sanitize jobId +:+ "-") name = true ->
     Storage.contains_char Storage.is_sep name = false ->
     fs' !! (Storage.artifactsDir st +:+ "/" +:+ name) = None) /\
  (forall p, fs' !! p = None \/ fs' !! p = fs !! p) /\
  (forall p,
     p <> tarball ->
     (forall name,
        String.prefix (Storage.sanitize jobId +:+ "-") name = true ->
        p <> Storage.artifactsDir st +:+ "/" +:+ name) ->
     fs' !! p = fs !! p).
Proof.
  intros Hcwd st tarball fs'.
  destruct (init_normal env st0 Hcwd) as (Ht & Ha & Hinit). fold st in Ht, Ha, Hinit.
  set (names := List.filter
                  (fun name => String.prefix (Storage.sanitize jobId +:+ "-") name)
                  (Storage.readdir (Storage.artifactsDir st) (delete tarball fs))).
  assert (Storage.deleteJobFiles env st jobId fs
          = Storage.rm_all (Storage.cwd env) (Storage.artifactsDir st) names
              (delete tarball fs)) as Hrun.
  { unfold Storage.deleteJobFiles, Storage.ensureInit. rewrite Hinit. simpl.
    rewrite safePath_normal; [done|done|apply tarball_filename_plain]. }
  assert (forall name, In name names <->
            String.prefix (Storage.sanitize jobId +:+ "-") name = true /\
            is_Some (fs !! (Storage.artifactsDir st +:+ "/" +:+ name)) /\
            Storage.contains_char Storage.is_sep name = false) as Hnames.
  { intros name. unfold names. rewrite filter_In, readdir_elem.
    rewrite lookup_delete_ne; [|apply init_dirs_apart, Hcwd].
    split; [tauto|]. intros (Hp & Hs & Hsep). split_and!; try done.
    intros ->. by destruct (Storage.sanitize jobId). }
  assert (Forall (fun name => Storage.plain name = true) names) as Hplain.
  { apply List.Forall_forall. intros name (Hp & _ & Hsep)%Hnames.
    by apply (job_prefix_plain jobId). }
  destruct (rm_all_lookup (Storage.cwd env) (Storage.artifactsDir st) names Ha Hplain
              (delete tarball fs)) as [Hok Hlook].
  unfold fs'. rewrite Hrun. split; [done|].
  assert (forall p,
            existsb (fun name => String.eqb p (Storage.artifactsDir st +:+ "/" +:+ name))
              names = true <->
            exists name, In name names /\
                         p = Storage.artifactsDir st +:+ "/" +:+ name) as Hex.
  { intros p. rewrite existsb_exists. split; intros (name & Hin & Hp);
      exists name; split; try done; by apply String.eqb_eq. }
  split_and!.
  - rewrite Hlook. destruct (existsb _ _); [done|]. by rewrite lookup_delete_eq.
  - intros name Hp Hsep. rewrite Hlook.
    destruct (existsb _ _) eqn:E; [done|].
    rewrite lookup_delete_ne; [|apply init_dirs_apart, Hcwd].
    destruct (fs !! _) as [v|] eqn:Ev; [|done].
    assert (existsb (fun name0 => String.eqb (Storage.artifactsDir st +:+ "/" +:+ name)
              (Storage.artifactsDir st +:+ "/" +:+ name0)) names = true) as E'.
    { apply Hex. exists name. split; [|done]. apply Hnames. by rewrite Ev. }
    congruence.
  - intros p. rewrite Hlook. destruct (existsb _ _); [by left|].
    destruct (decide (p = tarball)) as [->|Hne].
    + left. by rewrite lookup_delete_eq.
    + right. by rewrite lookup_delete_ne.
  - intros p Hne Hnot. rewrite Hlook.
    destruct (existsb _ _) eqn:E.
    + apply Hex in E as (name & (Hp & _)%Hnames & ->). by destruct (Hnot name Hp).
    + by rewrite lookup_delete_ne.
Qed.


(** X12. [deleteJobFiles] on an initialised storage whose two directories
    hold files only: it succeeds; afterwards the job has no tarball and no
    artifact, and no entry of the artifacts directory starts with the job's
    prefix; it creates and changes nothing; the tarball of a job with another
    sanitized id, and the artifacts of a job with another sanitized id of the
    same length, are as before; and deleting a second time changes
    nothing. *)
Theorem deleteJobFiles_removes_job_files (env : Storage.Env)
    (st0 : Storage.State) (jobId : string) (fs : FS) :
  Path.isAbsolute (Storage.cwd env) = true ->
  let st := Storage.init env st0 in
  Storage.flat (Storage.tarballsDir st) fs ->
  Storage.flat (Storage.artifactsDir st) fs ->
  let fs' := (Storage.deleteJobFiles env st jobId fs).2 in
  (Storage.deleteJobFiles env st jobId fs).1 = Ok tt /\
  Storage.getTarballPath env st jobId fs' = Ok None /\
  (forall filename, Storage.getArtifactPath env st jobId filename fs' = Ok None) /\
  (forall rest,
     String.prefix (Storage.sanitize jobId +:+ "-") rest = true ->
     fs' !! (Storage.artifactsDir st +:+ "/" +:+ rest) = None) /\
  (forall p, fs' !! p = None \/ fs' !! p = fs !! p) /\
  (forall jobId',
     Storage.sanitize jobId' <> Storage.sanitize jobId ->
     Storage.getTarballPath env st jobId' fs'
     = Storage.getTarballPath env st jobId' fs) /\
  (forall jobId' filename,
     Storage.sanitize jobId' <> Storage.sanitize jobId ->
     String.length (Storage.sanitize jobId')
     = String.length (Storage.sanitize jobId) ->
     Storage.getArtifactPath env st jobId' filename fs'
     = Storage.getArtifactPath env st jobId' filename fs) /\
  Storage.deleteJobFiles env st jobId fs' = (Ok tt, fs').
Proof.
  intros Hcwd st Hflat_t Hflat_a fs'.
  destruct (init_normal env st0 Hcwd) as (Ht & Ha & Hinit). fold st in Ht, Ha, Hinit.
  destruct (deleteJobFiles_lookup env st0 jobId fs Hcwd)
    as (Hok & Htar & Hart & Hless & Hother).
  fold st in Hok, Htar, Hart, Hless, Hother. fold fs' in Htar, Hart, Hless, Hother.
  assert (forall rest,
            String.prefix (Storage.sanitize jobId +:+ "-") rest = true ->
            fs' !! (Storage.artifactsDir st +:+ "/" +:+ rest) = None) as Hart'.
  { intros rest Hp.
    destruct (Storage.contains_char Storage.is_sep rest) eqn:Hsep; [|by apply Hart].
    destruct (Hless (Storage.artifactsDir st +:+ "/" +:+ rest)) as [H|H]; [done|].
    rewrite H. destruct (fs !! _) as [v|] eqn:Ev; [|done].
    assert (Storage.plain rest = true) as Hplain by (apply Hflat_a; by rewrite Ev).
    apply plain_no_sep in Hplain. congruence. }
  split_and!; try done.
  - rewrite getTarballPath_normal; [|done..]. cbv zeta.
    unfold Storage.exists_at. by rewrite Htar.
  - intros filename. rewrite getArtifactPath_normal; [|done..]. cbv zeta.
    unfold Storage.exists_at. rewrite <- (string_app_assoc (Storage.sanitize jobId)).
    rewrite Hart'; [done|apply string_prefix_app].
  - intros jobId' Hne. rewrite !getTarballPath_normal; [|done..]. cbv zeta.
    unfold Storage.exists_at. rewrite Hother; [done| |].
    + intros Heq. apply string_app_inv_head, string_app_inv_head in Heq.
      by apply string_app_inv_tail in Heq.
    + intros name _. apply init_dirs_apart, Hcwd.
  - intros jobId' filename Hne Hlen. rewrite !getArtifactPath_normal; [|done..].
    cbv zeta. unfold Storage.exists_at. rewrite Hother; [done| |].
    + intros Heq. symmetry in Heq. by apply init_dirs_apart in Heq.
    + intros name [rest ->]%string_prefix_inv Heq.
      apply string_app_inv_head, string_app_inv_head in Heq.
      rewrite string_app_assoc in Heq.
      by apply string_app_same_length in Heq as [? _].
  - destruct (deleteJobFiles_lookup env st0 jobId fs' Hcwd)
      as (Hok2 & _ & _ & Hless2 & Hother2).
    fold st in Hok2, Hless2, Hother2.
    destruct (Storage.deleteJobFiles env st jobId fs') as [r fs''] eqn:E.
    cbn [fst snd] in Hok2, Hless2, Hother2. subst r. f_equal.
    apply map_eq. intros p.
    destruct (fs' !! p) as [v|] eqn:Ev.
    + rewrite Hother2; [done| |].
      * intros ->. by rewrite Htar in Ev.
      * intros name Hp ->. rewrite Hart' in Ev; done.
    + destruct (Hless2 p) as [H|H]; congruence.
Qed.

Lemma deleteJobFiles_removes_job_files_witness :
  Storage.getTarballPath {| Storage.cwd := "/srv"; Storage.STORAGE_DIR := None |}
    (Storage.init {| Storage.cwd := "/srv"; Storage.STORAGE_DIR := None |}
       Storage.initial) "job-1"
    (Storage.deleteJobFiles {| Storage.cwd := "/srv"; Storage.STORAGE_DIR := None |}
       (Storage.init {| Storage.cwd := "/srv"; Storage.STORAGE_DIR := None |}
          Storage.initial) "job-1"
       (<["/data/tarballs/job-1.tar.gz" := [Byte.x01]]>
          (<["/data/artifacts/job-1-app.apk" := [Byte.x02]]> ∅))).2
  = Ok None.
Proof.
  assert (forall dir rest,
            (dir = "/data/tarballs" \/ dir = "/data/artifacts") ->
            is_Some ((<["/data/tarballs/job-1.tar.gz" := [Byte.x01]]>
                        (<["/data/artifacts/job-1-app.apk" := [Byte.x02]]> ∅) : FS)
                       !! (dir +:+ "/" +:+ rest)) ->
            Storage.plain rest = true) as Hflat.
  { intros dir rest Hdir [v Hv].
    apply lookup_insert_Some in Hv as [[Heq _]|[_ Hv]];
      [|apply lookup_insert_Some in Hv as [[Heq _]|[_ Hv]]; [|done]].
    - destruct Hdir as [-> | ->].
      + apply (string_app_inv_head "/data/tarballs/" "job-1.tar.gz") in Heq.
        by subst rest.
      + by vm_compute in Heq.
    - destruct Hdir as [-> | ->].
      + by vm_compute in Heq.
      + apply (string_app_inv_head "/data/artifacts/" "job-1-app.apk") in Heq.
        by subst rest. }
  pose proof (deleteJobFiles_removes_job_files
                {| Storage.cwd := "/srv"; Storage.STORAGE_DIR := None |}
                Storage.initial "job-1"
                (<["/data/tarballs/job-1.tar.gz" := [Byte.x01]]>
                   (<["/data/artifacts/job-1-app.apk" := [Byte.x02]]> ∅))
                eq_refl
                (fun rest => Hflat _ rest (or_introl eq_refl))
                (fun rest => Hflat _ rest (or_intror eq_refl))) as (_ & H & _).
  exact H.
Defined.


Lemma flat_empty (dir : string) : Storage.flat dir (∅ : FS).
Proof. intros rest [v Hv]. by rewrite lookup_empty in Hv. Qed.

Lemma flat_insert (dir path : string) (content : list Byte.byte) (fs : FS) :
  Storage.flat dir fs ->
  (forall rest, path = dir +:+ "/" +:+ rest -> Storage.plain rest = true) ->
  Storage.flat dir (<[path := content]> fs).
Proof.
  intros Hflat Hpath rest [v Hv].
  apply lookup_insert_Some in Hv as [[Heq _]|[_ Hv]]; [by apply Hpath|].
  apply Hflat. by rewrite Hv.
Qed.

(** X13. [deleteJobFiles] selects artifacts by the prefix made of the
    sanitized job id and a dash, so it also removes every artifact of
    another job whose sanitized id starts with that prefix. *)
Theorem deleteJobFiles_prefix_collision (env : Storage.Env)
    (st0 : Storage.State) (jobId jobId' filename : string) (fs : FS) :
  Path.isAbsolute (Storage.cwd env) = true ->
  let st := Storage.init env st0 in
  Storage.flat (Storage.tarballsDir st) fs ->
  Storage.flat (Storage.artifactsDir st) fs ->
  String.prefix (Storage.sanitize jobId +:+ "-") (Storage.sanitize jobId') = true ->
  Storage.getArtifactPath env st jobId' filename
    (Storage.deleteJobFiles env st jobId fs).2 = Ok None.
Proof.
  intros Hcwd st _ _ [rest Hrest]%string_prefix_inv.
  destruct (init_normal env st0 Hcwd) as (Ht & Ha & Hinit). fold st in Ht, Ha, Hinit.
  destruct (deleteJobFiles_lookup env st0 jobId fs Hcwd) as (_ & _ & Hart & _).
  fold st in Hart.
  rewrite getArtifactPath_normal; [|done..]. cbv zeta. unfold Storage.exists_at.
  rewrite Hart; [done| |].
  - rewrite Hrest, (string_app_assoc (Storage.sanitize jobId +:+ "-")).
    apply string_prefix_app.
  - apply plain_no_sep, artifact_filename_plain.
Qed.

Lemma deleteJobFiles_prefix_collision_witness :
  Storage.getArtifactPath {| Storage.cwd := "/srv"; Storage.STORAGE_DIR := None |}
    (Storage.init {| Storage.cwd := "/srv"; Storage.STORAGE_DIR := None |}
       Storage.initial) "a-b" "app.apk"
    (<["/data/artifacts/a-b-app.apk" := [Byte.x01]]> ∅)
  = Ok (Some "/data/artifacts/a-b-app.apk") /\
  Storage.getArtifactPath {| Storage.cwd := "/srv"; Storage.STORAGE_DIR := None |}
    (Storage.init {| Storage.cwd := "/srv"; Storage.STORAGE_DIR := None |}
       Storage.initial) "a-b" "app.apk"
    (Storage.deleteJobFiles {| Storage.cwd := "/srv"; Storage.STORAGE_DIR := None |}
       (Storage.init {| Storage.cwd := "/srv"; Storage.STORAGE_DIR := None |}
          Storage.initial) "a"
       (<["/data/artifacts/a-b-app.apk" := [Byte.x01]]> ∅)).2
  = Ok None.
Proof.
  split; [by vm_compute|].
  apply (deleteJobFiles_prefix_collision
           {| Storage.cwd := "/srv"; Storage.STORAGE_DIR := None |}
           Storage.initial "a" "a-b" "app.apk").
  - reflexivity.
  - apply flat_insert; [apply flat_empty|].
    intros rest Heq. by vm_compute in Heq.
  - apply flat_insert; [apply flat_empty|].
    intros rest Heq.
    apply (string_app_inv_head "/data/artifacts/" "a-b-app.apk") in Heq.
    by subst rest.
  - by vm_compute.
Defined.

(** X14. The storage layer keeps its two directories flat: starting from
    directories that hold files only (an empty store, for one), whatever
    [saveTarball], [saveArtifact] and [deleteJobFiles] are asked and
    whatever their outcome, every file below the tarballs and the artifacts
    directory is a direct entry of it. *)
Theorem storage_keeps_directories_flat (env : Storage.Env)
    (st0 : Storage.State) (fs : FS) :
  Path.isAbsolute (Storage.cwd env) = true ->
  let st := Storage.init env st0 in
  Storage.flat (Storage.tarballsDir st) fs ->
  Storage.flat (Storage.artifactsDir st) fs ->
  (forall jobId data,
     Storage.flat (Storage.tarballsDir st) (Storage.saveTarball env st jobId data fs).2 /\
     Storage.flat (Storage.artifactsDir st) (Storage.saveTarball env st jobId data fs).2) /\
  (forall jobId filename data,
     Storage.flat (Storage.tarballsDir st)
       (Storage.saveArtifact env st jobId filename data fs).2 /\
     Storage.flat (Storage.artifactsDir st)
       (Storage.saveArtifact env st jobId filename data fs).2) /\
  (forall jobId,
     Storage.flat (Storage.tarballsDir st) (Storage.deleteJobFiles env st jobId fs).2 /\
     Storage.flat (Storage.artifactsDir st) (Storage.deleteJobFiles env st jobId fs).2).
Proof.
  intros Hcwd st Hflat_t Hflat_a.
  destruct (init_normal env st0 Hcwd) as (Ht & Ha & Hinit). fold st in Ht, Ha, Hinit.
  split_and!.
  - intros jobId data. split; intros rest Hsome.
    + destruct (decide (Storage.tarballsDir st +:+ "/" +:+ rest
                        = Storage.tarballsDir st +:+ "/" +:+ Storage.sanitize jobId
                          +:+ ".tar.gz")) as [Heq|Hne].
      * apply string_app_inv_head, string_app_inv_head in Heq as ->.
        apply tarball_filename_plain.
      * rewrite lookup_saveTarball_other in Hsome; [|done..]. by apply Hflat_t.
    + rewrite lookup_saveTarball_other in Hsome; [by apply Hflat_a|done..|].
      intros Heq. symmetry in Heq. by apply init_dirs_apart in Heq.
  - intros jobId filename data. split; intros rest Hsome.
    + rewrite lookup_saveArtifact_other in Hsome; [by apply Hflat_t|done..|].
      apply init_dirs_apart, Hcwd.
    + destruct (decide (Storage.artifactsDir st +:+ "/" +:+ rest
                        = Storage.artifactsDir st +:+ "/" +:+ Storage.sanitize jobId
                          +:+ "-" +:+ Storage.sanitize filename)) as [Heq|Hne].
      * apply string_app_inv_head, string_app_inv_head in Heq as ->.
        apply artifact_filename_plain.
      * rewrite lookup_saveArtifact_other in Hsome; [|done..]. by apply Hflat_a.
  - intros jobId.
    destruct (deleteJobFiles_lookup env st0 jobId fs Hcwd) as (_ & _ & _ & Hless & _).
    fold st in Hless.
    split; intros rest [v Hv].
    + apply Hflat_t. destruct (Hless (Storage.tarballsDir st +:+ "/" +:+ rest));
        [congruence|]. exists v. congruence.
    + apply Hflat_a. destruct (Hless (Storage.artifactsDir st +:+ "/" +:+ rest));
        [congruence|]. exists v. congruence.
Qed.

Lemma storage_keeps_directories_flat_witness :
  Storage.flat "/data/artifacts"
    (Storage.saveArtifact {| Storage.cwd := "/srv"; Storage.STORAGE_DIR := None |}
       (Storage.init {| Storage.cwd := "/srv"; Storage.STORAGE_DIR := None |}
          Storage.initial) "../job" "a/b.apk" (Storage.Buffer [Byte.x01]) ∅).2.
Proof.
  pose proof (storage_keeps_directories_flat
                {| Storage.cwd := "/srv"; Storage.STORAGE_DIR := None |}
                Storage.initial ∅ eq_refl (flat_empty _) (flat_empty _)) as (_ & H & _).
  exact (proj2 (H "../job" "a/b.apk" (Storage.Buffer [Byte.x01]))).
Defined.


(** *** Storage statistics *)

Lemma payload_content_length (data : Storage.Payload) :
  Z.of_nat (length (Storage.payload_content data)) = Storage.payload_bytes data.
Proof.
  destruct data as [d|chunks]; simpl; [done|].
  induction chunks as [|c chunks IH]; [done|].
  simpl. rewrite length_app. lia.
Qed.

Lemma endsWithSlash_no_sep (s : string) :
  Storage.contains_char Storage.is_sep s = false -> Path.endsWithSlash s = false.
Proof.
  induction s as [|c s IH]; [done|]. rewrite contains_char_cons.
  intros [Hc Hs]%orb_false_iff. destruct s as [|c' s]; [exact Hc|]. exact (IH Hs).
Qed.

Lemma join_entry (dir name : string) :
  Storage.normal_dir dir -> Storage.plain name = true ->
  Path.join [dir; name] = dir +:+ "/" +:+ name.
Proof.
  intros (segs & Hne & Hsegs & ->) Hname.
  rewrite join_normal; [|done|done|by apply endsWithSlash_no_sep, plain_no_sep].
  rewrite concat_snoc; [|done]. by rewrite string_app_assoc.
Qed.

Lemma NoDup_omap_keys {A B : Type} (f : string * A -> option B)
    (l : list (string * A)) :
  NoDup (l.*1) ->
  (forall x y b, f x = Some b -> f y = Some b -> x.1 = y.1) ->
  NoDup (omap f l).
Proof.
  intros Hnd Hinj. induction l as [|x l IH]; [constructor|].
  simpl in Hnd. apply NoDup_cons in Hnd as [Hx Hnd]. simpl.
  destruct (f x) as [b|] eqn:Ef; [|by apply IH].
  apply NoDup_cons. split; [|by apply IH].
  intros (y & Hy & Efy)%list_elem_of_omap.
  apply Hx. rewrite (Hinj x y b Ef Efy). apply list_elem_of_fmap. by exists y.
Qed.

Lemma readdir_NoDup (dir : string) (fs : FS) : NoDup (Storage.readdir dir fs).
Proof.
  apply NoDup_omap_keys; [apply NoDup_fst_map_to_list|].
  intros [k v] [k' v'] name. simpl.
  destruct (Storage.strip_prefix _ k) as [rest|] eqn:E; [|done].
  destruct (Storage.strip_prefix _ k') as [rest'|] eqn:E'; [|by destruct (_ || _)].
  apply strip_prefix_Some in E as ->. apply strip_prefix_Some in E' as ->.
  destruct (_ || _); [done|]. destruct (_ || _); [done|]. congruence.
Qed.

Lemma readdir_insert_new (dir name : string) (content : list Byte.byte) (fs : FS) :
  fs !! (dir +:+ "/" +:+ name) = None ->
  Storage.plain name = true ->
  Storage.readdir dir (<[dir +:+ "/" +:+ name := content]> fs)
  ≡ₚ name :: Storage.readdir dir fs.
Proof.
  intros Hnew Hname. apply NoDup_Permutation.
  - apply readdir_NoDup.
  - apply NoDup_cons. split; [|apply readdir_NoDup].
    rewrite list_elem_of_In, readdir_elem, Hnew. by intros [[? ?] _].
  - intros e. rewrite elem_of_cons, !list_elem_of_In, !readdir_elem. split.
    + intros (Hsome & H0 & H1).
      destruct (decide (e = name)) as [->|Hne]; [by left|right].
      rewrite lookup_insert_ne in Hsome; [done|].
      intros Heq. by apply string_app_inv_head, string_app_inv_head in Heq.
    + intros [->|(Hsome & H0 & H1)].
      * rewrite lookup_insert_eq. split_and!; [done| |by apply plain_no_sep].
        intros ->. done.
      * split_and!; [|done..]. destruct Hsome as [v Hv].
        rewrite lookup_insert_ne; [by rewrite Hv|]. intros Heq.
        apply string_app_inv_head, string_app_inv_head in Heq. congruence.
Qed.

Lemma readdir_insert_other (dir path : string) (content : list Byte.byte)
    (fs : FS) :
  (forall rest, path <> dir +:+ "/" +:+ rest) ->
  Storage.readdir dir (<[path := content]> fs) ≡ₚ Storage.readdir dir fs.
Proof.
  intros Hother. apply NoDup_Permutation; [apply readdir_NoDup..|].
  intros e. rewrite !list_elem_of_In, !readdir_elem.
  by rewrite lookup_insert_ne.
Qed.

Lemma sumSize_from (dir : string) (entries : list string) (fs : FS) (total : Z) :
  fold_left
    (fun total name =>
       match fs !! Path.join [dir; name] with
       | Some content => total + Z.of_nat (length content)
       | None => total
       end)
    entries total
  = total + Storage.sumSize dir entries fs.
Proof.
  unfold Storage.sumSize. revert total.
  induction entries as [|e entries IH]; intros total; cbn [fold_left]; [lia|].
  rewrite IH. rewrite (IH (match _ with Some _ => _ | None => _ end)).
  destruct (fs !! _); lia.
Qed.

Lemma sumSize_cons (dir name : string) (entries : list string) (fs : FS) :
  Storage.sumSize dir (name :: entries) fs
  = match fs !! Path.join [dir; name] with
    | Some content => Z.of_nat (length content)
    | None => 0
    end + Storage.sumSize dir entries fs.
Proof.
  unfold Storage.sumSize at 1. cbn [fold_left]. rewrite sumSize_from.
  by destruct (fs !! _).
Qed.

Lemma sumSize_perm (dir : string) (entries entries' : list string) (fs : FS) :
  entries ≡ₚ entries' ->
  Storage.sumSize dir entries fs = Storage.sumSize dir entries' fs.
Proof.
  induction 1 as [|x l l' _ IH|x y l|l l' l'' _ IH1 _ IH2]; [done| | |congruence].
  - by rewrite !sumSize_cons, IH.
  - rewrite !sumSize_cons. lia.
Qed.

Lemma sumSize_ext (dir : string) (entries : list string) (fs fs' : FS) :
  (forall name, In name entries ->
                fs !! Path.join [dir; name] = fs' !! Path.join [dir; name]) ->
  Storage.sumSize dir entries fs = Storage.sumSize dir entries fs'.
Proof.
  induction entries as [|e entries IH]; intros Hsame; [done|].
  rewrite !sumSize_cons, IH, (Hsame e); [done|by left|].
  intros name Hin. apply Hsame. by right.
Qed.

(** What a file written at [path] does to the figures of a directory. *)
Lemma dir_stats_new (dir name : string) (content : list Byte.byte) (fs : FS) :
  Storage.normal_dir dir -> Storage.flat dir fs ->
  Storage.plain name = true ->
  fs !! (dir +:+ "/" +:+ name) = None ->
  let fs' := <[dir +:+ "/" +:+ name := content]> fs in
  Z.of_nat (length (Storage.readdir dir fs'))
  = Z.of_nat (length (Storage.readdir dir fs)) + 1 /\
  Storage.sumSize dir (Storage.readdir dir fs') fs'
  = Storage.sumSize dir (Storage.readdir dir fs) fs + Z.of_nat (length content).
Proof.
  intros Hdir Hflat Hname Hnew fs'.
  pose proof (readdir_insert_new dir name content fs Hnew Hname) as Hperm.
  fold fs' in Hperm. split.
  - rewrite (Permutation_length Hperm). simpl. lia.
  - rewrite (sumSize_perm _ _ _ _ Hperm), sumSize_cons.
    rewrite join_entry; [|done..]. unfold fs' at 1. rewrite lookup_insert_eq.
    rewrite (sumSize_ext dir _ fs' fs); [lia|].
    intros e (Hsome & _)%readdir_elem.
    rewrite join_entry; [|done|by apply Hflat].
    unfold fs'. apply lookup_insert_ne. intros Heq. rewrite <- Heq, Hnew in Hsome.
    by destruct Hsome.
Qed.

Lemma dir_stats_other (dir path : string) (content : list Byte.byte) (fs : FS) :
  Storage.normal_dir dir -> Storage.flat dir fs ->
  (forall rest, path <> dir +:+ "/" +:+ rest) ->
  let fs' := <[path := content]> fs in
  Z.of_nat (length (Storage.readdir dir fs'))
  = Z.of_nat (length (Storage.readdir dir fs)) /\
  Storage.sumSize dir (Storage.readdir dir fs') fs'
  = Storage.sumSize dir (Storage.readdir dir fs) fs.
Proof.
  intros Hdir Hflat Hother fs'.
  pose proof (readdir_insert_other dir path content fs Hother) as Hperm.
  fold fs' in Hperm. split.
  - by rewrite (Permutation_length Hperm).
  - rewrite (sumSize_perm _ _ _ _ Hperm).
    apply sumSize_ext. intros e (Hsome & _)%readdir_elem.
    rewrite join_entry; [|done|by apply Hflat].
    unfold fs'. by apply lookup_insert_ne.
Qed.

(** X15. The statistics follow the saves.  On an initialised storage whose
    directories hold files only, saving the tarball of a job that has none
    yet, within the limit, raises [tarballCount] by one and
    [totalTarballBytes] by the size of the payload and leaves the artifact
    figures alone; saving an artifact that is not there yet does the same to
    the artifact figures and leaves the tarball figures alone. *)
Theorem getStorageStats_follows_saves (env : Storage.Env) (st0 : Storage.State)
    (jobId filename : string) (data : Storage.Payload) (fs : FS) :
  Path.isAbsolute (Storage.cwd env) = true ->
  let st := Storage.init env st0 in
  Storage.flat (Storage.tarballsDir st) fs ->
  Storage.flat (Storage.artifactsDir st) fs ->
  exists before, Storage.getStorageStats st fs = Ok before /\
  (Storage.payload_bytes data <= Storage.MAX_TARBALL_BYTES ->
   Storage.getTarballPath env st jobId fs = Ok None ->
   exists after,
     Storage.getStorageStats st (Storage.saveTarball env st jobId data fs).2
     = Ok after /\
     Storage.tarballCount after = Storage.tarballCount before + 1 /\
     Storage.totalTarballBytes after
     = Storage.totalTarballBytes before + Storage.payload_bytes data /\
     Storage.artifactCount after = Storage.artifactCount before /\
     Storage.totalArtifactBytes after = Storage.totalArtifactBytes before) /\
  (Storage.payload_bytes data <= Storage.MAX_ARTIFACT_BYTES ->
   Storage.getArtifactPath env st jobId filename fs = Ok None ->
   exists after,
     Storage.getStorageStats st
       (Storage.saveArtifact env st jobId filename data fs).2
     = Ok after /\
     Storage.artifactCount after = Storage.artifactCount before + 1 /\
     Storage.totalArtifactBytes after
     = Storage.totalArtifactBytes before + Storage.payload_bytes data /\
     Storage.tarballCount after = Storage.tarballCount before /\
     Storage.totalTarballBytes after = Storage.totalTarballBytes before).
Proof.
  intros Hcwd st Hflat_t Hflat_a.
  destruct (init_normal env st0 Hcwd) as (Ht & Ha & Hinit). fold st in Ht, Ha, Hinit.
  unfold Storage.getStorageStats, Storage.ensureInit. rewrite Hinit. simpl negb.
  cbv iota zeta. eexists. split; [reflexivity|]. split.
  - intros Hle. rewrite getTarballPath_normal; [|done..]. cbv zeta.
    unfold Storage.exists_at.
    destruct (fs !! _) as [?|] eqn:Hnew; [done|]. intros _.
    rewrite saveTarball_normal; [|done..]. cbv zeta.
    rewrite writeWithLimit_within; [|done]. cbn [fst snd].
    eexists. split; [reflexivity|]. cbn [Storage.tarballCount
      Storage.totalTarballBytes Storage.artifactCount Storage.totalArtifactBytes].
    rewrite <- payload_content_length.
    destruct (dir_stats_new (Storage.tarballsDir st)
                (Storage.sanitize jobId +:+ ".tar.gz")
                (Storage.payload_content data) fs Ht Hflat_t
                (tarball_filename_plain jobId) Hnew) as [-> ->].
    destruct (dir_stats_other (Storage.artifactsDir st)
                (Storage.tarballsDir st +:+ "/" +:+ Storage.sanitize jobId
                 +:+ ".tar.gz")
                (Storage.payload_content data) fs Ha Hflat_a) as [-> ->]; [|done].
    intros rest. apply init_dirs_apart, Hcwd.
  - intros Hle. rewrite getArtifactPath_normal; [|done..]. cbv zeta.
    unfold Storage.exists_at.
    destruct (fs !! _) as [?|] eqn:Hnew; [done|]. intros _.
    rewrite saveArtifact_normal; [|done..]. cbv zeta.
    rewrite writeWithLimit_within; [|done]. cbn [fst snd].
    eexists. split; [reflexivity|]. cbn [Storage.tarballCount
      Storage.totalTarballBytes Storage.artifactCount Storage.totalArtifactBytes].
    rewrite <- payload_content_length.
    destruct (dir_stats_new (Storage.artifactsDir st)
                (Storage.sanitize jobId +:+ "-" +:+ Storage.sanitize filename)
                (Storage.payload_content data) fs Ha Hflat_a
                (artifact_filename_plain jobId filename) Hnew) as [-> ->].
    destruct (dir_stats_other (Storage.tarballsDir st)
                (Storage.artifactsDir st +:+ "/" +:+ Storage.sanitize jobId
                 +:+ "-" +:+ Storage.sanitize filename)
                (Storage.payload_content data) fs Ht Hflat_t) as [-> ->]; [|done].
    intros rest Heq. symmetry in Heq. by apply init_dirs_apart in Heq.
Qed.

Lemma getStorageStats_follows_saves_witness :
  let env := {| Storage.cwd := "/srv"; Storage.STORAGE_DIR := None |} in
  let st := Storage.init env Storage.initial in
  let fs : FS := <["/data/artifacts/job-0-old.apk" := [Byte.x02; Byte.x03]]> ∅ in
  Storage.getStorageStats st fs
  = Ok {| Storage.stats_storageDir := "/data"; Storage.tarballCount := 0;
          Storage.artifactCount := 1; Storage.totalTarballBytes := 0;
          Storage.totalArtifactBytes := 2 |} /\
  (exists after,
     Storage.getStorageStats st
       (Storage.saveTarball env st "job-1" (Storage.Buffer [Byte.x01]) fs).2
     = Ok after /\
     Storage.tarballCount after = 1 /\ Storage.totalTarballBytes after = 1 /\
     Storage.artifactCount after = 1 /\ Storage.totalArtifactBytes after = 2) /\
  (exists after,
     Storage.getStorageStats st
       (Storage.saveArtifact env st "job-1" "app.apk" (Storage.Buffer [Byte.x01])
          fs).2
     = Ok after /\
     Storage.artifactCount after = 2 /\ Storage.totalArtifactBytes after = 3 /\
     Storage.tarballCount after = 0 /\ Storage.totalTarballBytes after = 0).
Proof.
  intros env st fs.
  assert (forall dir rest,
            (dir = "/data/tarballs" \/ dir = "/data/artifacts") ->
            is_Some (fs !! (dir +:+ "/" +:+ rest)) ->
            Storage.plain rest = true) as Hflat.
  { intros dir rest Hdir [v Hv]. unfold fs in Hv.
    apply lookup_insert_Some in Hv as [[Heq _]|[_ Hv]]; [|done].
    destruct Hdir as [-> | ->].
    - by vm_compute in Heq.
    - apply (string_app_inv_head "/data/artifacts/" "job-0-old.apk") in Heq.
      by subst rest. }
  destruct (getStorageStats_follows_saves env Storage.initial "job-1" "app.apk"
              (Storage.Buffer [Byte.x01]) fs eq_refl
              (fun rest => Hflat _ rest (or_introl eq_refl))
              (fun rest => Hflat _ rest (or_intror eq_refl)))
    as (before & Hbefore & Htar & Hart).
  assert (@Ok Storage.Error Storage.StorageStats before
          = Ok {| Storage.stats_storageDir := "/data"; Storage.tarballCount := 0;
                  Storage.artifactCount := 1; Storage.totalTarballBytes := 0;
                  Storage.totalArtifactBytes := 2 |}) as Heq
    by (rewrite <- Hbefore; by vm_compute).
  injection Heq as ->.
  cbn [Storage.tarballCount Storage.totalTarballBytes Storage.artifactCount
       Storage.totalArtifactBytes] in Htar, Hart.
  split_and!; [exact Hbefore| |].
  - destruct Htar as (after & H & H1 & H2 & H3 & H4); [by vm_compute..|].
    exists after. split; [exact H|]. rewrite H1, H2, H3, H4. repeat split.
  - destruct Hart as (after & H & H1 & H2 & H3 & H4); [by vm_compute..|].
    exists after. split; [exact H|]. rewrite H1, H2, H3, H4. repeat split.
Defined.


(** A path no save writes to stays free. *)
Lemma run_not_saved (env : Storage.Env) (st0 : Storage.State)
    (ops : list Storage.Op) (p : string) :
  Path.isAbsolute (Storage.cwd env) = true ->
  let st := Storage.init env st0 in
  (forall id data, In (Storage.OpSaveTarball id data) ops ->
     p <> Storage.tarballsDir st +:+ "/" +:+ Storage.sanitize id +:+ ".tar.gz") ->
  (forall id name data, In (Storage.OpSaveArtifact id name data) ops ->
     p <> Storage.artifactsDir st +:+ "/" +:+ Storage.sanitize id +:+ "-"
          +:+ Storage.sanitize name) ->
  forall fs, fs !! p = None -> Storage.run env st ops fs !! p = None.
Proof.
  intros Hcwd st.
  destruct (init_normal env st0 Hcwd) as (Ht & Ha & Hinit). fold st in Ht, Ha, Hinit.
  unfold Storage.run. induction ops as [|o ops IH]; intros Htar Hart fs Hfs; [done|].
  cbn [fold_left]. apply IH.
  - intros id data Hin. apply (Htar id data). by right.
  - intros id name data Hin. apply (Hart id name data). by right.
  - destruct o as [id data|id name data|id]; cbn [Storage.step].
    + rewrite lookup_saveTarball_other; [done..|]. apply (Htar id data). by left.
    + rewrite lookup_saveArtifact_other; [done..|]. apply (Hart id name data).
      by left.
    + destruct (deleteJobFiles_lookup env st0 id fs Hcwd) as (_ & _ & _ & Hless & _).
      fold st in Hless. destruct (Hless p) as [H|H]; [done|]. by rewrite H.
Qed.

(** X10. What is saved is found again, and nothing else.  Once the storage
    is initialised, a tarball or an artifact within its limit is stored,
    and the lookup with the same job id (and file name) then returns the
    very path the save returned, at which the payload is stored.  A lookup
    never throws; and one that finds nothing still finds nothing after any
    sequence of saves and deletions none of which saves under the same
    stored name, so that on a storage that started empty the lookup of a
    file that was never saved returns nothing. *)
Theorem saved_files_are_found (env : Storage.Env) (st0 : Storage.State)
    (jobId filename : string) (data : Storage.Payload) (fs : FS) :
  Path.isAbsolute (Storage.cwd env) = true ->
  let st := Storage.init env st0 in
  (Storage.payload_bytes data <= Storage.MAX_TARBALL_BYTES ->
   exists dest fs',
     Storage.saveTarball env st jobId data fs = (Ok dest, fs') /\
     Storage.getTarballPath env st jobId fs' = Ok (Some dest) /\
     fs' !! dest = Some (Storage.payload_content data)) /\
  (Storage.payload_bytes data <= Storage.MAX_ARTIFACT_BYTES ->
   exists dest fs',
     Storage.saveArtifact env st jobId filename data fs = (Ok dest, fs') /\
     Storage.getArtifactPath env st jobId filename fs' = Ok (Some dest) /\
     fs' !! dest = Some (Storage.payload_content data)) /\
  (exists found, Storage.getTarballPath env st jobId fs = Ok found) /\
  (exists found, Storage.getArtifactPath env st jobId filename fs = Ok found) /\
  Storage.getTarballPath env st jobId ∅ = Ok None /\
  Storage.getArtifactPath env st jobId filename ∅ = Ok None /\
  (forall ops,
     Storage.getTarballPath env st jobId fs = Ok None ->
     (forall id data', In (Storage.OpSaveTarball id data') ops ->
        Storage.sanitize id <> Storage.sanitize jobId) ->
     Storage.getTarballPath env st jobId (Storage.run env st ops fs) = Ok None) /\
  (forall ops,
     Storage.getArtifactPath env st jobId filename fs = Ok None ->
     (forall id name data', In (Storage.OpSaveArtifact id name data') ops ->
        Storage.sanitize id +:+ "-" +:+ Storage.sanitize name
        <> Storage.sanitize jobId +:+ "-" +:+ Storage.sanitize filename) ->
     Storage.getArtifactPath env st jobId filename (Storage.run env st ops fs)
     = Ok None).
Proof.
  intros Hcwd st.
  destruct (init_normal env st0 Hcwd) as (Ht & Ha & Hinit). fold st in Ht, Ha, Hinit.
  split_and!.
  - intros Hle. eexists _, _. split_and!.
    + rewrite saveTarball_normal; [|done..]. cbv zeta.
      rewrite writeWithLimit_within; done.
    + rewrite getTarballPath_normal; [|done..]. cbv zeta.
      unfold Storage.exists_at. by rewrite lookup_insert_eq.
    + by rewrite lookup_insert_eq.
  - intros Hle. eexists _, _. split_and!.
    + rewrite saveArtifact_normal; [|done..]. cbv zeta.
      rewrite writeWithLimit_within; done.
    + rewrite getArtifactPath_normal; [|done..]. cbv zeta.
      unfold Storage.exists_at. by rewrite lookup_insert_eq.
    + by rewrite lookup_insert_eq.
  - rewrite getTarballPath_normal; [|done..]. by eexists.
  - rewrite getArtifactPath_normal; [|done..]. by eexists.
  - rewrite getTarballPath_normal; done.
  - rewrite getArtifactPath_normal; done.
  - intros ops. rewrite !getTarballPath_normal; [|done..]. cbv zeta.
    unfold Storage.exists_at.
    destruct (fs !! _) as [?|] eqn:Hfree; [done|]. intros _ Hops.
    rewrite (run_not_saved env st0 ops _ Hcwd); [done| | |exact Hfree].
    + intros id data' Hin Heq.
      apply string_app_inv_head, string_app_inv_head in Heq.
      apply string_app_inv_tail in Heq. by apply (Hops id data' Hin).
    + intros id name data' _. apply init_dirs_apart, Hcwd.
  - intros ops. rewrite !getArtifactPath_normal; [|done..]. cbv zeta.
    unfold Storage.exists_at.
    destruct (fs !! _) as [?|] eqn:Hfree; [done|]. intros _ Hops.
    rewrite (run_not_saved env st0 ops _ Hcwd); [done| | |exact Hfree].
    + intros id data' _ Heq. symmetry in Heq. by apply init_dirs_apart in Heq.
    + intros id name data' Hin Heq.
      apply string_app_inv_head, string_app_inv_head in Heq.
      by apply (Hops id name data' Hin).
Qed.

Lemma saved_files_are_found_witness :
  let env := {| Storage.cwd := "/srv"; Storage.STORAGE_DIR := None |} in
  let st := Storage.init env Storage.initial in
  (exists dest fs',
     Storage.saveTarball env st "job-1" (Storage.Buffer [Byte.x01]) ∅
     = (Ok dest, fs') /\
     Storage.getTarballPath env st "job-1" fs' = Ok (Some dest) /\
     fs' !! dest = Some [Byte.x01]) /\
  (exists dest fs',
     Storage.saveArtifact env st "job-1" "app.apk" (Storage.Buffer [Byte.x01]) ∅
     = (Ok dest, fs') /\
     Storage.getArtifactPath env st "job-1" "app.apk" fs' = Ok (Some dest) /\
     fs' !! dest = Some [Byte.x01]) /\
  Storage.getTarballPath env st "job-1"
    (Storage.run env st
       [Storage.OpSaveTarball "job-2" (Storage.Buffer [Byte.x02]);
        Storage.OpSaveArtifact "job-1" "app.apk" (Storage.Buffer [Byte.x03])] ∅)
  = Ok None.
Proof.
  intros env st.
  pose proof (saved_files_are_found env Storage.initial "job-1" "app.apk"
                (Storage.Buffer [Byte.x01]) ∅ eq_refl)
    as (Htar & Hart & _ & _ & Hnone & _ & Hrun & _).
  split_and!.
  - apply Htar. by vm_compute.
  - apply Hart. by vm_compute.
  - apply Hrun; [exact Hnone|].
    intros id data' [Heq|[Heq|[]]]; [|discriminate Heq].
    injection Heq as <- _. by vm_compute.
Defined.


(** ** Cleanup *)

Lemma filter_all {A : Type} (l : list A) : List.filter (fun _ => true) l = l.
Proof. induction l as [|x l IH]; [done|]. simpl. by rewrite IH. Qed.

Lemma filter_filter {A : Type} (f g : A -> bool) (l : list A) :
  List.filter g (List.filter f l) = List.filter (fun x => f x && g x) l.
Proof.
  induction l as [|x l IH]; [done|]. simpl.
  destruct (f x); simpl; [destruct (g x)|]; by rewrite IH.
Qed.

Lemma delete_filter {V : Type} (k : string) (m : JsMap V) :
  JsMap.delete k m = List.filter (fun e => negb (String.eqb k e.1)) m.
Proof.
  induction m as [|[k' v] m IH]; [done|]. simpl.
  destruct (String.eqb k k'); simpl; by rewrite IH.
Qed.

Lemma NoDup_keys_same {V : Type} (m : JsMap V) (k : string) (v v' : V) :
  NoDup (map fst m) -> In (k, v) m -> In (k, v') m -> v = v'.
Proof.
  induction m as [|[k0 v0] m IH]; [done|]. simpl.
  intros [Hk0 Hnd]%NoDup_cons [Heq|Hin] [Heq'|Hin'].
  - congruence.
  - injection Heq as -> ->. destruct Hk0. apply list_elem_of_In, in_map_iff.
    by exists (k, v').
  - injection Heq' as -> ->. destruct Hk0. apply list_elem_of_In, in_map_iff.
    by exists (k, v).
  - by apply IH.
Qed.

Lemma In_get_NoDup {V : Type} (m : JsMap V) (k : string) (v : V) :
  NoDup (map fst m) -> In (k, v) m -> JsMap.get k m = Some v.
Proof.
  intros Hnd Hin. destruct (JsMap.get k m) as [v'|] eqn:Hget.
  - apply get_In in Hget. by rewrite (NoDup_keys_same m k v v' Hnd Hin Hget).
  - induction m as [|[k0 v0] m IH]; [done|]. simpl in Hget.
    destruct (String.eqb k k0) eqn:E; [done|]. apply String.eqb_neq in E.
    simpl in Hnd. apply NoDup_cons in Hnd as [_ Hnd].
    destruct Hin as [[= ? ?]|Hin]; [congruence|]. by apply IH.
Qed.

Lemma In_delete_ne {V : Type} (m : JsMap V) (k k' : string) (v : V) :
  In (k, v) m -> k <> k' -> In (k, v) (JsMap.delete k' m).
Proof.
  intros Hin Hne. rewrite delete_filter. apply filter_In. split; [done|].
  simpl. apply negb_true_iff, String.eqb_neq. congruence.
Qed.



(** The jobs a cycle takes from a queue that stores every job under its own
    id: they are entries of the queue and have different ids. *)
Lemma snapshot_keyed (ttl now : Z) (jobs : JsMap Job) :
  Queue.keyed_by_id jobs ->
  NoDup (map Job.id (Queue.getJobsOlderThan ttl now jobs)) /\
  forall job, In job (Queue.getJobsOlderThan ttl now jobs) ->
              In (Job.id job, job) jobs /\ Job.createdAt job < now - ttl.
Proof.
  intros [Hnd Hkey]. unfold Queue.getJobsOlderThan, JsMap.values. split.
  - induction jobs as [|[k j] jobs IH]; [constructor|]. simpl in *.
    apply NoDup_cons in Hnd as [Hk Hnd].
    assert (NoDup (map Job.id
              (List.filter (fun job => Job.createdAt job <? now - ttl)
                 (map snd jobs)))) as IH'.
    { apply IH; [done|]. intros k' j' Hin. apply Hkey. by right. }
    destruct (Job.createdAt j <? now - ttl); [|done]. simpl.
    apply NoDup_cons. split; [|done].
    intros Hin%list_elem_of_In. apply in_map_iff in Hin as (j' & Hid & Hin).
    apply filter_In in Hin as [Hin _]. apply in_map_iff in Hin as ([k' j''] & Heq & Hin).
    simpl in Heq. subst j''. apply Hk. apply list_elem_of_In, in_map_iff.
    exists (k', j'). split; [|done]. simpl.
    rewrite (Hkey k' j' (or_intror Hin)), Hid. symmetry. apply Hkey. by left.
  - intros job [Hin Hold]%filter_In. apply Z.ltb_lt in Hold. split; [|done].
    apply in_map_iff in Hin as ([k j] & Heq & Hin). simpl in Heq. subst j.
    by rewrite <- (Hkey k job Hin).
Qed.

(** A cycle during which nothing else is handled, turn by turn. *)
Lemma cleanup_fold_undisturbed (env : Storage.Env)
    (detached : Job -> JobStatus) (l : list Job) :
  forall (srv : Jobs.Server) (n : Z),
    NoDup (map fst (Jobs.jobs srv)) ->
    NoDup (map Job.id l) ->
    (forall job, In job l -> In (Job.id job, job) (Jobs.jobs srv)) ->
    fold_left (Cleanup.cleanup_job (Cleanup.undisturbed env) detached) l (srv, n)
    = ({| Jobs.jobs :=
            List.filter
              (fun e => negb (existsb (fun job => negb (Cleanup.in_flight job)
                                                  && String.eqb (Job.id job) e.1) l))
              (Jobs.jobs srv);
          Jobs.storage := Jobs.storage srv;
          Jobs.files :=
            fold_left
              (fun fs job =>
                 if Cleanup.in_flight job then fs
                 else (Storage.deleteJobFiles env (Jobs.storage srv) (Job.id job) fs).2)
              l (Jobs.files srv);
          Jobs.channels := Jobs.channels srv |},
       n + Z.of_nat (length (List.filter (fun job => negb (Cleanup.in_flight job)) l))).
Proof.
  induction l as [|job l IH]; intros srv n Hnd Hids Hin.
  - simpl. rewrite filter_all, Z.add_0_r. by destruct srv.
  - cbn [fold_left]. simpl in Hids. apply NoDup_cons in Hids as [Hid Hids].
    assert (Cleanup.cleanup_job (Cleanup.undisturbed env) detached (srv, n) job
            = if Cleanup.in_flight job then (srv, n)
              else ({| Jobs.jobs := JsMap.delete (Job.id job) (Jobs.jobs srv);
                       Jobs.storage := Jobs.storage srv;
                       Jobs.files :=
                         (Storage.deleteJobFiles env (Jobs.storage srv) (Job.id job)
                            (Jobs.files srv)).2;
                       Jobs.channels := Jobs.channels srv |}, n + 1)) as ->.
    { unfold Cleanup.cleanup_job, Queue.getJob.
      rewrite (In_get_NoDup _ _ _ Hnd (Hin job (or_introl eq_refl))).
      fold (Cleanup.in_flight job). by destruct (Cleanup.in_flight job). }
    destruct (Cleanup.in_flight job) eqn:E.
    + rewrite IH; [|done|done|by intros job' Hin'; apply Hin; right].
      cbn [existsb List.filter fold_left]. by rewrite E.
    + rewrite IH; cbn [Jobs.jobs Jobs.storage Jobs.files Jobs.channels].
      * cbn [existsb List.filter fold_left]. rewrite E. cbn [negb andb length].
        f_equal; [|lia]. f_equal.
        rewrite delete_filter, filter_filter. apply filter_ext.
        intros [k j]. simpl. by destruct (String.eqb (Job.id job) k).
      * by apply NoDup_keys_delete.
      * done.
      * intros job' Hin'. apply In_delete_ne; [apply Hin; by right|].
        intros Heq. apply Hid. apply list_elem_of_In, in_map_iff. by exists job'.
Qed.


(** A cycle whose waits leave the queue alone only deletes jobs. *)
Lemma cleanup_fold_In (await : string -> Jobs.Server -> Jobs.Server)
    (detached : Job -> JobStatus) (l : list Job) :
  (forall k srv, Jobs.jobs (await k srv) = Jobs.jobs srv) ->
  forall (srv : Jobs.Server) (n : Z) (k : string) (j : Job),
    In (k, j)
      (Jobs.jobs (fold_left (Cleanup.cleanup_job await detached) l (srv, n)).1) ->
    In (k, j) (Jobs.jobs srv).
Proof.
  intros Hawait. induction l as [|job l IH]; intros srv n k j; [done|].
  cbn [fold_left].
  assert (In (k, j)
            (Jobs.jobs (Cleanup.cleanup_job await detached (srv, n) job).1) ->
          In (k, j) (Jobs.jobs srv)) as Hstep.
  { unfold Cleanup.cleanup_job. destruct (_ || _); [done|].
    cbn [fst Jobs.jobs Queue.deleteJob snd]. rewrite Hawait.
    intros Hin. by apply In_delete in Hin. }
  destruct (Cleanup.cleanup_job await detached (srv, n) job) as [srv' n'].
  intros Hin. apply Hstep. by apply (IH srv' n').
Qed.



Lemma cleanup_fold_files (env : Storage.Env) (st0 : Storage.State)
    (l : list Job) :
  Path.isAbsolute (Storage.cwd env) = true ->
  let st := Storage.init env st0 in
  forall (fs : FS),
    let fs' :=
      fold_left
        (fun fs job =>
           if Cleanup.in_flight job then fs
           else (Storage.deleteJobFiles env st (Job.id job) fs).2)
        l fs in
    (forall p, fs' !! p = None \/ fs' !! p = fs !! p) /\
    (forall job, In job l -> Cleanup.in_flight job = false ->
       fs' !! (Storage.tarballsDir st +:+ "/" +:+ Storage.sanitize (Job.id job)
               +:+ ".tar.gz") = None /\
       forall name,
         String.prefix (Storage.sanitize (Job.id job) +:+ "-") name = true ->
         Storage.contains_char Storage.is_sep name = false ->
         fs' !! (Storage.artifactsDir st +:+ "/" +:+ name) = None) /\
    (forall p,
       (forall job, In job l -> Cleanup.in_flight job = false ->
          p <> Storage.tarballsDir st +:+ "/" +:+ Storage.sanitize (Job.id job)
               +:+ ".tar.gz" /\
          forall name,
            String.prefix (Storage.sanitize (Job.id job) +:+ "-") name = true ->
            p <> Storage.artifactsDir st +:+ "/" +:+ name) ->
       fs' !! p = fs !! p).
Proof.
  intros Hcwd st. induction l as [|job l IH]; intros fs fs'.
  - subst fs'. simpl. split_and!; [by right|by intros ? []|done].
  - subst fs'. cbn [fold_left].
    destruct (Cleanup.in_flight job) eqn:E.
    + destruct (IH fs) as (H1 & H2 & H3). split_and!; [done| |].
      * intros job' [<-|Hin] Hfl; [congruence|by apply H2].
      * intros p Hp. apply H3. intros job' Hin. apply Hp. by right.
    + destruct (deleteJobFiles_lookup env st0 (Job.id job) fs Hcwd)
        as (_ & Htar & Hart & Hless & Hother).
      fold st in Htar, Hart, Hless, Hother.
      destruct (IH (Storage.deleteJobFiles env st (Job.id job) fs).2)
        as (H1 & H2 & H3).
      split_and!.
      * intros p. destruct (H1 p) as [H|H]; [by left|].
        rewrite H. apply Hless.
      * intros job' [<-|Hin] Hfl; [|by apply H2]. split.
        -- destruct (H1 (Storage.tarballsDir st +:+ "/"
                         +:+ Storage.sanitize (Job.id job) +:+ ".tar.gz"))
             as [H|H]; [done|]. by rewrite H.
        -- intros name Hp Hsep.
           destruct (H1 (Storage.artifactsDir st +:+ "/" +:+ name)) as [H|H];
             [done|]. rewrite H. by apply Hart.
      * intros p Hp. rewrite H3.
        -- destruct (Hp job (or_introl eq_refl) E) as [Hp1 Hp2]. by apply Hother.
        -- intros job' Hin. apply Hp. by right.
Qed.

(** The upload of an artifact for a finished job stores the file whatever
    it answers. *)
Lemma postArtifact_files (stringify : Jobs.ArtifactEvent -> string)
    (env : Storage.Env) (id name : string) (content : list Byte.byte)
    (now : Z) (job : Job) (srv : Jobs.Server) :
  Storage.initialised (Jobs.storage srv) = true ->
  Storage.normal_dir (Storage.artifactsDir (Jobs.storage srv)) ->
  Queue.getJob id (Jobs.jobs srv) = Some job ->
  Job.status job = success ->
  Storage.payload_bytes (Storage.Buffer content) <= Storage.MAX_ARTIFACT_BYTES ->
  let after :=
    (Jobs.postArtifact stringify env id (Some (Jobs.FormFile name content)) now
       srv).1.2 in
  Jobs.files after
  = <[Storage.artifactsDir (Jobs.storage srv) +:+ "/" +:+ Storage.sanitize id
      +:+ "-" +:+ Storage.sanitize name := content]> (Jobs.files srv) /\
  Jobs.jobs after = Jobs.jobs srv /\
  Jobs.storage after = Jobs.storage srv.
Proof.
  intros Hinit Hdir Hget Hstatus Hle after. subst after.
  unfold Jobs.postArtifact. rewrite Hget.
  destruct (negb _ && negb _) eqn:E; [by rewrite Hstatus in E|].
  rewrite saveArtifact_normal; [|done..]. cbv zeta.
  rewrite writeWithLimit_within; [|done].
  rewrite (updateJobStatus_self id _ now (Jobs.jobs srv) job Hget). done.
Qed.

(** X17. The files follow the jobs, as long as nothing is written
    meanwhile.  On an initialised storage whose directories hold files
    only, after a cleanup cycle during whose waits no request is handled,
    every job the cycle removed has no tarball and no artifact left; the
    cycle creates and changes no file; and when the ids in the queue are
    safe names of one length, as generated ids are, the tarball and the
    artifacts of every job that stays are as before.  The job is deleted
    after the wait for its files, though: an artifact uploaded for a
    finished job while the cycle waits stays in the storage, found under
    the id of a job that is gone. *)
Theorem runCleanupNow_removes_files (env : Storage.Env) (st0 : Storage.State)
    (detached : Job -> JobStatus) (ttl now : Z) (srv : Jobs.Server) :
  Path.isAbsolute (Storage.cwd env) = true ->
  let st := Storage.init env st0 in
  Jobs.storage srv = st ->
  Storage.flat (Storage.tarballsDir st) (Jobs.files srv) ->
  Storage.flat (Storage.artifactsDir st) (Jobs.files srv) ->
  Queue.keyed_by_id (Jobs.jobs srv) ->
  let jobs := Jobs.jobs srv in
  let fs := Jobs.files srv in
  let fs' :=
    Jobs.files
      (Cleanup.runCleanupNow (Cleanup.undisturbed env) detached ttl now srv).1 in
  (forall id job, Queue.getJob id jobs = Some job ->
     Cleanup.expired ttl now job = true ->
     Storage.getTarballPath env st id fs' = Ok None /\
     forall filename, Storage.getArtifactPath env st id filename fs' = Ok None) /\
  (forall p, fs' !! p = None \/ fs' !! p = fs !! p) /\
  (forall n,
     Forall (fun e => Storage.safe_name e.1 = true /\ String.length e.1 = n) jobs ->
     forall id job, Queue.getJob id jobs = Some job ->
       Cleanup.expired ttl now job = false ->
       Storage.getTarballPath env st id fs' = Storage.getTarballPath env st id fs /\
       forall filename,
         Storage.getArtifactPath env st id filename fs'
         = Storage.getArtifactPath env st id filename fs) /\
  (forall (stringify : Jobs.ArtifactEvent -> string) name content now' job n,
     Queue.getJob (Job.id job) jobs = Some job ->
     Job.status job = success ->
     Storage.payload_bytes (Storage.Buffer content) <= Storage.MAX_ARTIFACT_BYTES ->
     let after :=
       Cleanup.cleanup_job
         (fun k s =>
            (Jobs.postArtifact stringify env k
               (Some (Jobs.FormFile name content)) now'
               (Cleanup.undisturbed env k s)).1.2)
         detached (srv, n) job in
     Queue.getJob (Job.id job) (Jobs.jobs after.1) = None /\
     after.2 = n + 1 /\
     exists dest,
       Storage.getArtifactPath env st (Job.id job) name (Jobs.files after.1)
       = Ok (Some dest) /\
       Jobs.files after.1 !! dest = Some content).
Proof.
  intros Hcwd st Hst _ _ Hkeyed jobs fs fs'.
  destruct (init_normal env st0 Hcwd) as (Ht & Ha & Hinit). fold st in Ht, Ha, Hinit.
  destruct (snapshot_keyed ttl now jobs Hkeyed) as [Hnd_ids Hsnap].
  assert (fs' = fold_left
                  (fun fs job =>
                     if Cleanup.in_flight job then fs
                     else (Storage.deleteJobFiles env st (Job.id job) fs).2)
                  (Queue.getJobsOlderThan ttl now jobs) fs) as Hfs'.
  { unfold fs', Cleanup.runCleanupNow.
    rewrite cleanup_fold_undisturbed;
      [|apply Hkeyed|done|by intros job Hin; apply Hsnap].
    cbn [fst Jobs.files]. by rewrite Hst. }
  destruct (cleanup_fold_files env st0 (Queue.getJobsOlderThan ttl now jobs) Hcwd
              fs) as (Hless & Hgone & Hkept).
  fold st in Hless, Hgone, Hkept. rewrite <- Hfs' in Hless, Hgone, Hkept.
  assert (forall job, In job (Queue.getJobsOlderThan ttl now jobs) ->
            Cleanup.in_flight job = false ->
            In (Job.id job, job) jobs /\ Cleanup.expired ttl now job = true) as Hold.
  { intros job Hin Hfl. destruct (Hsnap job Hin) as [Hin' Hold]. split; [done|].
    unfold Cleanup.expired. apply Z.ltb_lt in Hold. by rewrite Hold, Hfl. }
  split_and!; [|done| |].
  - intros id job Hjob [Hage Hfl]%andb_true_iff.
    apply negb_true_iff in Hfl. apply get_In in Hjob.
    pose proof (proj2 Hkeyed _ _ Hjob) as ->.
    destruct (Hgone job) as [Htar Hart]; [|done|].
    { apply filter_In. split; [|done]. apply in_map_iff. by exists (Job.id job, job). }
    split.
    + rewrite getTarballPath_normal; [|done..]. cbv zeta.
      unfold Storage.exists_at. by rewrite Htar.
    + intros filename. rewrite getArtifactPath_normal; [|done..]. cbv zeta.
      unfold Storage.exists_at.
      rewrite <- (string_app_assoc (Storage.sanitize (Job.id job))).
      rewrite Hart; [done|apply string_prefix_app|].
      rewrite string_app_assoc. apply plain_no_sep, artifact_filename_plain.
  - intros n Hids id job Hjob Hexp. apply get_In in Hjob.
    assert (forall job', In job' (Queue.getJobsOlderThan ttl now jobs) ->
              Cleanup.in_flight job' = false ->
              Storage.sanitize (Job.id job') <> Storage.sanitize id /\
              String.length (Storage.sanitize (Job.id job'))
              = String.length (Storage.sanitize id)) as Hdiff.
    { intros job' Hin' Hfl'. destruct (Hold job' Hin' Hfl') as [Hin'' Hexp'].
      rewrite List.Forall_forall in Hids.
      destruct (Hids _ Hjob) as [Hsafe Hlen].
      destruct (Hids _ Hin'') as [Hsafe' Hlen']. simpl in *.
      rewrite (sanitize_safe_name _ Hsafe), (sanitize_safe_name _ Hsafe').
      split; [|congruence]. intros Heq. rewrite Heq in Hin''.
      pose proof (NoDup_keys_same jobs id job' job (proj1 Hkeyed) Hin'' Hjob).
      congruence. }
    split.
    + rewrite !getTarballPath_normal; [|done..]. cbv zeta.
      unfold Storage.exists_at. rewrite Hkept; [done|].
      intros job' Hin' Hfl'. destruct (Hdiff job' Hin' Hfl') as [Hne _]. split.
      * intros Heq. apply string_app_inv_head, string_app_inv_head in Heq.
        apply string_app_inv_tail in Heq. congruence.
      * intros name _. apply init_dirs_apart, Hcwd.
    + intros filename. rewrite !getArtifactPath_normal; [|done..]. cbv zeta.
      unfold Storage.exists_at. rewrite Hkept; [done|].
      intros job' Hin' Hfl'. destruct (Hdiff job' Hin' Hfl') as [Hne Hlen]. split.
      * intros Heq. symmetry in Heq. by apply init_dirs_apart in Heq.
      * intros name [rest ->]%string_prefix_inv Heq.
        apply string_app_inv_head, string_app_inv_head in Heq.
        rewrite string_app_assoc in Heq.
        apply string_app_same_length in Heq as [? _]; congruence.
  - intros stringify name content now' job n Hjob Hsuccess Hle after.
    destruct (postArtifact_files stringify env (Job.id job) name content now' job
                (Cleanup.undisturbed env (Job.id job) srv))
      as (Hfiles & Hjobs & Hstorage);
      [by cbn [Cleanup.undisturbed Jobs.storage]; rewrite Hst
      |by cbn [Cleanup.undisturbed Jobs.storage]; rewrite Hst
      |done|done|done|].
    cbn [Cleanup.undisturbed Jobs.storage Jobs.jobs Jobs.files] in Hfiles, Hjobs.
    assert (after
            = ({| Jobs.jobs := JsMap.delete (Job.id job) jobs;
                  Jobs.storage :=
                    Jobs.storage
                      (Jobs.postArtifact stringify env (Job.id job)
                         (Some (Jobs.FormFile name content)) now'
                         (Cleanup.undisturbed env (Job.id job) srv)).1.2;
                  Jobs.files :=
                    <[Storage.artifactsDir st +:+ "/" +:+ Storage.sanitize (Job.id job)
                      +:+ "-" +:+ Storage.sanitize name := content]>
                      (Storage.deleteJobFiles env st (Job.id job) fs).2;
                  Jobs.channels :=
                    Jobs.channels
                      (Jobs.postArtifact stringify env (Job.id job)
                         (Some (Jobs.FormFile name content)) now'
                         (Cleanup.undisturbed env (Job.id job) srv)).1.2 |},
               n + 1)) as ->.
    { unfold after, Cleanup.cleanup_job. fold jobs. rewrite Hjob, Hsuccess.
      assert (bool_decide (success = building) || bool_decide (success = claimed)
              = false) as -> by reflexivity.
      unfold Queue.deleteJob. cbn [snd]. rewrite Hjobs, Hfiles. fold jobs fs.
      by rewrite Hst. }
    cbn [fst snd Jobs.jobs Jobs.files]. split_and!; [apply get_delete_same|done|].
    eexists. split.
    + rewrite getArtifactPath_normal; [|done..]. cbv zeta.
      unfold Storage.exists_at. by rewrite lookup_insert_eq.
    + by rewrite lookup_insert_eq.
Qed.

Lemma runCleanupNow_removes_files_witness :
  let env := {| Storage.cwd := "/srv"; Storage.STORAGE_DIR := None |} in
  let params := {| Queue.platform := ios; Queue.profile := "dev";
                   Queue.flags := None; Queue.submittedBy := "me";
                   Queue.tarballFilename := None |} in
  let history := [(100, Queue.OpCreate "j1" params);
                  (200, Queue.OpClaim ios "r1" "host");
                  (300, Queue.OpUpdate "j1" building None);
                  (400, Queue.OpUpdate "j1" success None)] in
  let srv := {| Jobs.jobs := Queue.run history [];
                Jobs.storage := Storage.init env Storage.initial;
                Jobs.files :=
                  <["/data/tarballs/j1.tar.gz" := [Byte.x01]]>
                    (<["/data/artifacts/j1-app.apk" := [Byte.x02]]> ∅);
                Jobs.channels := [] |} in
  let j1 := Job.mk "j1" success ios "dev" [] "me" (Some "r1") 100 400
              None None None None in
  let fs' :=
    Jobs.files
      (Cleanup.runCleanupNow (Cleanup.undisturbed env) Job.status 1000 5000
         srv).1 in
  let raced :=
    Cleanup.cleanup_job
      (fun k s =>
         (Jobs.postArtifact (fun _ => EmptyString) env k
            (Some (Jobs.FormFile "app.ipa" [Byte.x03])) 4000
            (Cleanup.undisturbed env k s)).1.2)
      Job.status (srv, 0) j1 in
  (Storage.getTarballPath env (Jobs.storage srv) "j1" (Jobs.files srv)
   = Ok (Some "/data/tarballs/j1.tar.gz") /\
   Storage.getArtifactPath env (Jobs.storage srv) "j1" "app.apk" (Jobs.files srv)
   = Ok (Some "/data/artifacts/j1-app.apk") /\
   Storage.getTarballPath env (Jobs.storage srv) "j1" fs' = Ok None /\
   Storage.getArtifactPath env (Jobs.storage srv) "j1" "app.apk" fs' = Ok None) /\
  (Queue.getJob "j1" (Jobs.jobs raced.1) = None /\
   exists dest,
     Storage.getArtifactPath env (Jobs.storage srv) "j1" "app.ipa"
       (Jobs.files raced.1) = Ok (Some dest) /\
     Jobs.files raced.1 !! dest = Some [Byte.x03]).
Proof.
  intros env params history srv j1 fs' raced.
  assert (forall dir rest,
            (dir = "/data/tarballs" \/ dir = "/data/artifacts") ->
            is_Some (Jobs.files srv !! (dir +:+ "/" +:+ rest)) ->
            Storage.plain rest = true) as Hflat.
  { intros dir rest Hdir [v Hv]. cbn [srv Jobs.files] in Hv.
    apply lookup_insert_Some in Hv as [[Heq _]|[_ Hv]];
      [|apply lookup_insert_Some in Hv as [[Heq _]|[_ Hv]]; [|done]].
    - destruct Hdir as [-> | ->].
      + apply (string_app_inv_head "/data/tarballs/" "j1.tar.gz") in Heq.
        by subst rest.
      + by vm_compute in Heq.
    - destruct Hdir as [-> | ->].
      + by vm_compute in Heq.
      + apply (string_app_inv_head "/data/artifacts/" "j1-app.apk") in Heq.
        by subst rest. }
  pose proof (runCleanupNow_removes_files env Storage.initial Job.status 1000
                5000 srv eq_refl eq_refl
                (fun rest => Hflat _ rest (or_introl eq_refl))
                (fun rest => Hflat _ rest (or_intror eq_refl))
                (run_keyed_by_id history [] keyed_by_id_nil))
    as (Hgone & _ & _ & Hrace).
  destruct (Hgone "j1" j1 eq_refl eq_refl) as [Htar Hart].
  destruct (Hrace (fun _ => EmptyString) "app.ipa" [Byte.x03] 4000 j1 0
              eq_refl eq_refl) as (Hjob & _ & Hfile).
  { vm_compute. discriminate. }
  split; [split_and!|split].
  - vm_compute. reflexivity.
  - vm_compute. reflexivity.
  - exact Htar.
  - exact (Hart "app.apk").
  - exact Hjob.
  - exact Hfile.
Defined.


(** ** The registry of subscribers *)

Lemma set_same {V : Type} (k : string) (v : V) (m : JsMap V) :
  JsMap.get k m = Some v -> JsMap.set k v m = m.
Proof.
  induction m as [|[k0 v0] m IH]; simpl; [done|].
  destruct (String.eqb k k0) eqn:E.
  - intros [= ->]. done.
  - intros H. by rewrite IH.
Qed.

Lemma get_None_keys {V : Type} (k : string) (m : JsMap V) :
  JsMap.get k m = None <-> ~ In k (map fst m).
Proof.
  induction m as [|[k0 v0] m IH]; simpl; [tauto|].
  destruct (String.eqb k k0) eqn:E.
  - apply String.eqb_eq in E as ->. split; [done|]. intros H. destruct H. by left.
  - apply String.eqb_neq in E. rewrite IH. split; [|tauto].
    intros H [Heq|Hin]; [congruence|tauto].
Qed.

Lemma size_set {V : Type} (k : string) (v : V) (m : JsMap V) :
  JsMap.size (JsMap.set k v m)
  = JsMap.size m + (if JsMap.has k m then 0 else 1).
Proof.
  unfold JsMap.size, JsMap.has.
  induction m as [|[k0 v0] m IH]; simpl; [done|].
  destruct (String.eqb k k0); simpl; [lia|].
  destruct (JsMap.get k m); simpl in *; lia.
Qed.

Lemma size_delete {V : Type} (k : string) (m : JsMap V) :
  NoDup (map fst m) ->
  JsMap.size (JsMap.delete k m)
  = JsMap.size m - (if JsMap.has k m then 1 else 0).
Proof.
  unfold JsMap.size, JsMap.has.
  induction m as [|[k0 v0] m IH]; simpl; [done|].
  intros [Hk0 Hnd]%NoDup_cons. destruct (String.eqb k k0) eqn:E.
  - apply String.eqb_eq in E as ->.
    rewrite delete_absent; [lia|]. apply get_None_keys.
    intros Hin. by apply Hk0, list_elem_of_In.
  - simpl. specialize (IH Hnd). destruct (JsMap.get k m); simpl in *; lia.
Qed.

Lemma well_formed_nil : Sse.well_formed [].
Proof. split; [constructor|]. by intros ? ? []. Qed.

Lemma well_formed_step (o : Sse.Op) (channels : JsMap (JsMap SSEClient)) :
  Sse.well_formed channels -> Sse.well_formed (Sse.step o channels).
Proof.
  intros [Hnd Hwf]. destruct o as [channel client|channel clientId]; simpl.
  - unfold Sse.addClient, Sse.getOrCreateChannel.
    destruct (JsMap.get channel channels) as [clients|] eqn:Hget.
    + split; [by apply NoDup_keys_set|].
      intros ch cl Hin. apply In_set in Hin as [Heq|Hin]; [|by apply (Hwf ch)].
      injection Heq as -> ->.
      destruct (Hwf channel clients (get_In _ _ _ Hget)) as (_ & Hnd' & Hid).
      split_and!; [apply set_not_nil|by apply NoDup_keys_set|].
      intros k c Hin. apply In_set in Hin as [Heq|Hin]; [|by apply Hid].
      by injection Heq as -> ->.
    + rewrite set_set. split; [by apply NoDup_keys_set|].
      intros ch cl Hin. apply In_set in Hin as [Heq|Hin]; [|by apply (Hwf ch)].
      injection Heq as -> ->. simpl.
      split_and!; [done|apply NoDup_singleton|].
      intros k c [Heq|[]]. by injection Heq as <- <-.
  - unfold Sse.removeClient.
    destruct (JsMap.get channel channels) as [clients|] eqn:Hget; [|done].
    destruct (Hwf channel clients (get_In _ _ _ Hget)) as (_ & Hnd' & Hid).
    destruct (JsMap.size (JsMap.delete clientId clients) =? 0) eqn:E.
    + split; [by apply NoDup_keys_delete|].
      intros ch cl Hin. apply In_delete in Hin. by apply (Hwf ch).
    + split; [by apply NoDup_keys_set|].
      intros ch cl Hin. apply In_set in Hin as [Heq|Hin]; [|by apply (Hwf ch)].
      injection Heq as -> ->. split_and!.
      * intros Hnil. by rewrite Hnil in E.
      * by apply NoDup_keys_delete.
      * intros k c Hin. apply In_delete in Hin. by apply Hid.
Qed.

Lemma well_formed_run (ops : list Sse.Op) : Sse.well_formed (Sse.run ops).
Proof.
  unfold Sse.run. generalize well_formed_nil.
  generalize ([] : JsMap (JsMap SSEClient)).
  induction ops as [|o ops IH]; intros channels Hwf; simpl; [done|].
  by apply IH, well_formed_step.
Qed.

Lemma connected_from (channels : JsMap (JsMap SSEClient)) (total : Z) :
  fold_left (fun total clients => total + JsMap.size clients)
    (JsMap.values channels) total
  = total + Sse.getConnectedClients channels.
Proof.
  unfold Sse.getConnectedClients. revert total.
  induction channels as [|[k cl] channels IH]; intros total; simpl; [lia|].
  rewrite IH, (IH (0 + _)). lia.
Qed.

Lemma connected_cons (k : string) (clients : JsMap SSEClient)
    (channels : JsMap (JsMap SSEClient)) :
  Sse.getConnectedClients ((k, clients) :: channels)
  = JsMap.size clients + Sse.getConnectedClients channels.
Proof.
  unfold Sse.getConnectedClients at 1. simpl. by rewrite connected_from.
Qed.

Lemma connected_nonneg (channels : JsMap (JsMap SSEClient)) :
  0 <= Sse.getConnectedClients channels.
Proof.
  induction channels as [|[k cl] channels IH]; [done|].
  rewrite connected_cons. unfold JsMap.size. lia.
Qed.

Lemma connected_set (channel : string) (clients : JsMap SSEClient)
    (channels : JsMap (JsMap SSEClient)) :
  Sse.getConnectedClients (JsMap.set channel clients channels)
  = Sse.getConnectedClients channels
    - match JsMap.get channel channels with
      | Some old => JsMap.size old
      | None => 0
      end
    + JsMap.size clients.
Proof.
  induction channels as [|[k cl] channels IH]; simpl.
  - rewrite connected_cons. unfold Sse.getConnectedClients. simpl. lia.
  - destruct (String.eqb channel k); rewrite !connected_cons; [lia|].
    rewrite IH. lia.
Qed.

Lemma connected_delete (channel : string) (channels : JsMap (JsMap SSEClient)) :
  NoDup (map fst channels) ->
  Sse.getConnectedClients (JsMap.delete channel channels)
  = Sse.getConnectedClients channels
    - match JsMap.get channel channels with
      | Some old => JsMap.size old
      | None => 0
      end.
Proof.
  induction channels as [|[k cl] channels IH]; simpl; [done|].
  intros [Hk Hnd]%NoDup_cons. destruct (String.eqb channel k) eqn:E.
  - apply String.eqb_eq in E as ->. rewrite connected_cons.
    rewrite delete_absent; [lia|]. apply get_None_keys.
    intros Hin. by apply Hk, list_elem_of_In.
  - rewrite !connected_cons, IH; [lia|done].
Qed.

(** X18. Whatever the subscriptions and cancellations so far, the registry
    has no channel name twice and no channel without subscribers, every
    client is stored under its own id and once per channel, and
    [getConnectedClients] is zero exactly when no channel is left. *)
Theorem registry_stays_well_formed (ops : list Sse.Op) :
  Sse.well_formed (Sse.run ops) /\
  0 <= Sse.getConnectedClients (Sse.run ops) /\
  (Sse.getConnectedClients (Sse.run ops) = 0 <-> Sse.run ops = []).
Proof.
  pose proof (well_formed_run ops) as Hwf.
  split_and!; [done|apply connected_nonneg|].
  destruct (Sse.run ops) as [|[k cl] channels]; [done|].
  split; [|done]. rewrite connected_cons. intros Hzero.
  destruct Hwf as [_ Hwf].
  destruct (Hwf k cl (or_introl eq_refl)) as (Hne & _).
  pose proof (connected_nonneg channels).
  destruct cl; [done|]. unfold JsMap.size in Hzero. simpl in Hzero. lia.
Qed.

(** X19. The count of connected clients follows the subscriptions: on a
    registry built by subscriptions and cancellations, [addClient] raises
    [getConnectedClients] by one unless the client id is already subscribed
    to the channel (then the handle is replaced and the count stays),
    [removeClient] lowers it by one if the client id is subscribed to the
    channel and leaves it otherwise, and [closeAllClients] brings it to
    zero. *)
Theorem getConnectedClients_counts (ops : list Sse.Op) (channel : string)
    (client : SSEClient) (clientId : string) :
  let channels := Sse.run ops in
  Sse.getConnectedClients (Sse.addClient channel client channels)
  = Sse.getConnectedClients channels
    + (if Sse.subscribed channel (SSEClient.id client) channels then 0 else 1) /\
  Sse.getConnectedClients (Sse.removeClient channel clientId channels)
  = Sse.getConnectedClients channels
    - (if Sse.subscribed channel clientId channels then 1 else 0) /\
  Sse.getConnectedClients (Sse.closeAllClients channels).2 = 0.
Proof.
  intros channels. pose proof (well_formed_run ops) as [Hnd Hwf].
  fold channels in Hnd, Hwf. split_and!; [| |done].
  - unfold Sse.addClient, Sse.getOrCreateChannel, Sse.subscribed.
    destruct (JsMap.get channel channels) as [clients|] eqn:Hget.
    + rewrite connected_set, Hget, size_set. lia.
    + rewrite set_set, connected_set, Hget. unfold JsMap.size. simpl. lia.
  - unfold Sse.removeClient, Sse.subscribed.
    destruct (JsMap.get channel channels) as [clients|] eqn:Hget; [|lia].
    destruct (Hwf channel clients (get_In _ _ _ Hget)) as (_ & Hnd' & _).
    pose proof (size_delete clientId clients Hnd') as Hsize.
    destruct (JsMap.size (JsMap.delete clientId clients) =? 0) eqn:E.
    + apply Z.eqb_eq in E. rewrite connected_delete, Hget; [lia|done].
    + rewrite connected_set, Hget. lia.
Qed.


(** X20. Subscribing and cancelling is a round trip: on a registry built by
    subscriptions and cancellations, adding a client that is not yet
    subscribed to the channel and removing it again gives the registry back
    as it was, whether the channel existed or was created for the client;
    and subscribing an id again replaces the handle instead of adding a
    second one. *)
Theorem addClient_removeClient_round_trip (ops : list Sse.Op)
    (channel : string) (client : SSEClient) :
  let channels := Sse.run ops in
  (Sse.subscribed channel (SSEClient.id client) channels = false ->
   Sse.removeClient channel (SSEClient.id client)
     (Sse.addClient channel client channels) = channels) /\
  (forall client',
     SSEClient.id client' = SSEClient.id client ->
     Sse.addClient channel client' (Sse.addClient channel client channels)
     = Sse.addClient channel client' channels).
Proof.
  intros channels. pose proof (well_formed_run ops) as [Hnd Hwf].
  fold channels in Hnd, Hwf. split.
  - unfold Sse.subscribed, Sse.addClient, Sse.getOrCreateChannel, Sse.removeClient.
    destruct (JsMap.get channel channels) as [clients|] eqn:Hget.
    + unfold JsMap.has.
      destruct (JsMap.get (SSEClient.id client) clients) eqn:Hc; [done|]. intros _.
      rewrite get_set_same, (set_absent _ _ _ Hc), (delete_snoc _ _ _ Hc).
      destruct (Hwf channel clients (get_In _ _ _ Hget)) as (Hne & _).
      assert ((JsMap.size clients =? 0) = false) as ->.
      { apply Z.eqb_neq. unfold JsMap.size. destruct clients; [done|]. simpl. lia. }
      by rewrite set_set, set_same.
    + intros _. rewrite set_set, get_set_same. simpl.
      rewrite String.eqb_refl. simpl.
      by rewrite (set_absent _ _ _ Hget), (delete_snoc _ _ _ Hget).
  - intros client' Hid.
    unfold Sse.addClient, Sse.getOrCreateChannel.
    destruct (JsMap.get channel channels) as [clients|] eqn:Hget.
    + by rewrite get_set_same, set_set, Hid, set_set.
    + rewrite !set_set, get_set_same, set_set. simpl.
      by rewrite Hid, String.eqb_refl.
Qed.

Lemma addClient_removeClient_round_trip_witness :
  let c1 := SSEClient.mk "c1" (fun _ _ => true) true in
  let c2 := SSEClient.mk "c2" (fun _ _ => false) true in
  let ops := [Sse.OpAdd "job:j1" c1] in
  Sse.removeClient "job:j1" "c2" (Sse.addClient "job:j1" c2 (Sse.run ops))
  = Sse.run ops.
Proof.
  intros c1 c2 ops.
  exact (proj1 (addClient_removeClient_round_trip ops "job:j1" c2) eq_refl).
Defined.

Lemma filter_key_set_eq {V : Type} (k : string) (v : V) (m : JsMap V) :
  NoDup (map fst m) ->
  List.filter (fun e => String.eqb k e.1) (JsMap.set k v m) = [(k, v)].
Proof.
  induction m as [|[k0 v0] m IH]; simpl.
  - by rewrite String.eqb_refl.
  - intros [Hk0 Hnd]%NoDup_cons. destruct (String.eqb k k0) eqn:E; simpl; rewrite E.
    + apply String.eqb_eq in E as ->. f_equal.
      clear IH. induction m as [|[k1 v1] m IH]; [done|]. simpl.
      apply not_elem_of_cons in Hk0 as [Hne Hk0]. simpl in Hne.
      apply NoDup_cons in Hnd as [_ Hnd].
      apply String.eqb_neq in Hne. rewrite Hne. by apply IH.
    + by apply IH.
Qed.

Lemma filter_key_set_ne {V : Type} (k : string) (v : V) (m : JsMap V) :
  List.filter (fun e => negb (String.eqb k e.1)) (JsMap.set k v m)
  = List.filter (fun e => negb (String.eqb k e.1)) m.
Proof.
  induction m as [|[k0 v0] m IH]; simpl.
  - by rewrite String.eqb_refl.
  - destruct (String.eqb k k0) eqn:E; simpl; rewrite E; simpl; [done|].
    by rewrite IH.
Qed.

Lemma filter_key_delete_eq {V : Type} (k : string) (m : JsMap V) :
  List.filter (fun e => String.eqb k e.1) (JsMap.delete k m) = [].
Proof.
  induction m as [|[k0 v0] m IH]; simpl; [done|].
  destruct (String.eqb k k0) eqn:E; simpl; [done|]. by rewrite E.
Qed.

Lemma filter_key_delete_ne {V : Type} (k : string) (m : JsMap V) :
  List.filter (fun e => negb (String.eqb k e.1)) (JsMap.delete k m)
  = List.filter (fun e => negb (String.eqb k e.1)) m.
Proof.
  induction m as [|[k0 v0] m IH]; simpl; [done|].
  destruct (String.eqb k k0) eqn:E; simpl; [done|]. by rewrite E, IH.
Qed.

(** The effects of a broadcast about the clients a test on ids selects are
    those of the entries the test selects by key. *)
Lemma filter_effects {A : Type} (stringify : A -> string)
    (channel event : string) (data : A) (test : string -> bool)
    (clients : JsMap SSEClient) :
  (forall k client, In (k, client) clients -> k = SSEClient.id client) ->
  List.filter (fun e => test (Sse.effect_client e))
    (map (fun client =>
            if SSEClient.send client event (stringify data)
            then Sse.Sent (SSEClient.id client) event (stringify data)
            else Sse.Warned (SSEClient.id client) event channel)
       (JsMap.values clients))
  = map (fun client =>
           if SSEClient.send client event (stringify data)
           then Sse.Sent (SSEClient.id client) event (stringify data)
           else Sse.Warned (SSEClient.id client) event channel)
      (JsMap.values (List.filter (fun e => test e.1) clients)).
Proof.
  induction clients as [|[k c] clients IH]; intros Hid; [done|].
  assert (forall k' c', In (k', c') clients -> k' = SSEClient.id c') as Hid'.
  { intros k' c' Hin. apply Hid. by right. }
  specialize (IH Hid'). pose proof (Hid k c (or_introl eq_refl)) as Hk.
  unfold JsMap.values in *. cbn [map List.filter fst snd].
  assert (Sse.effect_client
            (if SSEClient.send c event (stringify data)
             then Sse.Sent (SSEClient.id c) event (stringify data)
             else Sse.Warned (SSEClient.id c) event channel) = k) as ->.
  { rewrite Hk. by destruct (SSEClient.send c event (stringify data)). }
  destruct (test k); cbn [map snd]; by rewrite IH.
Qed.

Lemma broadcast_default {A : Type} (stringify : A -> string)
    (channel event : string) (data : A) (channels : JsMap (JsMap SSEClient)) :
  Sse.broadcast stringify channel event data channels
  = map (fun client =>
           if SSEClient.send client event (stringify data)
           then Sse.Sent (SSEClient.id client) event (stringify data)
           else Sse.Warned (SSEClient.id client) event channel)
      (JsMap.values (default [] (JsMap.get channel channels))).
Proof. unfold Sse.broadcast. by destruct (JsMap.get channel channels). Qed.

Lemma get_addClient (channel : string) (client : SSEClient)
    (channels : JsMap (JsMap SSEClient)) :
  JsMap.get channel (Sse.addClient channel client channels)
  = Some (JsMap.set (SSEClient.id client) client
            (default [] (JsMap.get channel channels))).
Proof.
  unfold Sse.addClient, Sse.getOrCreateChannel.
  destruct (JsMap.get channel channels); by rewrite get_set_same.
Qed.

Lemma get_removeClient (channel clientId : string)
    (channels : JsMap (JsMap SSEClient)) :
  default [] (JsMap.get channel (Sse.removeClient channel clientId channels))
  = JsMap.delete clientId (default [] (JsMap.get channel channels)).
Proof.
  unfold Sse.removeClient.
  destruct (JsMap.get channel channels) as [clients|] eqn:Hget; [|by rewrite Hget].
  destruct (JsMap.size (JsMap.delete clientId clients) =? 0) eqn:E.
  - rewrite get_delete_same. simpl. apply Z.eqb_eq in E.
    destruct (JsMap.delete clientId clients); [done|].
    unfold JsMap.size in E. simpl in E. lia.
  - by rewrite get_set_same.
Qed.

Lemma get_step_other (channel other : string)
    (channels : JsMap (JsMap SSEClient)) :
  other <> channel ->
  (forall client,
     JsMap.get other (Sse.addClient channel client channels)
     = JsMap.get other channels) /\
  (forall clientId,
     JsMap.get other (Sse.removeClient channel clientId channels)
     = JsMap.get other channels).
Proof.
  intros Hne. split.
  - intros client. unfold Sse.addClient, Sse.getOrCreateChannel.
    destruct (JsMap.get channel channels); rewrite ?set_set;
      by apply get_set_ne.
  - intros clientId. unfold Sse.removeClient.
    destruct (JsMap.get channel channels) as [clients|]; [|done].
    destruct (_ =? 0); [by apply get_delete_other|by apply get_set_ne].
Qed.

(** X21. Broadcasts follow the subscriptions.  On a registry built by
    subscriptions and cancellations, a broadcast to a channel after
    [addClient] hands the event to the new client exactly once (or logs the
    warning, if its [send] throws) and treats the other subscribers as
    before; after [removeClient] nothing is sent to the removed id and the
    others are treated as before; and broadcasts to other channels are not
    affected by either. *)
Theorem broadcast_follows_subscriptions {A : Type} (stringify : A -> string)
    (ops : list Sse.Op) (channel event : string) (data : A)
    (client : SSEClient) (clientId : string) :
  let channels := Sse.run ops in
  let added := Sse.addClient channel client channels in
  let removed := Sse.removeClient channel clientId channels in
  List.filter (fun e => String.eqb (SSEClient.id client) (Sse.effect_client e))
    (Sse.broadcast stringify channel event data added)
  = [if SSEClient.send client event (stringify data)
     then Sse.Sent (SSEClient.id client) event (stringify data)
     else Sse.Warned (SSEClient.id client) event channel] /\
  List.filter
    (fun e => negb (String.eqb (SSEClient.id client) (Sse.effect_client e)))
    (Sse.broadcast stringify channel event data added)
  = List.filter
      (fun e => negb (String.eqb (SSEClient.id client) (Sse.effect_client e)))
      (Sse.broadcast stringify channel event data channels) /\
  List.filter (fun e => String.eqb clientId (Sse.effect_client e))
    (Sse.broadcast stringify channel event data removed) = [] /\
  List.filter (fun e => negb (String.eqb clientId (Sse.effect_client e)))
    (Sse.broadcast stringify channel event data removed)
  = List.filter (fun e => negb (String.eqb clientId (Sse.effect_client e)))
      (Sse.broadcast stringify channel event data channels) /\
  (forall other, other <> channel ->
     Sse.broadcast stringify other event data added
     = Sse.broadcast stringify other event data channels /\
     Sse.broadcast stringify other event data removed
     = Sse.broadcast stringify other event data channels).
Proof.
  intros channels added removed.
  pose proof (well_formed_run ops) as [Hnd Hwf]. fold channels in Hnd, Hwf.
  assert (NoDup (map fst (default [] (JsMap.get channel channels))) /\
          forall k c, In (k, c) (default [] (JsMap.get channel channels)) ->
                      k = SSEClient.id c) as [Hnd' Hid].
  { destruct (JsMap.get channel channels) as [clients|] eqn:Hget; simpl.
    - by destruct (Hwf channel clients (get_In _ _ _ Hget)) as (_ & ? & ?).
    - split; [constructor|]. by intros ? ? []. }
  assert (forall k c,
            In (k, c) (JsMap.set (SSEClient.id client) client
                         (default [] (JsMap.get channel channels))) ->
            k = SSEClient.id c) as Hid_add.
  { intros k c Hin. apply In_set in Hin as [Heq|Hin]; [|by apply Hid].
    by injection Heq as -> ->. }
  assert (forall k c,
            In (k, c) (JsMap.delete clientId
                         (default [] (JsMap.get channel channels))) ->
            k = SSEClient.id c) as Hid_del.
  { intros k c Hin. apply In_delete in Hin. by apply Hid. }
  rewrite !broadcast_default. unfold added, removed.
  rewrite get_addClient, get_removeClient. cbn [default from_option id].
  split_and!.
  - rewrite (filter_effects stringify channel event data
               (fun k => String.eqb (SSEClient.id client) k)); [|done].
    cbv beta. by rewrite filter_key_set_eq.
  - rewrite !(filter_effects stringify channel event data
                (fun k => negb (String.eqb (SSEClient.id client) k))); [|done..].
    cbv beta. by rewrite filter_key_set_ne.
  - rewrite (filter_effects stringify channel event data
               (fun k => String.eqb clientId k)); [|done].
    cbv beta. by rewrite filter_key_delete_eq.
  - rewrite !(filter_effects stringify channel event data
                (fun k => negb (String.eqb clientId k))); [|done..].
    cbv beta. by rewrite filter_key_delete_ne.
  - intros other Hne. unfold Sse.broadcast.
    destruct (get_step_other channel other channels Hne) as [Hadd Hrem].
    by rewrite Hadd, Hrem.
Qed.


(** ** Runners *)

Lemma hasActiveRunner_In (platform : Platform) (now : Z)
    (runnerMap : JsMap Runner) (k : string) (runner : Runner) :
  In (k, runner) runnerMap ->
  now - Runner.lastHeartbeat runner < Runners.ACTIVE_THRESHOLD_MS ->
  In platform (Runner.platforms runner) ->
  Runners.hasActiveRunner platform now runnerMap = true.
Proof.
  intros Hin Hfresh Hp. unfold Runners.hasActiveRunner.
  apply existsb_exists. exists runner. split.
  - unfold JsMap.values. apply in_map_iff. by exists (k, runner).
  - apply andb_true_iff. split; [by apply Z.ltb_lt|].
    apply existsb_exists. exists platform. split; [done|]. by apply bool_decide_eq_true.
Qed.

(** X22. An accepted heartbeat makes the runner count.  A heartbeat with a
    runner id and at least one platform answers 200 with the runner, which
    is then stored under that id with the platforms of the body and the
    heartbeat time [now]; a new runner without host name is called
    'unknown', a known runner takes the host name of the body as it is; the
    other runners are untouched; and for each of its platforms
    [hasActiveRunner] holds as long as less than 90 seconds have passed
    since [now]. *)
Theorem heartbeat_registers_runner (body : Runners.HeartbeatBody) (now : Z)
    (runnerMap : JsMap Runner) (p : Platform) (ps : list Platform) :
  Runners.runnerId body <> EmptyString ->
  Runners.platforms body = Some (p :: ps) ->
  let result := Runners.heartbeat body now runnerMap in
  exists runner,
    Runners.status result.1 = 200 /\
    Runners.body result.1 = Runners.RunnerBody runner /\
    JsMap.get (Runners.runnerId body) result.2 = Some runner /\
    Runner.platforms runner = p :: ps /\
    Runner.lastHeartbeat runner = now /\
    Runner.hostname runner
    = match JsMap.get (Runners.runnerId body) runnerMap with
      | Some _ => Runners.hostname body
      | None => if String.eqb (Runners.hostname body) EmptyString then "unknown"
                else Runners.hostname body
      end /\
    (forall other, other <> Runners.runnerId body ->
       JsMap.get other result.2 = JsMap.get other runnerMap) /\
    (forall platform now',
       In platform (p :: ps) ->
       now' - now < Runners.ACTIVE_THRESHOLD_MS ->
       Runners.hasActiveRunner platform now' result.2 = true).
Proof.
  intros Hid Hps result. unfold result, Runners.heartbeat.
  apply String.eqb_neq in Hid. rewrite Hid, Hps.
  destruct (JsMap.get (Runners.runnerId body) runnerMap) as [existing|] eqn:Hget;
    eexists; cbn [fst snd Runners.status Runners.body];
    (split_and!; [reflexivity|reflexivity|apply get_set_same|reflexivity
                 |reflexivity|reflexivity| |]).
  - intros other Hne. apply get_set_ne. congruence.
  - intros platform now' Hin Hfresh.
    eapply hasActiveRunner_In; [apply get_In, get_set_same|done..].
  - intros other Hne. apply get_set_ne. simpl. congruence.
  - intros platform now' Hin Hfresh.
    eapply hasActiveRunner_In; [apply get_In, get_set_same|done..].
Qed.

Lemma heartbeat_registers_runner_witness :
  let body := {| Runners.runnerId := "r1"; Runners.hostname := EmptyString;
                 Runners.platforms := Some [ios; android] |} in
  exists runner,
    JsMap.get "r1" (Runners.heartbeat body 1000 []).2 = Some runner /\
    Runner.hostname runner = "unknown" /\
    Runners.hasActiveRunner android 90999 (Runners.heartbeat body 1000 []).2 = true.
Proof.
  intros body.
  assert (Runners.runnerId body <> EmptyString) as Hid by done.
  destruct (heartbeat_registers_runner body 1000 [] ios [android] Hid eq_refl)
    as (runner & _ & _ & Hget & _ & _ & Hhost & _ & Hactive).
  exists runner. split_and!; [exact Hget|exact Hhost|].
  apply Hactive; [by right; left|]. by vm_compute.
Defined.

Lemma sweep_split (now : Z) (before after : JsMap Runner) :
  Runners.sweep now (before ++ after)
  = Runners.sweep now before ++ Runners.sweep now after.
Proof. apply List.filter_app. Qed.

(** X23. The sweep of stale runners removes exactly the runners whose last
    heartbeat is more than five minutes old and keeps the others in their
    order: an entry that stays has, before and after it, the entries that
    stay of those it had before and after it.  Since a runner counts as
    active for 90 seconds only, the sweep never changes the answer of
    [hasActiveRunner], and sweeping twice at the same time is sweeping
    once. *)
Theorem sweep_keeps_active_runners (now : Z) (runnerMap : JsMap Runner)
    (platform : Platform) :
  Runners.hasActiveRunner platform now (Runners.sweep now runnerMap)
  = Runners.hasActiveRunner platform now runnerMap /\
  (forall entry, In entry (Runners.sweep now runnerMap) <->
     In entry runnerMap /\
     now - Runner.lastHeartbeat entry.2 <= Runners.STALE_REMOVE_MS) /\
  Runners.sweep now runnerMap `sublist_of` runnerMap /\
  (forall before entry after,
     runnerMap = before ++ entry :: after ->
     Runners.sweep now runnerMap
     = Runners.sweep now before
       ++ (if Runners.STALE_REMOVE_MS <? now - Runner.lastHeartbeat entry.2
           then [] else [entry])
       ++ Runners.sweep now after) /\
  Runners.sweep now (Runners.sweep now runnerMap) = Runners.sweep now runnerMap.
Proof.
  split_and!.
  - unfold Runners.hasActiveRunner, Runners.sweep, JsMap.values.
    induction runnerMap as [|[k r] m IH]; [done|]. simpl.
    destruct (Runners.STALE_REMOVE_MS <? now - Runner.lastHeartbeat r) eqn:E; simpl.
    + rewrite IH. apply Z.ltb_lt in E.
      assert ((now - Runner.lastHeartbeat r <? Runners.ACTIVE_THRESHOLD_MS) = false)
        as ->; [|done].
      apply Z.ltb_ge. unfold Runners.STALE_REMOVE_MS, Runners.ACTIVE_THRESHOLD_MS in *.
      lia.
    + by rewrite IH.
  - intros entry. unfold Runners.sweep. rewrite filter_In, negb_true_iff, Z.ltb_ge.
    done.
  - unfold Runners.sweep. induction runnerMap as [|[k r] m IH]; [done|]. simpl.
    destruct (negb _); [by apply sublist_skip|by apply sublist_cons].
  - intros before entry after ->. rewrite sweep_split. f_equal.
    unfold Runners.sweep. simpl. by destruct (_ <? _).
  - unfold Runners.sweep. induction runnerMap as [|[k r] m IH]; [done|]. simpl.
    destruct (negb _) eqn:E; simpl; [|done]. by rewrite E, IH.
Qed.


(** ** Job routes *)





Lemma not_found_in_JobNotFound (id : string) :
  JobRoutes.str_includes "not found" (Queue.message (Queue.JobNotFound id)) = true.
Proof.
  unfold Queue.message. cbv [String.append]. simpl.
  by rewrite ?orb_true_r.
Qed.

Lemma not_found_in_InvalidTransition (cur new : JobStatus) (id : string) :
  JobRoutes.str_includes "not found" id = false ->
  JobRoutes.str_includes "not found"
    (Queue.message (Queue.InvalidTransition cur new id)) = false.
Proof.
  intros Hid. unfold Queue.message.
  destruct cur, new; cbv [String.append JobStatus_to_string]; simpl;
    by rewrite Hid.
Qed.

Lemma with_jobs_same (srv : Jobs.Server) :
  JobRoutes.with_jobs (Jobs.jobs srv) srv = srv.
Proof. by destruct srv. Qed.

(** X25. [POST /jobs/:id/cancel] answers by the state of the job.  For an
    id that does not contain the words 'not found' (no generated id does):
    an unknown job gives 404; a job that is queued, claimed or building is
    cancelled, with [updatedAt] set to the time of the call, returned with
    200 and announced on the channel of the job; a job that has already
    finished (success, error or cancelled) gives 409.  On 404 and 409 the
    server state is untouched and nothing is broadcast. *)
Theorem cancel_answers_by_status (stringify_status : JobRoutes.StatusEvent -> string)
    (id : string) (now : Z) (srv : Jobs.Server) :
  JobRoutes.str_includes "not found" id = false ->
  let result := JobRoutes.cancel stringify_status id now srv in
  match Queue.getJob id (Jobs.jobs srv) with
  | None =>
      JobRoutes.status result.1.1 = 404 /\ result.1.2 = srv /\ result.2 = []
  | Some job =>
      if bool_decide (Job.status job = queued)
         || bool_decide (Job.status job = claimed)
         || bool_decide (Job.status job = building)
      then
        JobRoutes.status result.1.1 = 200 /\
        exists job',
          JobRoutes.body result.1.1 = JobRoutes.JobBody job' /\
          Queue.getJob id (Jobs.jobs result.1.2) = Some job' /\
          Job.status job' = cancelled /\ Job.updatedAt job' = now /\
          Job.id job' = Job.id job /\ Job.claimedBy job' = Job.claimedBy job /\
          Job.createdAt job' = Job.createdAt job /\
          Jobs.files result.1.2 = Jobs.files srv /\
          Jobs.channels result.1.2 = Jobs.channels srv /\
          result.2 = Sse.broadcastToJob stringify_status id "job:status"
                       {| JobRoutes.jobId := id; JobRoutes.newStatus := cancelled;
                          JobRoutes.eventError := None;
                          JobRoutes.eventExitCode := None |}
                       (Jobs.channels srv)
      else
        JobRoutes.status result.1.1 = 409 /\ result.1.2 = srv /\ result.2 = []
  end.
Proof.
  intros Hid result. unfold result, JobRoutes.cancel.
  destruct (updateJobStatus_cases id cancelled None now (Jobs.jobs srv))
    as [[Hget ->]|[(job & Hget & Hinc & ->)|(job & job' & Hget & Hinc & -> & Hfields)]];
    rewrite Hget.
  - rewrite not_found_in_JobNotFound. cbn [fst snd JobRoutes.status].
    by rewrite with_jobs_same.
  - rewrite (not_found_in_InvalidTransition _ _ _ Hid). cbn [fst snd JobRoutes.status].
    rewrite with_jobs_same. by destruct (Job.status job).
  - destruct Hfields as (Hi & Hs & _ & Hc & Hcr & Hu).
    assert (bool_decide (Job.status job = queued)
            || bool_decide (Job.status job = claimed)
            || bool_decide (Job.status job = building) = true) as ->.
    { by destruct (Job.status job). }
    cbn [fst snd JobRoutes.status JobRoutes.body]. split; [done|].
    exists job'. split_and!; try done. apply get_set_same.
Qed.

Lemma cancel_answers_by_status_witness :
  let job := Job.mk "j1" building ios "dev" [] "me" (Some "r1") 100 200
               None None None None in
  let srv := {| Jobs.jobs := [("j1", job)]; Jobs.storage := Storage.initial;
                Jobs.files := ∅; Jobs.channels := [] |} in
  JobRoutes.status (JobRoutes.cancel (fun _ => EmptyString) "j1" 300 srv).1.1 = 200.
Proof.
  intros job srv.
  assert (JobRoutes.str_includes "not found" "j1" = false) as Hid by reflexivity.
  exact (proj1 (cancel_answers_by_status (fun _ => EmptyString) "j1" 300 srv Hid)).
Defined.

Lemma snoc_decompose {A : Type} (l before after : list A) (x : A) :
  l ++ [x] = before ++ x :: after -> ~ In x l -> before = l /\ after = [].
Proof.
  revert before. induction l as [|y l IH]; intros [|b before]; simpl.
  - intros [= ->]. done.
  - intros [= <- H]. by destruct before.
  - intros [= -> H] Hnin. destruct Hnin. by left.
  - intros [= <- H] Hnin. destruct (IH before H) as [-> ->]; [tauto|done].
Qed.

(** X26. From submission to download.  On a server whose storage has been
    initialised, where no job is waiting for the platform and the id drawn
    is new: a submission with a tarball within the limit, a valid platform
    and a submitter is accepted with 201; the next claim for that platform
    by a runner returns this very job, now claimed by that runner, with the
    URL of its tarball; and the download of the tarball of the job then
    answers 200 with exactly the bytes that were uploaded. *)
Theorem submitted_job_is_claimed_and_downloaded
    (stringify_job : Job -> string)
    (stringify_status : JobRoutes.StatusEvent -> string)
    (parseFlags : string -> option (list string))
    (env : Storage.Env) (st0 : Storage.State)
    (name : string) (content : list Byte.byte)
    (platform : string) (p : Platform) (profile : option string)
    (submittedBy nanoid runnerId hostname : string) (now now' : Z)
    (srv : Jobs.Server) :
  Path.isAbsolute (Storage.cwd env) = true ->
  Jobs.storage srv = Storage.init env st0 ->
  Queue.getJob nanoid (Jobs.jobs srv) = None ->
  (forall k j, In (k, j) (Jobs.jobs srv) -> ~ Queue.eligible p j) ->
  JobRoutes.platform_of (Some platform) = Some p ->
  submittedBy <> EmptyString ->
  runnerId <> EmptyString ->
  Z.of_nat (length content) <= Storage.MAX_TARBALL_BYTES ->
  let submitted :=
    JobRoutes.submit stringify_job parseFlags env
      (Some (Jobs.FormFile name content)) (Some platform) profile None
      (Some submittedBy) nanoid now srv in
  let claimed_ :=
    JobRoutes.claim stringify_status (Some platform) runnerId hostname now'
      submitted.1.2 in
  JobRoutes.status submitted.1.1 = 201 /\
  JobRoutes.status claimed_.1.1 = 200 /\
  (exists job,
     JobRoutes.body claimed_.1.1
     = JobRoutes.ClaimBody job ("/jobs/" +:+ nanoid +:+ "/tarball") /\
     Job.id job = nanoid /\ Job.status job = claimed /\
     Job.claimedBy job = Some runnerId /\
     Queue.getJob nanoid (Jobs.jobs claimed_.1.2) = Some job) /\
  exists path,
    JobRoutes.getTarball env nanoid claimed_.1.2
    = Ok {| JobRoutes.status := 200;
            JobRoutes.body := JobRoutes.FileBody path content |}.
Proof.
  intros Hcwd Hst Hfresh Hnone Hp Hby Hrunner Hsize submitted claimed_.
  destruct (init_normal env st0 Hcwd) as (Ht & _ & Hinit). rewrite <- Hst in Ht, Hinit.
  apply String.eqb_neq in Hby, Hrunner.
  set (dest := Storage.tarballsDir (Jobs.storage srv) +:+ "/"
               +:+ Storage.sanitize nanoid +:+ ".tar.gz").
  set (job := JobRoutes.set_tarballFilename (nanoid +:+ ".tar.gz")
                (Queue.createJob nanoid now
                   {| Queue.platform := p;
                      Queue.profile := JobRoutes.or_else profile "development";
                      Queue.flags := Some [];
                      Queue.submittedBy := submittedBy;
                      Queue.tarballFilename := None |} (Jobs.jobs srv)).1).
  assert (submitted
          = ({| JobRoutes.status := 201; JobRoutes.body := JobRoutes.JobBody job |},
             JobRoutes.with_files (<[dest := content]> (Jobs.files srv))
               (JobRoutes.with_jobs (Jobs.jobs srv ++ [(nanoid, job)]) srv),
             Sse.broadcastToPlatform stringify_job p "job:created" job
               (Jobs.channels srv))) as Hsub.
  { unfold submitted, JobRoutes.submit. rewrite Hp.
    cbn [JobRoutes.or_else]. rewrite !Hby. cbn [String.eqb].
    unfold Queue.createJob at 1. cbn [Job.id].
    rewrite saveTarball_normal; [|done..]. cbv zeta.
    rewrite writeWithLimit_within; [|done].
    cbn [JobRoutes.set_tarballFilename Job.id Storage.payload_content].
    rewrite set_set, (set_absent _ _ _ Hfresh). reflexivity. }
  assert (Queue.eligible p job) as Helig by (by split).
  assert (~ In (nanoid, job) (Jobs.jobs srv)) as Hnin.
  { intros Hin. by apply (Hnone _ _ Hin). }
  set (job' := Job.mk (Job.id job) claimed (Job.platform job) (Job.profile job)
                 (Job.flags job) (Job.submittedBy job) (Some runnerId)
                 (Job.createdAt job) now' (Job.error job) (Job.exitCode job)
                 (Job.tarballFilename job) (Job.artifactFilename job)).
  assert (Queue.claimNextJob p runnerId (JobRoutes.or_else (Some hostname) "unknown")
            now' (Jobs.jobs srv ++ [(nanoid, job)])
          = (Some job', Jobs.jobs srv ++ [(nanoid, job')])) as Hclaim.
  { destruct (claimNextJob_cases p runnerId (JobRoutes.or_else (Some hostname) "unknown")
                now' (Jobs.jobs srv ++ [(nanoid, job)]))
      as [(b & k & j & a & Hjobs & Hj & _ & _ & Heq)|[Hno _]].
    - assert ((k, j) = (nanoid, job)) as Hkj.
      { assert (In (k, j) (Jobs.jobs srv ++ [(nanoid, job)])) as Hin.
        { rewrite Hjobs. apply in_or_app. right. by left. }
        apply in_app_or in Hin as [Hin|[Heq'|[]]]; [|done].
        by destruct (Hnone _ _ Hin). }
      injection Hkj as -> ->.
      destruct (snoc_decompose _ _ _ _ Hjobs Hnin) as [-> ->]. exact Heq.
    - destruct (Hno (nanoid, job)); [|done]. apply in_or_app. right. by left. }
  assert (claimed_
          = ({| JobRoutes.status := 200;
                JobRoutes.body :=
                  JobRoutes.ClaimBody job' ("/jobs/" +:+ nanoid +:+ "/tarball") |},
             JobRoutes.with_jobs (Jobs.jobs srv ++ [(nanoid, job')])
               (JobRoutes.with_files (<[dest := content]> (Jobs.files srv))
                  (JobRoutes.with_jobs (Jobs.jobs srv ++ [(nanoid, job)]) srv)),
             Sse.broadcastToJob stringify_status nanoid "job:status"
               {| JobRoutes.jobId := nanoid; JobRoutes.newStatus := claimed;
                  JobRoutes.eventError := None; JobRoutes.eventExitCode := None |}
               (Jobs.channels srv))) as Hcl.
  { unfold claimed_. rewrite Hsub. cbn [fst snd]. unfold JobRoutes.claim.
    rewrite Hp, Hrunner.
    cbn [JobRoutes.with_files JobRoutes.with_jobs Jobs.jobs Jobs.channels].
    rewrite Hclaim. reflexivity. }
  assert (Queue.getJob nanoid (Jobs.jobs srv ++ [(nanoid, job')]) = Some job')
    as Hget.
  { unfold Queue.getJob. rewrite <- (set_absent _ _ _ Hfresh). apply get_set_same. }
  rewrite Hsub, Hcl. cbn [fst snd JobRoutes.status JobRoutes.body].
  split_and!; [done|done| |].
  - exists job'. by split_and!.
  - exists dest. unfold JobRoutes.getTarball.
    cbn [JobRoutes.with_files JobRoutes.with_jobs Jobs.jobs Jobs.files Jobs.storage].
    rewrite Hget.
    assert (negb (bool_decide (Job.status job' = claimed))
            && negb (bool_decide (Job.status job' = building)) = false) as ->
      by reflexivity.
    rewrite getTarballPath_normal; [|done..]. cbv zeta.
    change (Job.id job') with nanoid. fold dest.
    unfold Storage.exists_at. rewrite !lookup_insert_eq. reflexivity.
Qed.

Lemma submitted_job_is_claimed_and_downloaded_witness :
  let env := {| Storage.cwd := "/srv"; Storage.STORAGE_DIR := None |} in
  let srv := {| Jobs.jobs := []; Jobs.storage := Storage.init env Storage.initial;
                Jobs.files := ∅; Jobs.channels := [] |} in
  JobRoutes.status
    (JobRoutes.submit (fun job => Job.id job) (fun _ => None) env
       (Some (Jobs.FormFile "src.tar.gz" [Byte.x01])) (Some "ios") None None
       (Some "me") "j1" 100 srv).1.1 = 201.
Proof.
  intros env srv.
  assert (forall k j, In (k, j) (Jobs.jobs srv) -> ~ Queue.eligible ios j) as Hnone
    by (by intros k j []).
  assert ("me" <> EmptyString) as Hby by done.
  assert ("r1" <> EmptyString) as Hrunner by done.
  assert (Z.of_nat (length [Byte.x01]) <= Storage.MAX_TARBALL_BYTES) as Hsize
    by (by vm_compute).
  exact (proj1 (submitted_job_is_claimed_and_downloaded
                  (fun job => Job.id job) (fun _ => EmptyString) (fun _ => None)
                  env Storage.initial "src.tar.gz" [Byte.x01] "ios" ios None
                  "me" "j1" "r1" "host" 100 200 srv
                  eq_refl eq_refl eq_refl Hnone eq_refl Hby Hrunner Hsize)).
Defined.

(** *** What no request does *)

Lemma updateJobStatus_keeps_artifactFilename (id : string) (newStatus : JobStatus)
    (extra : option Queue.UpdateExtra) (now : Z) (jobs : JsMap Job) :
  extra ≫= Queue.artifactFilename = None ->
  (forall k j, In (k, j) jobs -> Job.artifactFilename j = None) ->
  forall k j, In (k, j) (Queue.updateJobStatus id newStatus extra now jobs).2 ->
              Job.artifactFilename j = None.
Proof.
  intros Hextra Hjobs k j. unfold Queue.updateJobStatus.
  destruct (JsMap.get id jobs) as [job|] eqn:Hget; [|by apply Hjobs].
  destruct (negb _); [by apply Hjobs|]. rewrite Hextra. cbn [snd].
  intros Hin. apply In_set in Hin as [Heq|Hin]; [|by apply (Hjobs k)].
  injection Heq as _ ->.
  destruct (extra ≫= Queue.error), (extra ≫= Queue.exitCode); simpl;
    by apply (Hjobs id), get_In.
Qed.

Lemma postArtifact_jobs (stringify : Jobs.ArtifactEvent -> string)
    (env : Storage.Env) (id : string) (artifact : option Jobs.FormValue)
    (now : Z) (srv : Jobs.Server) :
  Jobs.jobs (Jobs.postArtifact stringify env id artifact now srv).1.2
  = Jobs.jobs srv.
Proof.
  unfold Jobs.postArtifact.
  destruct (Queue.getJob id (Jobs.jobs srv)) as [job|] eqn:Hget; [|done].
  destruct (negb _ && negb _); [done|].
  destruct artifact as [[value|name content]|]; [done| |done].
  destruct (Storage.saveArtifact _ _ _ _ _ _) as [[dest|err] fs]; [|done].
  by rewrite (updateJobStatus_self id _ now (Jobs.jobs srv) job Hget).
Qed.

Lemma handle_keeps_artifactFilename (stringify_job : Job -> string)
    (stringify_status : JobRoutes.StatusEvent -> string)
    (stringify_artifact : Jobs.ArtifactEvent -> string)
    (parseFlags : string -> option (list string)) (env : Storage.Env)
    (now : Z) (request : JobRoutes.Request) (srv : Jobs.Server) :
  (forall k j, In (k, j) (Jobs.jobs srv) -> Job.artifactFilename j = None) ->
  forall k j,
    In (k, j)
      (Jobs.jobs (JobRoutes.handle stringify_job stringify_status
                    stringify_artifact parseFlags env now request srv)) ->
    Job.artifactFilename j = None.
Proof.
  intros Hjobs k j.
  destruct request as [tarball platform profile flagsRaw submittedBy nanoid
                      |platform runnerId hostname|id status message exitCode
                      |id|id artifact|ttl]; cbn [JobRoutes.handle].
  - unfold JobRoutes.submit.
    destruct tarball as [[value|name content]|]; [by apply Hjobs| |by apply Hjobs].
    destruct (JobRoutes.platform_of platform) as [p|]; [|by apply Hjobs].
    destruct (String.eqb (JobRoutes.or_else submittedBy EmptyString) EmptyString);
      [by apply Hjobs|].
    destruct (if String.eqb (JobRoutes.or_else flagsRaw EmptyString) EmptyString
              then Some [] else parseFlags (JobRoutes.or_else flagsRaw EmptyString))
      as [flags|]; [|by apply Hjobs].
    unfold Queue.createJob. cbn [Job.id].
    destruct (Storage.saveTarball _ _ _ _ _) as [[dest|e] fs];
      cbn [fst snd JobRoutes.with_files JobRoutes.with_jobs Jobs.jobs].
    + intros Hin. apply In_set in Hin as [Heq|Hin].
      * by injection Heq as _ ->.
      * apply In_set in Hin as [Heq|Hin]; [|by apply (Hjobs k)].
        by injection Heq as _ ->.
    + unfold Queue.deleteJob. cbn [snd]. intros Hin. apply In_delete in Hin.
      apply In_set in Hin as [Heq|Hin]; [|by apply (Hjobs k)].
      by injection Heq as _ ->.
  - unfold JobRoutes.claim.
    destruct (JobRoutes.platform_of platform) as [p|]; [|by apply Hjobs].
    destruct (String.eqb runnerId EmptyString); [by apply Hjobs|].
    destruct (claimNextJob_cases p runnerId
                (JobRoutes.or_else (Some hostname) "unknown") now (Jobs.jobs srv))
      as [(b & k0 & j0 & a & Hsplit & _ & _ & _ & ->)|[_ ->]];
      cbn [fst snd JobRoutes.with_jobs Jobs.jobs]; [|by apply Hjobs].
    intros Hin. apply in_app_or in Hin as [Hin|[Heq|Hin]].
    + apply (Hjobs k). rewrite Hsplit. apply in_or_app. by left.
    + injection Heq as _ <-. cbn [Job.artifactFilename].
      apply (Hjobs k0). rewrite Hsplit. apply in_or_app. right. by left.
    + apply (Hjobs k). rewrite Hsplit. apply in_or_app. right. by right.
  - unfold JobRoutes.patchStatus. destruct status as [newStatus|]; [|by apply Hjobs].
    pose proof (updateJobStatus_keeps_artifactFilename id newStatus
                  (Some {| Queue.error := message; Queue.exitCode := exitCode;
                           Queue.artifactFilename := None |})
                  now (Jobs.jobs srv) eq_refl Hjobs k j) as Hupd.
    destruct (Queue.updateJobStatus _ _ _ _ _) as [[job|err] jobs']; [exact Hupd|].
    by destruct (JobRoutes.str_includes _ _).
  - unfold JobRoutes.cancel.
    pose proof (updateJobStatus_keeps_artifactFilename id cancelled None
                  now (Jobs.jobs srv) eq_refl Hjobs k j) as Hupd.
    destruct (Queue.updateJobStatus _ _ _ _ _) as [[job|err] jobs']; [exact Hupd|].
    by destruct (JobRoutes.str_includes _ _).
  - rewrite postArtifact_jobs. by apply Hjobs.
  - cbn [JobRoutes.with_files JobRoutes.with_jobs Jobs.jobs].
    unfold Cleanup.runCleanupNow. intros Hin. apply (Hjobs k).
    by apply cleanup_fold_In in Hin.
Qed.

(** X27. No request ever records an artifact.  Whatever submissions,
    claims, status updates, cancellations, artifact uploads and cleanup
    cycles a server that started with an empty queue has handled, no job
    has an [artifactFilename] (the upload handler, the only one that passes
    it on, never gets past its status update), so that
    [GET /jobs/:id/artifact] answers 404 for every id. *)
Theorem artifact_download_never_succeeds (stringify_job : Job -> string)
    (stringify_status : JobRoutes.StatusEvent -> string)
    (stringify_artifact : Jobs.ArtifactEvent -> string)
    (parseFlags : string -> option (list string)) (env : Storage.Env)
    (requests : list (Z * JobRoutes.Request)) (srv0 : Jobs.Server) (id : string) :
  Jobs.jobs srv0 = [] ->
  let srv :=
    JobRoutes.serve stringify_job stringify_status stringify_artifact parseFlags
      env requests srv0 in
  (forall k job, In (k, job) (Jobs.jobs srv) -> Job.artifactFilename job = None) /\
  exists message,
    JobRoutes.getArtifact env id srv
    = Ok {| JobRoutes.status := 404; JobRoutes.body := JobRoutes.ErrorBody message |}.
Proof.
  intros Hempty srv.
  assert (forall k job, In (k, job) (Jobs.jobs srv) ->
                        Job.artifactFilename job = None) as Hinv.
  { unfold srv, JobRoutes.serve.
    assert (forall k job, In (k, job) (Jobs.jobs srv0) ->
                          Job.artifactFilename job = None) as H0.
    { rewrite Hempty. by intros k job []. }
    clear Hempty srv. revert srv0 H0.
    induction requests as [|[now request] requests IH]; intros srv0 H0; [done|].
    cbn [fold_left]. apply IH. by apply handle_keeps_artifactFilename. }
  split; [done|]. unfold JobRoutes.getArtifact.
  destruct (Queue.getJob id (Jobs.jobs srv)) as [job|] eqn:Hget; [|by eexists].
  apply get_In in Hget. rewrite (Hinv id job Hget). by eexists.
Qed.

Lemma artifact_download_never_succeeds_witness :
  let env := {| Storage.cwd := "/srv"; Storage.STORAGE_DIR := None |} in
  let srv0 := {| Jobs.jobs := []; Jobs.storage := Storage.init env Storage.initial;
                 Jobs.files := ∅; Jobs.channels := [] |} in
  let requests :=
    [(100, JobRoutes.Submit (Some (Jobs.FormFile "src.tar.gz" [Byte.x01]))
             (Some "ios") None None (Some "me") "j1");
     (200, JobRoutes.Claim (Some "ios") "r1" "host");
     (300, JobRoutes.PatchStatus "j1" (Some building) None None);
     (400, JobRoutes.PostArtifact "j1" (Some (Jobs.FormFile "app.ipa" [Byte.x02])))] in
  exists message,
    JobRoutes.getArtifact env "j1"
      (JobRoutes.serve (fun job => Job.id job) (fun _ => EmptyString)
         (fun _ => EmptyString) (fun _ => None) env requests srv0)
    = Ok {| JobRoutes.status := 404; JobRoutes.body := JobRoutes.ErrorBody message |}.
Proof.
  intros env srv0 requests.
  exact (proj2 (artifact_download_never_succeeds (fun job => Job.id job)
                  (fun _ => EmptyString) (fun _ => EmptyString) (fun _ => None)
                  env requests srv0 "j1" eq_refl)).
Defined.


(** ** Listing jobs *)

Lemma StronglySorted_filter {A : Type} (R : A -> A -> Prop) (f : A -> bool)
    (l : list A) :
  StronglySorted R l -> StronglySorted R (List.filter f l).
Proof.
  induction 1 as [|x l Hs IH Hx]; simpl; [constructor|].
  destruct (f x); [|done]. constructor; [done|].
  apply List.Forall_forall. intros y [Hy _]%filter_In.
  rewrite List.Forall_forall in Hx. by apply Hx.
Qed.

Lemma In_firstn_In {A : Type} (n : nat) (l : list A) (x : A) :
  In x (firstn n l) -> In x l.
Proof.
  intros Hin. rewrite <- (firstn_skipn n l). apply in_or_app. by left.
Qed.

Lemma StronglySorted_firstn {A : Type} (R : A -> A -> Prop) (n : nat)
    (l : list A) :
  StronglySorted R l -> StronglySorted R (firstn n l).
Proof.
  intros Hs. revert n. induction Hs as [|x l Hs IH Hx]; intros [|n]; simpl;
    try constructor; [done|].
  apply List.Forall_forall. intros y Hy%In_firstn_In.
  rewrite List.Forall_forall in Hx. by apply Hx.
Qed.

Lemma slice_to_In {A : Type} (limit : option Z) (l : list A) (x : A) :
  In x (JobRoutes.slice_to limit l) -> In x l.
Proof.
  unfold JobRoutes.slice_to. destruct limit as [n|]; [|done].
  destruct (n <? 0); apply In_firstn_In.
Qed.

Lemma filter_selects {A : Type} (query : option string) (value : A -> string)
    (l : list A) :
  (if String.eqb (JobRoutes.or_else query EmptyString) EmptyString then l
   else List.filter
          (fun x => String.eqb (value x) (JobRoutes.or_else query EmptyString)) l)
  = List.filter (fun x => JobRoutes.selects query (value x)) l.
Proof.
  unfold JobRoutes.selects.
  destruct (String.eqb (JobRoutes.or_else query EmptyString) EmptyString); simpl.
  - by rewrite filter_all.
  - done.
Qed.

(** The jobs [GET /jobs] lists are the first of those the filters select. *)
Lemma listJobs_listed (parseInt : string -> option Z)
    (statusFilter platformFilter limitRaw : option string) (srv : Jobs.Server) :
  JobRoutes.listJobs parseInt statusFilter platformFilter limitRaw srv
  = {| JobRoutes.status := 200;
       JobRoutes.body :=
         JobRoutes.ListBody
           (JobRoutes.slice_to (parseInt (JobRoutes.or_else limitRaw "50"))
              (List.filter
                 (fun job =>
                    JobRoutes.selects statusFilter
                      (JobStatus_to_string (Job.status job))
                    && JobRoutes.selects platformFilter
                         (Platform_to_string (Job.platform job)))
                 (Queue.getAllJobs (Jobs.jobs srv))))
           (Queue.count_status queued (Jobs.jobs srv))
           (Queue.count_status building (Jobs.jobs srv))
           (Queue.count_status success (Jobs.jobs srv)
            + Queue.count_status error (Jobs.jobs srv)
            + Queue.count_status cancelled (Jobs.jobs srv)) |}.
Proof.
  unfold JobRoutes.listJobs. cbv zeta.
  rewrite (filter_selects statusFilter
             (fun job => JobStatus_to_string (Job.status job))).
  rewrite (filter_selects platformFilter
             (fun job => Platform_to_string (Job.platform job))).
  rewrite filter_filter.
  unfold Queue.getQueueStats. rewrite getQueueStats_fold. cbv zeta.
  cbn [QueueStats.queued QueueStats.building QueueStats.success
       QueueStats.error QueueStats.cancelled].
  unfold Queue.count_status. rewrite !Z.add_0_l. reflexivity.
Qed.

Lemma StronglySorted_app_le {A : Type} (R : A -> A -> Prop) (a b : list A) :
  StronglySorted R (a ++ b) ->
  StronglySorted R a /\ forall x y, In x a -> In y b -> R x y.
Proof.
  induction a as [|z a IH]; simpl; intros Hs.
  - split; [constructor|]. by intros x y [].
  - apply StronglySorted_inv in Hs as [Hs Hz]. destruct (IH Hs) as [Ha Hab].
    split; [constructor; [done|]|].
    + rewrite List.Forall_forall in Hz. apply List.Forall_forall.
      intros x Hx. apply Hz. apply in_or_app. by left.
    + intros x y [<-|Hx] Hy; [|by apply Hab].
      rewrite List.Forall_forall in Hz. apply Hz. apply in_or_app. by right.
Qed.

(** X28. [GET /jobs] answers 200 with the jobs of the queue that have the
    status and the platform asked for, if any, newest first, cut after the
    limit: the listed jobs together with the ones left out are exactly the
    stored jobs the filters select, each as often as it is stored; no job
    left out is newer than a listed one; for a limit that is not negative
    the number listed is the smaller of the limit and the number selected,
    so that nothing is left out when the limit is not below it; a limit
    that is not a number lists nothing.  The three counters are those of the whole queue,
    whatever the filters and the limit: queued, building, and completed as
    the sum of the jobs in success, error and cancelled. *)
Theorem listJobs_filters_and_counts (parseInt : string -> option Z)
    (statusFilter platformFilter limitRaw : option string) (srv : Jobs.Server) :
  let selected job :=
    JobRoutes.selects statusFilter (JobStatus_to_string (Job.status job))
    && JobRoutes.selects platformFilter (Platform_to_string (Job.platform job)) in
  exists listed rest,
    JobRoutes.listJobs parseInt statusFilter platformFilter limitRaw srv
    = {| JobRoutes.status := 200;
         JobRoutes.body :=
           JobRoutes.ListBody listed
             (Queue.count_status queued (Jobs.jobs srv))
             (Queue.count_status building (Jobs.jobs srv))
             (Queue.count_status success (Jobs.jobs srv)
              + Queue.count_status error (Jobs.jobs srv)
              + Queue.count_status cancelled (Jobs.jobs srv)) |} /\
    listed ++ rest ≡ₚ List.filter selected (JsMap.values (Jobs.jobs srv)) /\
    StronglySorted (fun a b => Job.createdAt b <= Job.createdAt a) listed /\
    (forall a b, In a listed -> In b rest -> Job.createdAt b <= Job.createdAt a) /\
    (forall job, In job listed ->
       In job (JsMap.values (Jobs.jobs srv)) /\
       (forall s, statusFilter = Some s -> s <> EmptyString ->
                  JobStatus_to_string (Job.status job) = s) /\
       (forall p, platformFilter = Some p -> p <> EmptyString ->
                  Platform_to_string (Job.platform job) = p)) /\
    (forall n, parseInt (JobRoutes.or_else limitRaw "50") = Some n -> 0 <= n ->
       Z.of_nat (length listed) = Z.min n (Z.of_nat (length (listed ++ rest))) /\
       (Z.of_nat (length (listed ++ rest)) <= n -> rest = [])) /\
    (parseInt (JobRoutes.or_else limitRaw "50") = None -> listed = []).
Proof.
  intros selected.
  pose proof (sort_newest_first_spec (JsMap.values (Jobs.jobs srv)))
    as (Hperm & Hsorted & _).
  fold (Queue.getAllJobs (Jobs.jobs srv)) in Hperm, Hsorted.
  set (matching := List.filter selected (Queue.getAllJobs (Jobs.jobs srv))).
  assert (StronglySorted (fun a b => Job.createdAt b <= Job.createdAt a) matching)
    as Hmatching by (by apply StronglySorted_filter).
  assert (matching ≡ₚ List.filter selected (JsMap.values (Jobs.jobs srv)))
    as Hpm.
  { unfold matching. clear -Hperm. revert Hperm.
    generalize (Queue.getAllJobs (Jobs.jobs srv)) (JsMap.values (Jobs.jobs srv)).
    induction 1 as [|x l l' _ IH|x y l|l l' l'' _ IH1 _ IH2]; simpl.
    - done.
    - destruct (selected x); by rewrite IH.
    - destruct (selected x), (selected y); try done. apply Permutation_swap.
    - by rewrite IH1. }
  assert (exists k, JobRoutes.slice_to (parseInt (JobRoutes.or_else limitRaw "50"))
                      matching = firstn k matching /\
                    (forall n, parseInt (JobRoutes.or_else limitRaw "50") = Some n ->
                               0 <= n -> k = Z.to_nat n) /\
                    (parseInt (JobRoutes.or_else limitRaw "50") = None -> k = 0%nat))
    as (k & Hslice & Hk & Hnone).
  { unfold JobRoutes.slice_to.
    destruct (parseInt (JobRoutes.or_else limitRaw "50")) as [n|].
    - destruct (n <? 0) eqn:E; eexists; split_and!; try done.
      + intros n' [= <-] Hn. apply Z.ltb_lt in E. lia.
      + by intros n' [= <-] Hn.
    - exists 0%nat. by split_and!. }
  exists (firstn k matching), (skipn k matching).
  rewrite firstn_skipn.
  destruct (StronglySorted_app_le (fun a b => Job.createdAt b <= Job.createdAt a)
              (firstn k matching) (skipn k matching))
    as [Hfirst Hle]; [by rewrite firstn_skipn|].
  split_and!; try done.
  - by rewrite listJobs_listed, <- Hslice.
  - intros job Hin%In_firstn_In. apply filter_In in Hin as [Hin Hsel].
    apply andb_true_iff in Hsel as [Hs Hp]. split_and!.
    + apply list_elem_of_In. apply list_elem_of_In in Hin. by rewrite <- Hperm.
    + intros s -> Hne. unfold JobRoutes.selects in Hs. cbn [JobRoutes.or_else] in Hs.
      apply String.eqb_neq in Hne. rewrite !Hne in Hs. by apply String.eqb_eq in Hs.
    + intros p -> Hne. unfold JobRoutes.selects in Hp. cbn [JobRoutes.or_else] in Hp.
      apply String.eqb_neq in Hne. rewrite !Hne in Hp. by apply String.eqb_eq in Hp.
  - intros n Hn Hpos. rewrite (Hk n Hn Hpos), length_firstn. split; [lia|].
    intros Hall. apply skipn_all2. lia.
  - intros Hn. by rewrite (Hnone Hn).
Qed.

(** ** The bearer-token middleware *)

Lemma slice_from_app (a b : string) :
  Auth.slice_from (String.length a) (a +:+ b) = b.
Proof. induction a as [|c a IH]; [by destruct b|]. by rewrite string_app_cons. Qed.

Lemma prefix_slice (a s : string) :
  String.prefix a s = true -> s = a +:+ Auth.slice_from (String.length a) s.
Proof.
  intros [rest ->]%string_prefix_inv. by rewrite slice_from_app.
Qed.

(** X29. The middleware lets a request pass exactly when it should.  A
    request to '/health' passes, and so does every request when no token or
    an empty one is configured.  Otherwise a request passes if and only if
    its [Authorization] header is 'Bearer ' followed by a token whose
    digest is the digest of the configured token, and it is answered 401 in
    every other case (no header, an empty one, another scheme or another
    spelling of it).  So the header 'Bearer ' followed by the configured
    token always passes, and a header that passes carries the configured
    token or a token that collides with it under the digest. *)
Theorem authMiddleware_accepts_the_token {Digest : Type} `{EqDecision Digest}
    (sha256 : string -> Digest) (path token : string)
    (authorization : option string) :
  Auth.authMiddleware sha256 "/health" (Some token) authorization = Auth.Next /\
  Auth.authMiddleware sha256 path None authorization = Auth.Next /\
  Auth.authMiddleware sha256 path (Some EmptyString) authorization = Auth.Next /\
  (path <> "/health" -> token <> EmptyString ->
   (Auth.authMiddleware sha256 path (Some token) authorization = Auth.Next <->
    exists presented,
      authorization = Some ("Bearer " +:+ presented) /\
      sha256 presented = sha256 token) /\
   (Auth.authMiddleware sha256 path (Some token) authorization = Auth.Unauthorized <->
    ~ exists presented,
        authorization = Some ("Bearer " +:+ presented) /\
        sha256 presented = sha256 token) /\
   Auth.authMiddleware sha256 path (Some token) (Some ("Bearer " +:+ token))
   = Auth.Next /\
   Auth.authMiddleware sha256 path (Some token) None = Auth.Unauthorized /\
   forall header,
     String.prefix "Bearer " header = false ->
     Auth.authMiddleware sha256 path (Some token) (Some header)
     = Auth.Unauthorized).
Proof.
  assert (path <> "/health" -> token <> EmptyString ->
          forall header,
            Auth.authMiddleware sha256 path (Some token) header = Auth.Next <->
            exists presented,
              header = Some ("Bearer " +:+ presented) /\
              sha256 presented = sha256 token) as Hiff.
  { intros Hpath%String.eqb_neq Htoken%String.eqb_neq header.
    unfold Auth.authMiddleware. rewrite Hpath, Htoken.
    destruct header as [authHeader|]; [|split; [done|by intros (? & ? & _)]].
    destruct (String.eqb authHeader EmptyString) eqn:Hempty; cbn [negb orb].
    { apply String.eqb_eq in Hempty as ->. split; [done|].
      intros (presented & H' & _). by injection H'. }
    destruct (String.prefix "Bearer " authHeader) eqn:Hprefix; cbn [negb orb].
    - apply (prefix_slice "Bearer ") in Hprefix.
      change (String.length "Bearer ") with 7%nat in Hprefix.
      destruct (bool_decide (sha256 token = sha256 (Auth.slice_from 7 authHeader)))
        eqn:Hhash; cbn [negb].
      + apply bool_decide_eq_true in Hhash. split; [|done]. intros _.
        exists (Auth.slice_from 7 authHeader). by rewrite <- Hprefix.
      + apply bool_decide_eq_false in Hhash. split; [done|].
        intros (presented & [= ->] & Heq). destruct Hhash.
        by rewrite <- Heq.
    - split; [done|]. intros (presented & [= ->] & _).
      by rewrite (string_prefix_app "Bearer " presented) in Hprefix. }
  split_and!.
  - reflexivity.
  - unfold Auth.authMiddleware. by destruct (String.eqb path "/health").
  - unfold Auth.authMiddleware. by destruct (String.eqb path "/health").
  - intros Hpath Htoken. split_and!.
    + apply Hiff; done.
    + rewrite <- (Hiff Hpath Htoken authorization).
      destruct (Auth.authMiddleware sha256 path (Some token) authorization);
        split; try done; intros Hnot; by destruct Hnot.
    + apply Hiff; [done..|]. by exists token.
    + pose proof (Hiff Hpath Htoken None) as Hnone.
      destruct (Auth.authMiddleware sha256 path (Some token) None); [|done].
      destruct (proj1 Hnone eq_refl) as (? & ? & _). done.
    + intros header Hprefix.
      pose proof (Hiff Hpath Htoken (Some header)) as Hbare.
      destruct (Auth.authMiddleware sha256 path (Some token) (Some header)) eqn:E;
        [|done].
      destruct (proj1 Hbare eq_refl) as (presented & [= ->] & _).
      by rewrite (string_prefix_app "Bearer " presented) in Hprefix.
Qed.

Lemma authMiddleware_accepts_the_token_witness :
  Auth.authMiddleware String.length "/jobs" (Some "secret") (Some "Bearer secret")
  = Auth.Next /\
  Auth.authMiddleware String.length "/jobs" (Some "secret") (Some "Bearer public")
  = Auth.Next /\
  Auth.authMiddleware String.length "/jobs" (Some "secret") (Some "Bearer wrong")
  = Auth.Unauthorized /\
  Auth.authMiddleware String.length "/jobs" (Some "secret") (Some "Basic secret")
  = Auth.Unauthorized /\
  Auth.authMiddleware String.length "/jobs" (Some "secret") None
  = Auth.Unauthorized.
Proof.
  destruct (authMiddleware_accepts_the_token String.length "/jobs" "secret"
              (Some "Bearer public")) as (_ & _ & _ & H).
  destruct H as (Hpass & _ & Htoken & Hnone & Hscheme); [discriminate..|].
  destruct (authMiddleware_accepts_the_token String.length "/jobs" "secret"
              (Some "Bearer wrong")) as (_ & _ & _ & H).
  destruct H as (_ & Hfail & _); [discriminate..|].
  split_and!; [exact Htoken| |apply Hfail|by apply Hscheme|exact Hnone].
  - apply Hpass. by exists "public".
  - intros (presented & Heq & Hdigest). injection Heq as Heq.
    vm_compute in Heq. subst presented.
    discriminate Hdigest.
Defined.
